(** * quantops-engine: the backtester, the indicators and the momentum
    strategy

    A shallow embedding of [quantops/backtesting/backtester.py], of the
    indicators of [quantops/utils/indicators.py] that need no square root
    (moving averages, RSI, MACD, average true range, normalisation,
    returns) and of [quantops/strategies/momentum.py], with the properties
    of the accounting loop, the snapshot builder, the metrics, the
    indicators and the strategy proved about it.

    Numbers.  The engine does its accounting with Python floats using
    [+], [-], [*] and comparisons only; these are embedded as exact
    rationals ([Q], compared with [==]), so binary64 rounding and overflow
    are outside the model.  The numpy and pandas code divides, and
    division by zero there does not raise but yields an infinity or a NaN
    that propagates; those computations are embedded over [num], the
    rationals extended with the IEEE special values.  The two places where
    rounding or the sign of a zero could matter are evaluated on IEEE
    doubles as well ([Binary64]).  Three identities that hold between
    exact values and not bit for bit are stated as such, with both sides
    evaluated on doubles ([Rounded]), and [normalize_data] carries the
    overflow of its subtractions.

    Containers.  [positions] and the market snapshot are Python dicts used
    as maps: [gmap string _].  [historical_data] is a dict whose first key
    matters, so it is an association list in insertion order; a dict has
    unique keys, which theorems that need it assume as [NoDup].  A pandas
    DataFrame of bars is the list of its rows, a datetime is an integer
    instant. *)

From Stdlib Require Import ZArith QArith Qminmax Qabs Lqa Lia.
From Stdlib Require Floats.
From stdpp Require Import gmap strings list fin_maps sorting.

Local Open Scope Q_scope.

(** ** Extended rationals: how numpy and pandas compute *)

Module Np.

Inductive num : Type :=
| Fin (q : Q)
| PInf
| NInf
| NaN.

Definition is_nan (x : num) : bool :=
  match x with NaN => true | _ => false end.

Definition fneg (x : num) : num :=
  match x with
  | Fin q => Fin (- q)
  | PInf => NInf
  | NInf => PInf
  | NaN => NaN
  end.

Definition fadd (x y : num) : num :=
  match x, y with
  | NaN, _ | _, NaN => NaN
  | Fin a, Fin b => Fin (a + b)
  | PInf, NInf | NInf, PInf => NaN
  | PInf, _ | _, PInf => PInf
  | NInf, _ | _, NInf => NInf
  end.

Definition fsub (x y : num) : num := fadd x (fneg y).

(** The infinity with the sign of [q], NaN for a zero [q]. *)
Definition signed_inf (q : Q) : num :=
  match q ?= 0 with
  | Gt => PInf
  | Lt => NInf
  | Eq => NaN
  end.

Definition fmul (x y : num) : num :=
  match x, y with
  | NaN, _ | _, NaN => NaN
  | Fin a, Fin b => Fin (a * b)
  | Fin a, PInf | PInf, Fin a => signed_inf a
  | Fin a, NInf | NInf, Fin a => signed_inf (- a)
  | PInf, PInf | NInf, NInf => PInf
  | PInf, NInf | NInf, PInf => NInf
  end.

(** Division as numpy does it on float64: a zero divisor gives an
    infinity of the sign of the dividend, and NaN for [0 / 0].  The sign
    of a zero is not tracked: a zero divisor counts as [+0]. *)
Definition fdiv (x y : num) : num :=
  match x, y with
  | NaN, _ | _, NaN => NaN
  | Fin a, Fin b =>
      match b ?= 0 with
      | Eq => signed_inf a
      | _ => Fin (a / b)
      end
  | Fin _, (PInf | NInf) => Fin 0
  | PInf, Fin b => match b ?= 0 with Lt => NInf | _ => PInf end
  | NInf, Fin b => match b ?= 0 with Lt => PInf | _ => NInf end
  | (PInf | NInf), (PInf | NInf) => NaN
  end.

(** Comparisons: every comparison with NaN is false. *)
Definition fle (x y : num) : bool :=
  match x, y with
  | NaN, _ | _, NaN => false
  | Fin a, Fin b => Qle_bool a b
  | NInf, _ | _, PInf => true
  | _, _ => false
  end.

Definition flt (x y : num) : bool :=
  match x, y with
  | NaN, _ | _, NaN => false
  | _, _ => negb (fle y x)
  end.

Definition feq (x y : num) : bool := fle x y && fle y x.

(** [np.array(xs)] of a list of finite Python floats. *)
Definition array (xs : list Q) : list num := map Fin xs.

(** [np.diff(a)]: [a[i+1] - a[i]], one element shorter than [a]. *)
Definition diff (a : list num) : list num :=
  zip_with (fun prev next => fsub next prev) a (tail a).

(** [a[:-1]]. *)
Definition init (a : list num) : list num := take (length a - 1) a.

(** [np.maximum(x, y)] propagates NaN. *)
Definition maximum (x y : num) : num :=
  match x, y with
  | NaN, _ | _, NaN => NaN
  | _, _ => if fle x y then y else x
  end.

Definition minimum (x y : num) : num :=
  match x, y with
  | NaN, _ | _, NaN => NaN
  | _, _ => if fle x y then x else y
  end.

(** [np.maximum.accumulate(a)]: the running maximum. *)
Fixpoint accumulate_from (m : num) (a : list num) : list num :=
  match a with
  | [] => []
  | x :: rest => let m' := maximum m x in m' :: accumulate_from m' rest
  end.

Definition maximum_accumulate (a : list num) : list num :=
  match a with
  | [] => []
  | x :: rest => x :: accumulate_from x rest
  end.

(** [np.min(a)]; it raises ValueError on an empty array ([None]). *)
Definition amin (a : list num) : option num :=
  match a with
  | [] => None
  | x :: rest => Some (foldl minimum x rest)
  end.

Definition asum (a : list num) : num := foldl fadd (Fin 0) a.

(** [np.mean(a)]: NaN for an empty array ([0 / 0]). *)
Definition mean (a : list num) : num :=
  fdiv (asum a) (Fin (inject_Z (Z.of_nat (length a)))).

End Np.

Import Np.

(** ** Data model *)

(** One OHLCV row of a DataFrame. *)
Record Bar : Type := mkBar {
  timestamp : Z;
  open : Q;
  high : Q;
  low : Q;
  close : Q;
  volume : Q
}.

Record Ticker : Type := mkTicker {
  tk_last : Q;
  tk_bid : Q;
  tk_ask : Q;
  tk_volume : Q
}.

(** What a snapshot holds for one symbol: [{"ticker": ..., "ohlcv": ...}]. *)
Record SnapshotEntry : Type := mkEntry {
  ticker : Ticker;
  ohlcv : list Bar
}.

(** The signal dict, with the keys the engine reads. *)
Record Signal : Type := mkSignal {
  action : string;
  symbol : string;
  amount : Q
}.

(** A trade dict holds the key ["cost"] for a buy and ["proceeds"] for a
    sell. *)
Inductive CashLeg : Type :=
| cost (q : Q)
| proceeds (q : Q).

Record Trade : Type := mkTrade {
  tr_timestamp : Z;
  tr_action : string;
  tr_symbol : string;
  tr_amount : Q;
  tr_price : Q;
  tr_cash : CashLeg
}.

(** The attributes of a [Backtester] object. *)
Record Backtester : Type := mkBacktester {
  initial_capital : Q;
  commission : Q;
  slippage : Q;
  capital : Q;
  positions : gmap string Q;
  trades : list Trade;
  equity_curve : list Q;
  timestamps : list Z
}.

Inductive pyerr : Type :=
| IndexError
| ValueError.

(** A method call on a backtester either returns a value or raises; in
    both cases the object is left in some state (an exception does not
    undo the attribute updates made before it). *)
Inductive outcome (A : Type) : Type :=
| Done (a : A) (bt : Backtester)
| Raised (e : pyerr) (bt : Backtester).

Arguments Done {A} a bt.
Arguments Raised {A} e bt.

Definition state_after {A : Type} (o : outcome A) : Backtester :=
  match o with
  | Done _ bt => bt
  | Raised _ bt => bt
  end.

Definition raised {A : Type} (o : outcome A) : bool :=
  match o with
  | Done _ _ => false
  | Raised _ _ => true
  end.

(** ** The backtester *)

Definition set_capital (c : Q) (bt : Backtester) : Backtester :=
  mkBacktester (initial_capital bt) (commission bt) (slippage bt)
    c (positions bt) (trades bt) (equity_curve bt) (timestamps bt).

Definition set_positions (p : gmap string Q) (bt : Backtester) : Backtester :=
  mkBacktester (initial_capital bt) (commission bt) (slippage bt)
    (capital bt) p (trades bt) (equity_curve bt) (timestamps bt).

Definition set_trades (t : list Trade) (bt : Backtester) : Backtester :=
  mkBacktester (initial_capital bt) (commission bt) (slippage bt)
    (capital bt) (positions bt) t (equity_curve bt) (timestamps bt).

Definition set_equity_curve (e : list Q) (bt : Backtester) : Backtester :=
  mkBacktester (initial_capital bt) (commission bt) (slippage bt)
    (capital bt) (positions bt) (trades bt) e (timestamps bt).

Definition set_timestamps (t : list Z) (bt : Backtester) : Backtester :=
  mkBacktester (initial_capital bt) (commission bt) (slippage bt)
    (capital bt) (positions bt) (trades bt) (equity_curve bt) t.

(** [Backtester.reset] *)
Definition reset (bt : Backtester) : Backtester :=
  mkBacktester (initial_capital bt) (commission bt) (slippage bt)
    (initial_capital bt) ∅ [] [initial_capital bt] [].

(** [Backtester.__init__] *)
Definition new (initial_capital commission slippage : Q) : Backtester :=
  reset (mkBacktester initial_capital commission slippage 0 ∅ [] [] []).

(** [df[df["timestamp"] <= timestamp]] *)
Definition up_to (ts : Z) (df : list Bar) : list Bar :=
  filter (fun b => (timestamp b <= ts)%Z) df.

(** [df[df["timestamp"] >= start_date]] *)
Definition since (ts : Z) (df : list Bar) : list Bar :=
  filter (fun b => (ts <= timestamp b)%Z) df.

(** The ticker built from the row [latest]. *)
Definition ticker_of (latest : Bar) : Ticker :=
  mkTicker (close latest) (low latest) (high latest) (volume latest).

(** The body of the loop of [_prepare_market_snapshot] for one item of
    [historical_data]. *)
Definition snapshot_step (ts : Z) (snapshot : gmap string SnapshotEntry)
    (item : string * list Bar) : gmap string SnapshotEntry :=
  let current_data := up_to ts item.2 in
  match last current_data with
  | Some latest =>
      <[item.1 := mkEntry (ticker_of latest) current_data]> snapshot
  | None => snapshot
  end.

(** [Backtester._prepare_market_snapshot]: the loop over
    [historical_data.items()], each symbol with data assigned into the
    dict [snapshot]. *)
Definition _prepare_market_snapshot
    (historical_data : list (string * list Bar)) (ts : Z)
    : gmap string SnapshotEntry :=
  foldl (snapshot_step ts) ∅ historical_data.

(** The prices and costs of a fill, named as the locals of
    [_execute_backtest_signal]. *)
Definition buy_execution_price (bt : Backtester) (price : Q) : Q :=
  price * (1 + slippage bt).

Definition buy_cost (bt : Backtester) (price amount : Q) : Q :=
  buy_execution_price bt price * amount.

Definition buy_commission_cost (bt : Backtester) (price amount : Q) : Q :=
  buy_cost bt price amount * commission bt.

Definition buy_total_cost (bt : Backtester) (price amount : Q) : Q :=
  buy_cost bt price amount + buy_commission_cost bt price amount.

Definition sell_execution_price (bt : Backtester) (price : Q) : Q :=
  price * (1 - slippage bt).

Definition sell_proceeds (bt : Backtester) (price amount : Q) : Q :=
  sell_execution_price bt price * amount.

Definition sell_commission_cost (bt : Backtester) (price amount : Q) : Q :=
  sell_proceeds bt price amount * commission bt.

Definition sell_net_proceeds (bt : Backtester) (price amount : Q) : Q :=
  sell_proceeds bt price amount - sell_commission_cost bt price amount.

(** [self.trades.append({"timestamp": self.timestamps[-1], ...})]:
    [self.timestamps[-1]] raises IndexError on an empty list, and the
    attributes updated before it stay updated. *)
Definition record_trade (bt : Backtester)
    (act sym : string) (amount price : Q) (leg : CashLeg) : outcome unit :=
  match last (timestamps bt) with
  | None => Raised IndexError bt
  | Some now =>
      Done tt
        (set_trades (trades bt ++ [mkTrade now act sym amount price leg]) bt)
  end.

(** [Backtester._execute_backtest_signal] *)
Definition _execute_backtest_signal
    (bt : Backtester) (signal : Signal)
    (market_data : gmap string SnapshotEntry) : outcome unit :=
  let sym := symbol signal in
  let amount := amount signal in
  match market_data !! sym with
  | None => Done tt bt
  | Some entry =>
      let price := tk_last (ticker entry) in
      if String.eqb (action signal) "buy" then
        let execution_price := buy_execution_price bt price in
        let total_cost := buy_total_cost bt price amount in
        if Qle_bool total_cost (capital bt) then
          let bt1 := set_capital (capital bt - total_cost) bt in
          let bt2 :=
            set_positions
              (<[sym := default 0 (positions bt1 !! sym) + amount]>
                 (positions bt1)) bt1 in
          record_trade bt2 "buy" sym amount execution_price (cost total_cost)
        else Done tt bt
      else if String.eqb (action signal) "sell" then
        let execution_price := sell_execution_price bt price in
        match positions bt !! sym with
        | Some held =>
            if Qle_bool amount held then
              let net_proceeds := sell_net_proceeds bt price amount in
              let bt1 := set_capital (capital bt + net_proceeds) bt in
              let bt2 :=
                set_positions (<[sym := held - amount]> (positions bt1)) bt1 in
              let bt3 :=
                if Qeq_bool (held - amount) 0
                then set_positions (delete sym (positions bt2)) bt2
                else bt2 in
              record_trade bt3 "sell" sym amount execution_price
                (proceeds net_proceeds)
            else Done tt bt
        | None => Done tt bt
        end
      else Done tt bt
  end.

(** [Backtester._calculate_portfolio_value]: the loop over
    [self.positions.items()], accumulating into [total_value]. *)
Definition _calculate_portfolio_value
    (bt : Backtester) (market_data : gmap string SnapshotEntry) : Q :=
  map_fold
    (fun sym amount total_value =>
       match market_data !! sym with
       | Some entry => total_value + tk_last (ticker entry) * amount
       | None => total_value
       end)
    (capital bt) (positions bt).

(** The dict returned by [_calculate_metrics]; ["equity_curve"],
    ["timestamps"] and ["trades"] are the backtester's own lists. *)
Record BacktestResult : Type := mkResult {
  r_initial_capital : Q;
  r_final_value : num;
  r_total_return : num;
  r_total_return_pct : num;
  r_num_trades : nat;
  r_volatility : num;
  r_sharpe_ratio : num;
  r_max_drawdown : num;
  r_max_drawdown_pct : num;
  r_equity_curve : list Q;
  r_timestamps : list Z;
  r_trades : list Trade
}.

(** The drawdown series of an equity array. *)
Definition drawdown_of (equity_array : list num) : list num :=
  let cumulative_max := maximum_accumulate equity_array in
  zip_with fdiv (zip_with fsub equity_array cumulative_max) cumulative_max.

(** [returns = np.diff(equity_array) / equity_array[:-1]] *)
Definition returns_of (equity_array : list num) : list num :=
  zip_with fdiv (diff equity_array) (init equity_array).

Section Metrics.

(** [np.std] and [np.sqrt] produce irrational values; they are numpy's,
    not this repository's, and stay abstract. *)
Variable np_std : list num -> num.
Variable np_sqrt : num -> num.

(** [Backtester._calculate_metrics] *)
Definition _calculate_metrics (bt : Backtester) : outcome BacktestResult :=
  let equity_array := array (equity_curve bt) in
  let returns := returns_of equity_array in
  match last equity_array with
  | None => Raised IndexError bt
  | Some final_value =>
      let total_return :=
        fdiv (fsub final_value (Fin (initial_capital bt)))
             (Fin (initial_capital bt)) in
      let volatility :=
        if (0 <? length returns)%nat
        then fmul (np_std returns) (np_sqrt (Fin 252))
        else Fin 0 in
      let sharpe_ratio :=
        if flt (Fin 0) volatility
        then fdiv (fmul (mean returns) (Fin 252)) volatility
        else Fin 0 in
      match amin (drawdown_of equity_array) with
      | None => Raised ValueError bt
      | Some max_drawdown =>
          Done
            (mkResult (initial_capital bt) final_value total_return
               (fmul total_return (Fin 100)) (length (trades bt))
               volatility sharpe_ratio max_drawdown
               (fmul max_drawdown (Fin 100))
               (equity_curve bt) (timestamps bt) (trades bt))
            bt
      end
  end.

(** A strategy object: its private state and [generate_signal], which
    returns the signal dict or [None].  It is a total function: a
    strategy that raises aborts [run] and is not modelled. *)
Context {St : Type}.
Variable generate_signal :
  St -> gmap string SnapshotEntry -> St * option Signal.

(** The body of the [for idx, row in df.iterrows()] loop of [run],
    iterated over the rows. *)
Fixpoint replay (historical_data : list (string * list Bar))
    (rows : list Bar) (bt : Backtester) (st : St) : outcome St :=
  match rows with
  | [] => Done st bt
  | row :: rest =>
      let now := timestamp row in
      let bt := set_timestamps (timestamps bt ++ [now]) bt in
      let market_snapshot := _prepare_market_snapshot historical_data now in
      let '(st', signal) := generate_signal st market_snapshot in
      let executed :=
        match signal with
        | Some sg => _execute_backtest_signal bt sg market_snapshot
        | None => Done tt bt
        end in
      match executed with
      | Raised e bt' => Raised e bt'
      | Done _ bt' =>
          let portfolio_value :=
            _calculate_portfolio_value bt' market_snapshot in
          replay historical_data rest
            (set_equity_curve (equity_curve bt' ++ [portfolio_value]) bt')
            st'
      end
  end.

(** The rows [run] iterates: the first symbol's frame, cut to the date
    range. *)
Definition clock (df : list Bar) (start_date end_date : option Z)
    : list Bar :=
  let df := match start_date with Some d => since d df | None => df end in
  match end_date with Some d => up_to d df | None => df end.

(** [Backtester.run].  [list(historical_data.keys())[0]] raises
    IndexError on an empty dict. *)
Definition run (bt : Backtester) (st : St)
    (historical_data : list (string * list Bar))
    (start_date end_date : option Z) : outcome BacktestResult :=
  let bt := reset bt in
  match historical_data with
  | [] => Raised IndexError bt
  | (primary_symbol, df) :: _ =>
      match replay historical_data (clock df start_date end_date) bt st with
      | Raised e bt' => Raised e bt'
      | Done _ bt' => _calculate_metrics bt'
      end
  end.

End Metrics.

(** ** The RSI indicator *)

Module Indicators.

(** [Series.diff()]: the first element has no predecessor and is NaN. *)
Definition series_diff (s : list num) : list num :=
  match s with
  | [] => []
  | _ :: _ => NaN :: diff s
  end.

(** [Series.where(cond, other)] keeps the elements on which [cond] is
    true and puts [other] elsewhere. *)
Definition where_ (cond : num -> bool) (other : num) (s : list num)
    : list num :=
  map (fun x => if cond x then x else other) s.

(** The window of [Series.rolling(window=w)] that ends at index [i]. *)
Definition window (w i : nat) (s : list num) : list num :=
  drop (i + 1 - w) (take (i + 1) s).

(** [Series.rolling(window=w).mean()]: NaN unless the window holds [w]
    observations (NaN entries are not observations), else their mean. *)
Definition rolling_mean (w : nat) (s : list num) : list num :=
  imap
    (fun i _ =>
       let obs := filter (fun x => is_nan x = false) (window w i s) in
       if (length obs <? w)%nat then NaN else mean obs)
    s.

Definition delta_of (data : list Q) : list num := series_diff (array data).

(** [gain] and [loss] of [calculate_rsi]. *)
Definition gain_of (data : list Q) (period : nat) : list num :=
  rolling_mean period
    (where_ (fun d => flt (Fin 0) d) (Fin 0) (delta_of data)).

Definition loss_of (data : list Q) (period : nat) : list num :=
  rolling_mean period
    (map fneg (where_ (fun d => flt d (Fin 0)) (Fin 0) (delta_of data))).

(** [100 - (100 / (1 + rs))] *)
Definition rsi_of_rs (rs : num) : num :=
  fsub (Fin 100) (fdiv (Fin 100) (fadd (Fin 1) rs)).

(** [calculate_rsi] *)
Definition calculate_rsi (data : list Q) (period : nat) : list num :=
  let gain := gain_of data period in
  let loss := loss_of data period in
  let rs := zip_with fdiv gain loss in
  map rsi_of_rs rs.

(** [calculate_sma]: [data.rolling(window=period).mean()] *)
Definition calculate_sma (data : list Q) (period : nat) : list num :=
  rolling_mean period (array data).

(** The smoothing factor of [ewm(span=...)]: [2 / (span + 1)]. *)
Definition ewm_alpha (span : nat) : Q :=
  2 / (inject_Z (Z.of_nat span) + 1).

(** [ewm(adjust=False).mean()] after the first element:
    [y_t = (1 - alpha) * y_{t-1} + alpha * x_t]. *)
Fixpoint ewm_from (alpha prev : Q) (xs : list Q) : list Q :=
  match xs with
  | [] => []
  | x :: rest =>
      let y := (1 - alpha) * prev + alpha * x in
      y :: ewm_from alpha y rest
  end.

(** [Series.ewm(span=span, adjust=False).mean()] on finite values: the
    first output is the first input. *)
Definition ewm_mean (span : nat) (data : list Q) : list Q :=
  match data with
  | [] => []
  | x :: rest => x :: ewm_from (ewm_alpha span) x rest
  end.

(** [calculate_ema]; pandas raises ValueError for a span below 1. *)
Definition calculate_ema (data : list Q) (period : nat) : pyerr + list Q :=
  if (period <? 1)%nat then inl ValueError else inr (ewm_mean period data).

(** [calculate_macd]: the tuple [(macd, signal, histogram)]. *)
Definition calculate_macd (data : list Q)
    (fast_period slow_period signal_period : nat)
    : pyerr + (list Q * list Q * list Q) :=
  match calculate_ema data fast_period with
  | inl e => inl e
  | inr fast_ema =>
      match calculate_ema data slow_period with
      | inl e => inl e
      | inr slow_ema =>
          let macd := zip_with Qminus fast_ema slow_ema in
          match calculate_ema macd signal_period with
          | inl e => inl e
          | inr signal =>
              let histogram := zip_with Qminus macd signal in
              inr (macd, signal, histogram)
          end
      end
  end.

(** Where binary64 overflows: a result of magnitude [2^1024 - 2^970] or
    more is rounded to an infinity. *)
Definition overflow_threshold : Q := inject_Z (2 ^ 1024 - 2 ^ 970).

(** [a - b] on two finite doubles, with its overflow; rounding within the
    range is not modelled. *)
Definition fsub_range (a b : Q) : num :=
  let d := a - b in
  if Qle_bool overflow_threshold d then PInf
  else if Qle_bool d (- overflow_threshold) then NInf
  else Fin d.

(** [normalize_data].  [data.min()] and [data.max()] of an empty series
    are NaN, which is not equal to itself, so an empty series takes the
    second branch and stays empty.  The two subtractions of the second
    branch can overflow. *)
Definition normalize_data (data : list Q) : list num :=
  match data with
  | [] => []
  | x :: rest =>
      let min_val := foldl (fun a b => if Qle_bool a b then a else b) x rest in
      let max_val := foldl (fun a b => if Qle_bool a b then b else a) x rest in
      if Qeq_bool max_val min_val
      then replicate (length data) (Fin 0.5)
      else map (fun v => fdiv (fsub_range v min_val)
                              (fsub_range max_val min_val)) data
  end.

(** [calculate_returns]: [prices.pct_change()], that is
    [prices / prices.shift(1) - 1]. *)
Definition calculate_returns (prices : list Q) : list num :=
  match prices with
  | [] => []
  | _ :: rest =>
      NaN :: zip_with (fun prev next => fsub (fdiv (Fin next) (Fin prev)) (Fin 1))
               prices rest
  end.

(** [abs] of a float. *)
Definition fabs (x : num) : num :=
  match x with
  | Fin q => Fin (Qabs q)
  | PInf | NInf => PInf
  | NaN => NaN
  end.

(** [a - b] on two Series indexed by position: pandas aligns the
    operands, so the result covers the longer of the two and is NaN where
    one of them has no value. *)
Definition series_sub (a b : list num) : list num :=
  map (fun i => fsub (default NaN (a !! i)) (default NaN (b !! i)))
    (seq 0 (Nat.max (length a) (length b))).

(** [Series.shift()]: every value moves one position down, the first
    position is NaN and the last value is dropped. *)
Definition shift (s : list num) : list num :=
  match s with
  | [] => []
  | _ :: _ => NaN :: init s
  end.

(** The maximum of two values that skips NaN, as [max] does by default on
    a frame. *)
Definition nanmax (x y : num) : num :=
  if is_nan x then y
  else if is_nan y then x
  else if fle x y then y else x.

(** [pd.concat([a, b, c], axis=1).max(axis=1)]: the rows are the
    positions of the longest series. *)
Definition row_max (a b c : list num) : list num :=
  map (fun i =>
         nanmax (nanmax (default NaN (a !! i)) (default NaN (b !! i)))
                (default NaN (c !! i)))
    (seq 0 (Nat.max (length a) (Nat.max (length b) (length c)))).

(** [calculate_atr] *)
Definition calculate_atr (high low close : list Q) (period : nat)
    : list num :=
  let high := array high in
  let low := array low in
  let close := array close in
  let tr1 := series_sub high low in
  let tr2 := map fabs (series_sub high (shift close)) in
  let tr3 := map fabs (series_sub low (shift close)) in
  let tr := row_max tr1 tr2 tr3 in
  rolling_mean period tr.

End Indicators.

(** ** Vocabulary of the properties *)

(** The attributes a fill never writes. *)
Definition same_frame (bt bt' : Backtester) : Prop :=
  initial_capital bt' = initial_capital bt /\
  commission bt' = commission bt /\
  slippage bt' = slippage bt /\
  equity_curve bt' = equity_curve bt /\
  timestamps bt' = timestamps bt.

(** Every symbol present in the map is held in a positive quantity. *)
Definition positions_ok (p : gmap string Q) : Prop :=
  map_Forall (fun _ q => 0 < q) p.

(** The quantity held of a symbol, zero when it has no entry. *)
Definition quantity (p : gmap string Q) (sym : string) : Q :=
  default 0 (p !! sym).

(** The value of each held position that the snapshot quotes: quantity
    times the symbol's last price, for the symbols present in both maps. *)
Definition quoted_values
    (p : gmap string Q) (market_data : gmap string SnapshotEntry)
    : gmap string Q :=
  map_zip_with (fun amount entry => tk_last (ticker entry) * amount)
    p market_data.

(** The sum of the values of a map. *)
Definition Qsum_map (m : gmap string Q) : Q :=
  map_fold (fun _ v acc => acc + v) 0 m.

(** A frame whose rows are in timestamp order, as the data source
    supplies them. *)
Definition chronological (df : list Bar) : Prop :=
  StronglySorted (fun a b => (timestamp a <= timestamp b)%Z) df.

(** A finite number equal to zero. *)
Definition is_zero (x : num) : Prop :=
  exists q, x = Fin q /\ q == 0.

(** Following the spec's words: [m] is runningMax(equity)[i], the largest
    of [equity[0..i]]. *)
Definition running_max (equity : list Q) (i : nat) (m : Q) : Prop :=
  (exists j, (j <= i)%nat /\ equity !! j = Some m) /\
  (forall j x, (j <= i)%nat -> equity !! j = Some x -> x <= m).

(** What [np.maximum], [np.maximum.accumulate], [np.minimum] and the
    drawdown series compute on finite values. *)
Definition qmax (a b : Q) : Q := if Qle_bool a b then b else a.
Definition qmin (a b : Q) : Q := if Qle_bool a b then a else b.

Fixpoint qaccumulate_from (m : Q) (a : list Q) : list Q :=
  match a with
  | [] => []
  | x :: rest => qmax m x :: qaccumulate_from (qmax m x) rest
  end.

Definition qdrawdown (x m : Q) : Q := (x - m) / m.

(** ** Concrete inputs *)

(** A backtester with the default settings on its first tick, and a
    snapshot quoting one symbol at 50000. *)
Definition example_backtester : Backtester :=
  set_timestamps [1%Z] (new 100000 0.001 0.0005).

Definition example_snapshot : gmap string SnapshotEntry :=
  {[ "BTC/USDT" :=
       mkEntry (mkTicker 50000 49000 51000 10)
         [mkBar 1 50000 51000 49000 50000 10] ]}.

(** The same backtester holding 0.1 units bought earlier. *)
Definition example_holder : Backtester :=
  set_positions {[ "BTC/USDT" := 0.1 ]}
    (set_capital 94992.4975 example_backtester).

Definition example_buy : Signal := mkSignal "buy" "BTC/USDT" 0.1.
Definition example_sell : Signal := mkSignal "sell" "BTC/USDT" 0.1.



(** A two-symbol dataset: the second symbol starts trading at instant 3. *)
Definition example_data : list (string * list Bar) :=
  [("BTC/USDT", [mkBar 1 10 12 9 11 100; mkBar 2 11 13 10 12 110;
                 mkBar 3 12 14 11 13 120]);
   ("ETH/USDT", [mkBar 3 5 6 4 5 50])].

(** A dataset of exactly one bar, closing at 50000. *)
Definition one_bar_data : list (string * list Bar) :=
  [("BTC/USDT", [mkBar 1 50000 51000 49000 50000 10])].

(** A strategy without state that never signals, and one that buys 0.1
    units of BTC/USDT at every tick. *)
Definition idle_strategy (st : unit) (snap : gmap string SnapshotEntry)
    : unit * option Signal := (st, None).

Definition eager_strategy (st : unit) (snap : gmap string SnapshotEntry)
    : unit * option Signal := (st, Some example_buy).

(** The curve of the spec's drawdown example. *)
Definition example_curve : list Q := [100000; 110000; 90000; 95000].

(** ** The same arithmetic on IEEE doubles

    The two computations whose outcome could depend on binary64 rounding
    or on the sign of a zero, written over Rocq's primitive floats so that
    they can be evaluated as Python evaluates them. *)

Module Binary64.

Import Floats.
Local Open Scope float_scope.

(** The buy branch of [_execute_backtest_signal]: execution price, cost,
    commission, total cost and the capital left. *)
Definition buy_fill (capital commission slippage price amount : float)
    : float * float * float * float * float :=
  let execution_price := price * (1 + slippage) in
  let cost := execution_price * amount in
  let commission_cost := cost * commission in
  let total_cost := cost + commission_cost in
  (execution_price, cost, commission_cost, total_cost, capital - total_cost).

(** [rs = gain / loss; rsi = 100 - (100 / (1 + rs))] at one position. *)
Definition rsi_at (gain loss : float) : float :=
  100 - 100 / (1 + gain / loss).

End Binary64.

(** ** Where rounding shows

    Three identities below hold between exact values.  These are the two
    sides of each on IEEE doubles, to be evaluated where they part. *)

Module Rounded.

Import Floats.
Local Open Scope float_scope.

(** A buy of a symbol by a backtester that holds nothing, and the value
    [_calculate_portfolio_value] gives on the same snapshot right after
    it: whether the buy is filled, the value before (the cash) and the
    value after (the cash left plus price times the new position). *)
Definition buy_and_value (capital commission slippage price amount : float)
    : bool * float * float :=
  let execution_price := price * (1 + slippage) in
  let cost := execution_price * amount in
  let commission_cost := cost * commission in
  let total_cost := cost + commission_cost in
  let position := 0 + amount in
  (total_cost <=? capital, capital, (capital - total_cost) + price * position).

(** [prices.pct_change()] at one position, and the return that
    [_calculate_metrics] computes from the same two points:
    [np.diff(equity_array) / equity_array[:-1]]. *)
Definition pct_change (prev next : float) : float := next / prev - 1.

Definition period_return (prev next : float) : float := (next - prev) / prev.

(** The recurrence of [ewm_mean] and the MACD line. *)
Fixpoint ewm_from (alpha prev : float) (xs : list float) : list float :=
  match xs with
  | [] => []
  | x :: rest =>
      let y := (1 - alpha) * prev + alpha * x in
      y :: ewm_from alpha y rest
  end.

Definition ewm_mean (span : float) (data : list float) : list float :=
  match data with
  | [] => []
  | x :: rest => x :: ewm_from (2 / (span + 1)) x rest
  end.

Definition macd_line (fast slow : float) (data : list float) : list float :=
  zip_with PrimFloat.sub (ewm_mean fast data) (ewm_mean slow data).

(** What the doubles give: a filled buy at rates of zero after which the
    value is above the cash it started from; a return of 10% computed in
    the two ways; the MACD line of a series and of the series 100
    higher. *)
#[warnings="-inexact-float"]
Definition buy_raises_value : Prop :=
  buy_and_value 30978.12 0 0 20060.67 0.545
  = (true, 30978.12, 30978.120000000003).

#[warnings="-inexact-float"]
Definition returns_differ : Prop :=
  pct_change 100000 110000 = 0.10000000000000009 /\
  period_return 100000 110000 = 0.1.

#[warnings="-inexact-float"]
Definition macd_lines_differ : Prop :=
  macd_line 2 3 [1; 3; 2] = [0; 0.3333333333333335; 0.11111111111111116] /\
  macd_line 2 3 [101; 103; 102]
  = [0; 0.3333333333333286; 0.11111111111111427].

End Rounded.

(** ** More of the backtester *)

(** [Backtester.get_results_dataframe]: a frame with the columns
    [timestamp] and [equity], the latter being [equity_curve[1:]]; the
    DataFrame constructor raises ValueError when the two columns differ in
    length. *)
Definition get_results_dataframe (bt : Backtester) : outcome (list (Z * Q)) :=
  let equity := drop 1 (equity_curve bt) in
  if (length (timestamps bt) =? length equity)%nat
  then Done (zip (timestamps bt) equity) bt
  else Raised ValueError bt.


(** [Backtester.run] with a strategy whose [generate_signal] may raise.
    The call is not inside a [try]: the exception leaves the loop and
    [run].  [None] stands for the strategy raising. *)
Inductive run_outcome (A : Type) : Type :=
| Returned (a : A) (bt : Backtester)
| Failed (e : pyerr) (bt : Backtester)
| StrategyRaised (bt : Backtester).

Arguments Returned {A} a bt.
Arguments Failed {A} e bt.
Arguments StrategyRaised {A} bt.

Section RaisingStrategy.

Variable np_std : list num -> num.
Variable np_sqrt : num -> num.
Context {St : Type}.
Variable generate_signal :
  St -> gmap string SnapshotEntry -> option (St * option Signal).

(** The loop of [run] over the rows. *)
Fixpoint replay_raising (historical_data : list (string * list Bar))
    (rows : list Bar) (bt : Backtester) (st : St) : run_outcome St :=
  match rows with
  | [] => Returned st bt
  | row :: rest =>
      let now := timestamp row in
      let bt := set_timestamps (timestamps bt ++ [now]) bt in
      let market_snapshot := _prepare_market_snapshot historical_data now in
      match generate_signal st market_snapshot with
      | None => StrategyRaised bt
      | Some (st', signal) =>
          let executed :=
            match signal with
            | Some sg => _execute_backtest_signal bt sg market_snapshot
            | None => Done tt bt
            end in
          match executed with
          | Raised e bt' => Failed e bt'
          | Done _ bt' =>
              let portfolio_value :=
                _calculate_portfolio_value bt' market_snapshot in
              replay_raising historical_data rest
                (set_equity_curve (equity_curve bt' ++ [portfolio_value]) bt')
                st'
          end
      end
  end.

Definition run_raising (bt : Backtester) (st : St)
    (historical_data : list (string * list Bar))
    (start_date end_date : option Z) : run_outcome BacktestResult :=
  let bt := reset bt in
  match historical_data with
  | [] => Failed IndexError bt
  | (primary_symbol, df) :: _ =>
      match replay_raising historical_data (clock df start_date end_date)
              bt st with
      | StrategyRaised bt' => StrategyRaised bt'
      | Failed e bt' => Failed e bt'
      | Returned _ bt' =>
          match _calculate_metrics np_std np_sqrt bt' with
          | Done results bt'' => Returned results bt''
          | Raised e bt'' => Failed e bt''
          end
      end
  end.

End RaisingStrategy.

(** A strategy that raises at every call, and the one that returns what a
    strategy that cannot raise returns. *)
Definition failing_strategy (st : unit) (snap : gmap string SnapshotEntry)
    : option (unit * option Signal) := None.

Definition returning {St : Type}
    (generate_signal : St -> gmap string SnapshotEntry -> St * option Signal)
    (st : St) (snap : gmap string SnapshotEntry)
    : option (St * option Signal) :=
  Some (generate_signal st snap).

(** A signal that is neither a buy nor a sell. *)
Definition example_hold : Signal := mkSignal "hold" "BTC/USDT" 0.1.

(** What a buy and a sell cost beyond the traded value, per unit of
    traded value: [(1+s)(1+c) - 1] and [1 - (1-s)(1-c)]. *)
Definition buy_friction (bt : Backtester) : Q :=
  (1 + slippage bt) * (1 + commission bt) - 1.

Definition sell_friction (bt : Backtester) : Q :=
  1 - (1 - slippage bt) * (1 - commission bt).


(** An equity curve that never falls: later points are at least earlier
    ones. *)
Definition never_falls (equity : list Q) : Prop :=
  forall i j x y,
    (i <= j)%nat -> equity !! i = Some x -> equity !! j = Some y -> x <= y.

(** Two backtesters built with the same settings. *)
Definition same_settings (bt bt' : Backtester) : Prop :=
  initial_capital bt' = initial_capital bt /\
  commission bt' = commission bt /\
  slippage bt' = slippage bt.


(** ** Vocabulary of the indicator properties *)

(** The sum of a list, accumulated from the left. *)
Definition Qsum (l : list Q) : Q := foldl Qplus 0 l.

(** The (at most) [w] values of a series that end at index [i]: the
    window of [rolling(window=w)] there. *)
Definition trailing (w i : nat) (data : list Q) : list Q :=
  drop (i + 1 - w) (take (i + 1) data).

(** Two series that agree value by value. *)
Definition same_values (a b : list Q) : Prop := Forall2 Qeq a b.

(** The price changes of a series, and the series that [calculate_rsi]
    averages: the rises and the falls, the first position counting as no
    change. *)
Definition changes (data : list Q) : list Q :=
  zip_with (fun prev next => next - prev) data (tail data).

Definition rises (data : list Q) : list Q :=
  match data with
  | [] => []
  | _ :: _ => 0 :: map (fun d => if negb (Qle_bool d 0) then d else 0)
                      (changes data)
  end.

Definition falls (data : list Q) : list Q :=
  match data with
  | [] => []
  | _ :: _ => - 0 :: map (fun d => - (if negb (Qle_bool 0 d) then d else 0))
                        (changes data)
  end.

(** A strictly rising series. *)
Definition strictly_rising (data : list Q) : Prop :=
  forall i x y, data !! i = Some x -> data !! S i = Some y -> x < y.

Definition strictly_falling (data : list Q) : Prop :=
  forall i x y, data !! i = Some x -> data !! S i = Some y -> y < x.


(** A flat series: consecutive values are equal. *)
Definition flat (data : list Q) : Prop :=
  forall i x y, data !! i = Some x -> data !! S i = Some y -> x == y.


(** Two series of which the first is the second raised by [k], value by
    value. *)
Definition shifted_by (k : Q) (a b : list Q) : Prop :=
  Forall2 (fun x y => x == y + k) a b.

(** A series whose values all equal [c]. *)
Definition all_equal_to (c : Q) (a : list Q) : Prop :=
  Forall (fun x => x == c) a.


(** The true range of each bar of three columns of one frame: the bar's
    range and, from the second bar on, the distances of its high and of
    its low from the previous close, whichever is largest. *)
Definition true_range (high low close : list Q) : list Q :=
  imap
    (fun i h =>
       let l := default 0 (low !! i) in
       match i with
       | O => h - l
       | S k =>
           let c := default 0 (close !! k) in
           qmax (qmax (h - l) (Qabs (h - c))) (Qabs (l - c))
       end)
    high.

(** Bars without a gap: from the second bar on, the previous close lies
    within the bar's range. *)
Definition gapless (high low close : list Q) : Prop :=
  forall k h l c,
    high !! S k = Some h -> low !! S k = Some l -> close !! k = Some c ->
    l <= c <= h.


(** ** The momentum strategy

    [MomentumStrategy] of [strategies/momentum.py], the strategy the
    examples hand to [Backtester.run].  The key ["reason"] of its signal
    dict, a formatted message that the backtester never reads, is left
    out. *)

Module Momentum.

Import Indicators.

(** What a [MomentumStrategy] keeps of its configuration: [symbols], set
    by [BaseStrategy.__init__], and the four parameters read in
    [__init__].  The RSI period is an int that is not negative. *)
Record MomentumStrategy : Type := mkMomentum {
  symbols : list string;
  rsi_period : nat;
  rsi_oversold : Q;
  rsi_overbought : Q;
  position_size : Q
}.

(** A row of the frame [_add_indicators] returns: the OHLCV row and the
    columns [rsi], [macd], [signal] and [histogram]. *)
Record IndicatorRow : Type := mkRow {
  col_bar : Bar;
  col_rsi : num;
  col_macd : Q;
  col_signal : Q;
  col_histogram : Q
}.

(** The four column assignments: each series has the length of the frame
    and goes in row by row. *)
Definition add_columns (df : list Bar) (rsi : list num)
    (macd signal histogram : list Q) : list IndicatorRow :=
  zip_with (fun b c => mkRow b c.1.1.1 c.1.1.2 c.1.2 c.2)
    df (zip (zip (zip rsi macd) signal) histogram).

(** [df.dropna()]: the rows without a NaN; only the RSI can be one. *)
Definition dropna (df : list IndicatorRow) : list IndicatorRow :=
  filter (fun r => is_nan (col_rsi r) = false) df.

(** [MomentumStrategy._add_indicators]; an exception gives [None]. *)
Definition _add_indicators (self : MomentumStrategy) (df : list Bar)
    : option (list IndicatorRow) :=
  let closes := map close df in
  let rsi := calculate_rsi closes (rsi_period self) in
  match calculate_macd closes 12 26 9 with
  | inl _ => None
  | inr (macd, signal, histogram) =>
      Some (dropna (add_columns df rsi macd signal histogram))
  end.

(** The two tests of [generate_signal] on the last two rows. *)
Definition buy_condition (self : MomentumStrategy)
    (latest previous : IndicatorRow) : bool :=
  flt (col_rsi latest) (Fin (rsi_oversold self))
  && negb (Qle_bool (col_macd latest) (col_signal latest))
  && Qle_bool (col_macd previous) (col_signal previous).

Definition sell_condition (self : MomentumStrategy)
    (latest previous : IndicatorRow) : bool :=
  flt (Fin (rsi_overbought self)) (col_rsi latest)
  && negb (Qle_bool (col_signal latest) (col_macd latest))
  && Qle_bool (col_signal previous) (col_macd previous).

(** The end of the loop body of [generate_signal], once the frame with
    the indicators is there: [None] where the source goes on to the next
    symbol. *)
Definition check_signals (self : MomentumStrategy) (symbol : string)
    (df : list IndicatorRow) : option Signal :=
  if (length df <? 2)%nat then None
  else
    match last df, df !! (length df - 2)%nat with
    | Some latest, Some previous =>
        if buy_condition self latest previous
        then Some (mkSignal "buy" symbol (position_size self))
        else if sell_condition self latest previous
        then Some (mkSignal "sell" symbol (position_size self))
        else None
    | _, _ => None
    end.

(** The body of the loop of [generate_signal] for a symbol that the
    snapshot quotes. *)
Definition signal_for (self : MomentumStrategy) (symbol : string)
    (ohlcv : list Bar) : option Signal :=
  if (length ohlcv <? 50)%nat then None
  else
    match _add_indicators self ohlcv with
    | None => None
    | Some df => check_signals self symbol df
    end.

(** The loop [for symbol in self.symbols]. *)
Fixpoint scan (self : MomentumStrategy)
    (market_data : gmap string SnapshotEntry) (syms : list string)
    : option Signal :=
  match syms with
  | [] => None
  | symbol :: rest =>
      match market_data !! symbol with
      | None => scan self market_data rest
      | Some entry =>
          match signal_for self symbol (ohlcv entry) with
          | Some sg => Some sg
          | None => scan self market_data rest
          end
      end
  end.

(** [MomentumStrategy.generate_signal] *)
Definition generate_signal (self : MomentumStrategy)
    (market_data : gmap string SnapshotEntry) : option Signal :=
  scan self market_data (symbols self).

(** The strategy as [Backtester.run] calls it: the object is not changed
    by a call. *)
Definition strategy (self : MomentumStrategy)
    (market_data : gmap string SnapshotEntry)
    : MomentumStrategy * option Signal :=
  (self, generate_signal self market_data).

End Momentum.

(** A frame whose rows close at the given prices, one row per instant. *)
Definition bars_of (closes : list Q) : list Bar :=
  imap (fun i c => mkBar (Z.of_nat i) c c c c 1) closes.

(** Fifty closes of a fall that slows down: ten a bar for 47 bars, then
    one a bar. *)
Definition falling_closes : list Q :=
  map (fun i => 1000 - 10 * inject_Z (Z.of_nat i)) (seq 0 48) ++ [529; 528].

Definition falling_snapshot : gmap string SnapshotEntry :=
  {[ "BTC/USDT" :=
       mkEntry (mkTicker 528 528 528 1) (bars_of falling_closes) ]}.

(** Fifty bars that all close at 100. *)
Definition flat_snapshot : gmap string SnapshotEntry :=
  {[ "BTC/USDT" :=
       mkEntry (mkTicker 100 100 100 1) (bars_of (replicate 50 100)) ]}.

(** The strategy of the examples: RSI over 14 bars, thresholds 30 and 70,
    0.1 units a trade. *)
Definition example_momentum : Momentum.MomentumStrategy :=
  Momentum.mkMomentum ["BTC/USDT"] 14 30 70 0.1.

(** The recurrence of [ewm_mean] and the three series of [calculate_macd]
    with every value brought to lowest terms: the same numbers, written
    with numerators and denominators that stay small over fifty bars. *)
Fixpoint reduced_ewm_from (alpha prev : Q) (xs : list Q) : list Q :=
  match xs with
  | [] => []
  | x :: rest =>
      let y := Qred ((1 - alpha) * prev + alpha * x) in
      y :: reduced_ewm_from alpha y rest
  end.

Definition reduced_ewm_mean (span : nat) (data : list Q) : list Q :=
  match data with
  | [] => []
  | x :: rest => x :: reduced_ewm_from (Indicators.ewm_alpha span) x rest
  end.

Definition reduced_minus (a b : list Q) : list Q :=
  zip_with (fun x y => Qred (x - y)) a b.

Definition reduced_macd (data : list Q) (fast slow sig : nat)
    : list Q * list Q * list Q :=
  let macd :=
    reduced_minus (reduced_ewm_mean fast data) (reduced_ewm_mean slow data) in
  let signal := reduced_ewm_mean sig macd in
  (macd, signal, reduced_minus macd signal).

(** Two indicator rows that [generate_signal] cannot tell apart: the same
    RSI, and MACD and signal values that are equal as numbers. *)
Definition same_row (r r' : Momentum.IndicatorRow) : Prop :=
  Momentum.col_rsi r = Momentum.col_rsi r' /\
  Momentum.col_macd r == Momentum.col_macd r' /\
  Momentum.col_signal r == Momentum.col_signal r'.



(** * Properties *)

(** ** What a signal leaves alone *)

Ltac exec_cases :=
  unfold _execute_backtest_signal, record_trade;
  repeat case_match; simpl in *.

Lemma record_trade_frame bt act sym amt price leg :
  same_frame bt (state_after (record_trade bt act sym amt price leg)).
Proof. unfold record_trade, same_frame. case_match; simpl; auto. Qed.

Lemma execute_frame bt sg snap :
  same_frame bt (state_after (_execute_backtest_signal bt sg snap)).
Proof. unfold same_frame. exec_cases; auto. Qed.

Lemma record_trade_returns bt act sym amt price leg :
  timestamps bt <> [] ->
  raised (record_trade bt act sym amt price leg) = false.
Proof.
  intros Hne. unfold record_trade.
  destruct (last (timestamps bt)) eqn:Hlast; [reflexivity|].
  apply last_None in Hlast. contradiction.
Qed.

(** Inside [run] a timestamp has been appended before any signal is
    executed, so the trade record is always built. *)
Lemma execute_returns bt sg snap :
  timestamps bt <> [] ->
  raised (_execute_backtest_signal bt sg snap) = false.
Proof.
  intros Hne. unfold _execute_backtest_signal.
  repeat case_match; try reflexivity; apply record_trade_returns; simpl; auto.
Qed.

Lemma Qle_bool_false (a b : Q) : Qle_bool a b = false <-> b < a.
Proof.
  split; intros H.
  - apply Qnot_le_lt. intros Hle. apply Qle_bool_iff in Hle. congruence.
  - destruct (Qle_bool a b) eqn:E; [|reflexivity].
    apply Qle_bool_iff in E. apply Qlt_not_le in H. contradiction.
Qed.

(** ** C5: a sell that cannot be covered is dropped *)

(** C5.  A sell signal for a symbol that is not held, or that is held in
    a quantity smaller than the signal's amount, returns normally and
    leaves the backtester exactly as it was: cash, positions and the trade
    log are unchanged and no trade is appended. *)
Theorem sell_without_cover_is_dropped
    (bt : Backtester) (sg : Signal) (snap : gmap string SnapshotEntry) :
  action sg = "sell" ->
  (positions bt !! symbol sg = None \/
   exists held, positions bt !! symbol sg = Some held /\ held < amount sg) ->
  _execute_backtest_signal bt sg snap = Done tt bt /\
  capital (state_after (_execute_backtest_signal bt sg snap)) = capital bt /\
  positions (state_after (_execute_backtest_signal bt sg snap)) = positions bt /\
  trades (state_after (_execute_backtest_signal bt sg snap)) = trades bt.
Proof.
  intros Hact Hcover.
  assert (Hdrop : _execute_backtest_signal bt sg snap = Done tt bt).
  { unfold _execute_backtest_signal. rewrite Hact. simpl.
    destruct (snap !! symbol sg) as [entry|]; [|reflexivity].
    destruct Hcover as [Hnone | (held & Hheld & Hlt)].
    - rewrite Hnone. reflexivity.
    - rewrite Hheld. apply Qle_bool_false in Hlt. rewrite Hlt. reflexivity. }
  rewrite Hdrop. simpl. auto.
Qed.

Lemma sell_without_cover_is_dropped_witness :
  action example_sell = "sell" /\
  _execute_backtest_signal example_backtester example_sell example_snapshot
  = Done tt example_backtester.
Proof.
  split; [reflexivity|].
  apply (sell_without_cover_is_dropped
           example_backtester example_sell example_snapshot).
  - reflexivity.
  - left. reflexivity.
Defined.

(** ** C2: cash never goes negative *)

Lemma sell_net_proceeds_factored bt price amt :
  sell_net_proceeds bt price amt
  == price * (1 - slippage bt) * amt * (1 - commission bt).
Proof.
  unfold sell_net_proceeds, sell_commission_cost, sell_proceeds,
    sell_execution_price. ring.
Qed.

Lemma sell_net_proceeds_nonneg bt price amt :
  0 <= price -> 0 <= amt -> slippage bt <= 1 -> commission bt <= 1 ->
  0 <= sell_net_proceeds bt price amt.
Proof.
  intros Hp Ha Hs Hc. rewrite sell_net_proceeds_factored.
  repeat apply Qmult_le_0_compat; lra.
Qed.





(** ** C4: held quantities are positive *)

Lemma positions_ok_empty : positions_ok ∅.
Proof. apply map_Forall_empty. Qed.

Lemma positions_ok_buy (p : gmap string Q) sym amt :
  0 < amt -> positions_ok p ->
  positions_ok (<[sym := default 0 (p !! sym) + amt]> p).
Proof.
  intros Hamt Hok. apply map_Forall_insert_2; [|exact Hok].
  destruct (p !! sym) as [q|] eqn:Hq; simpl.
  - pose proof (Hok sym q Hq) as Hpos. simpl in Hpos. lra.
  - lra.
Qed.

Lemma positions_ok_sell (p : gmap string Q) sym held amt :
  amt <= held -> positions_ok p ->
  positions_ok
    (if Qeq_bool (held - amt) 0
     then delete sym (<[sym := held - amt]> p)
     else <[sym := held - amt]> p).
Proof.
  intros Hle Hok.
  destruct (Qeq_bool (held - amt) 0) eqn:Hz.
  - rewrite delete_insert_eq. apply map_Forall_delete. exact Hok.
  - apply map_Forall_insert_2; [|exact Hok].
    apply Qeq_bool_neq in Hz.
    destruct (Qle_lt_or_eq amt held Hle) as [Hlt | Heq].
    + lra.
    + exfalso. apply Hz. lra.
Qed.

(** The positions after a signal, case by case. *)
Lemma execute_positions bt sg snap :
  let bt' := state_after (_execute_backtest_signal bt sg snap) in
  bt' = bt \/
  (action sg = "buy" /\
   positions bt' =
     <[symbol sg := default 0 (positions bt !! symbol sg) + amount sg]>
       (positions bt)) \/
  (exists held,
     action sg = "sell" /\
     positions bt !! symbol sg = Some held /\ amount sg <= held /\
     positions bt' =
       if Qeq_bool (held - amount sg) 0
       then delete (symbol sg) (<[symbol sg := held - amount sg]> (positions bt))
       else <[symbol sg := held - amount sg]> (positions bt)).
Proof.
  unfold _execute_backtest_signal.
  destruct (snap !! symbol sg) as [entry|] eqn:Hsnap; [|left; reflexivity].
  destruct (String.eqb (action sg) "buy") eqn:Hbuy.
  - apply String.eqb_eq in Hbuy.
    destruct (Qle_bool _ (capital bt)) eqn:Hle; [|left; reflexivity].
    right; left. split; [exact Hbuy|].
    unfold record_trade. case_match; reflexivity.
  - destruct (String.eqb (action sg) "sell") eqn:Hsell; [|left; reflexivity].
    apply String.eqb_eq in Hsell.
    destruct (positions bt !! symbol sg) as [held|] eqn:Hheld;
      [|left; reflexivity].
    destruct (Qle_bool (amount sg) held) eqn:Hle; [|left; reflexivity].
    apply Qle_bool_iff in Hle.
    right; right. exists held. repeat split; auto.
    unfold record_trade.
    destruct (Qeq_bool (held - amount sg) 0); case_match; reflexivity.
Qed.

(** C4.  The positions map holds only quantities > 0 after construction,
    after [reset], and after every signal with amount > 0 executed from a
    state where it did; a sell leaves the held quantity of its symbol at
    the old one minus the amount, never below zero, or leaves the map as
    it was; and when a sell is filled for the whole held quantity the
    entry is gone from the map. *)
Theorem positions_stay_positive
    (bt : Backtester) (sg : Signal) (snap : gmap string SnapshotEntry) :
  0 < amount sg ->
  positions_ok (positions bt) ->
  let bt' := state_after (_execute_backtest_signal bt sg snap) in
  (forall ic c s, positions_ok (positions (new ic c s))) /\
  positions_ok (positions (reset bt)) /\
  positions_ok (positions bt') /\
  (action sg = "sell" ->
     0 <= quantity (positions bt') (symbol sg) /\
     (positions bt' = positions bt \/
      quantity (positions bt') (symbol sg)
      == quantity (positions bt) (symbol sg) - amount sg)) /\
  (action sg = "sell" ->
     forall held, is_Some (snap !! symbol sg) ->
       positions bt !! symbol sg = Some held -> held == amount sg ->
       positions bt' !! symbol sg = None).
Proof.
  intros Hamt Hok bt'.
  assert (Hok' : positions_ok (positions bt')).
  { destruct (execute_positions bt sg snap)
      as [Hsame | [(_ & Hpos) | (held & _ & _ & Hle & Hpos)]];
      subst bt'.
    - rewrite Hsame. exact Hok.
    - rewrite Hpos. apply positions_ok_buy; assumption.
    - rewrite Hpos. apply positions_ok_sell; assumption. }
  split; [intros; apply positions_ok_empty|].
  split; [apply positions_ok_empty|].
  split; [exact Hok'|].
  split.
  - intros Hsell. split.
    + unfold quantity.
      destruct (positions bt' !! symbol sg) as [q|] eqn:Hq; simpl; [|lra].
      pose proof (Hok' _ _ Hq) as Hpos. simpl in Hpos. lra.
    + destruct (execute_positions bt sg snap)
        as [Hsame | [(Hbuy & _) | (held & _ & Hheld & Hle & Hpos)]].
      * left. subst bt'. rewrite Hsame. reflexivity.
      * congruence.
      * right. subst bt'. unfold quantity. rewrite Hpos, Hheld. simpl.
        destruct (Qeq_bool (held - amount sg) 0) eqn:Hz.
        -- rewrite lookup_delete_eq. simpl.
           apply Qeq_bool_eq in Hz. lra.
        -- rewrite lookup_insert_eq. simpl. reflexivity.
  - intros Hsell held [entry Hsnap] Hheld Heq.
    subst bt'. unfold _execute_backtest_signal.
    rewrite Hsnap, Hsell, Hheld. simpl.
    assert (Hle : Qle_bool (amount sg) held = true)
      by (apply Qle_bool_iff; lra).
    assert (Hz : Qeq_bool (held - amount sg) 0 = true)
      by (apply Qeq_bool_iff; lra).
    rewrite Hle, Hz. unfold record_trade.
    case_match; simpl; apply lookup_delete_eq.
Qed.

Lemma positions_stay_positive_witness :
  0 < amount example_buy /\
  positions_ok (positions example_backtester) /\
  positions_ok
    (positions (state_after (_execute_backtest_signal
                               example_backtester example_buy example_snapshot))).
Proof.
  assert (Hamt : 0 < amount example_buy) by reflexivity.
  assert (Hok : positions_ok (positions example_backtester))
    by apply positions_ok_empty.
  split; [exact Hamt|]. split; [exact Hok|].
  apply (positions_stay_positive
           example_backtester example_buy example_snapshot Hamt Hok).
Defined.

(** ** C3: the worked buy *)

(** C3.  With capital 100000, commission rate 0.001 and slippage rate
    0.0005, a buy of 0.1 units of a symbol not yet held, quoted at 50000,
    has execution price 50025, cost 5002.5, commission 5.0025 and total
    cost 5007.5025; it is filled, leaves cash 94992.4975 and a position of
    exactly 0.1 in the symbol, and is logged at the execution price. *)
Theorem buy_example
    (bt : Backtester) (snap : gmap string SnapshotEntry)
    (sym : string) (entry : SnapshotEntry) (now : Z) :
  capital bt == 100000 ->
  commission bt == 0.001 ->
  slippage bt == 0.0005 ->
  positions bt !! sym = None ->
  last (timestamps bt) = Some now ->
  snap !! sym = Some entry ->
  tk_last (ticker entry) == 50000 ->
  let price := tk_last (ticker entry) in
  buy_execution_price bt price == 50025 /\
  buy_cost bt price 0.1 == 5002.5 /\
  buy_commission_cost bt price 0.1 == 5.0025 /\
  buy_total_cost bt price 0.1 == 5007.5025 /\
  exists bt',
    _execute_backtest_signal bt (mkSignal "buy" sym 0.1) snap = Done tt bt' /\
    capital bt' == 94992.4975 /\
    positions bt' = <[sym := 0.1]> (positions bt) /\
    trades bt' =
      trades bt ++
      [mkTrade now "buy" sym 0.1 (buy_execution_price bt price)
         (cost (buy_total_cost bt price 0.1))].
Proof.
  intros Hcap Hcomm Hslip Hpos Hnow Hsnap Hprice price.
  assert (Hexec : buy_execution_price bt price == 50025).
  { unfold buy_execution_price. subst price. rewrite Hprice, Hslip.
    reflexivity. }
  assert (Hcost : buy_cost bt price 0.1 == 5002.5).
  { unfold buy_cost. rewrite Hexec. reflexivity. }
  assert (Hfee : buy_commission_cost bt price 0.1 == 5.0025).
  { unfold buy_commission_cost. rewrite Hcost, Hcomm. reflexivity. }
  assert (Htotal : buy_total_cost bt price 0.1 == 5007.5025).
  { unfold buy_total_cost. rewrite Hcost, Hfee. reflexivity. }
  repeat (split; [assumption|]).
  unfold _execute_backtest_signal. simpl. rewrite Hsnap.
  fold price.
  assert (Hle : Qle_bool (buy_total_cost bt price 0.1) (capital bt) = true).
  { apply Qle_bool_iff. rewrite Htotal, Hcap. discriminate. }
  rewrite Hle. unfold record_trade. simpl. rewrite Hnow, Hpos.
  eexists. split; [reflexivity|]. simpl.
  split; [rewrite Htotal, Hcap; reflexivity|].
  split; reflexivity.
Qed.

Lemma buy_example_witness :
  capital example_backtester == 100000 /\
  exists bt',
    _execute_backtest_signal example_backtester example_buy example_snapshot
    = Done tt bt' /\
    capital bt' == 94992.4975 /\
    positions bt' !! "BTC/USDT" = Some 0.1.
Proof.
  split; [reflexivity|].
  destruct (buy_example example_backtester example_snapshot "BTC/USDT"
              (mkEntry (mkTicker 50000 49000 51000 10)
                 [mkBar 1 50000 51000 49000 50000 10]) 1%Z)
    as (_ & _ & _ & _ & bt' & Hrun & Hcash & Hpos & _);
    try reflexivity.
  exists bt'. split; [exact Hrun|]. split; [exact Hcash|].
  rewrite Hpos. apply lookup_insert_eq.
Defined.

(** ** C10: the portfolio value *)

Lemma Qsum_map_insert (m : gmap string Q) i v :
  m !! i = None -> Qsum_map (<[i := v]> m) == Qsum_map m + v.
Proof.
  intros Hi. unfold Qsum_map.
  apply (map_fold_insert Qeq (fun _ v acc => acc + v)); [| |exact Hi].
  - intros _ z a b Hab. rewrite Hab. reflexivity.
  - intros. ring.
Qed.

Lemma quoted_values_insert_quoted p snap i amt entry :
  snap !! i = Some entry ->
  quoted_values (<[i := amt]> p) snap
  = <[i := tk_last (ticker entry) * amt]> (quoted_values p snap).
Proof.
  intros Hq. apply map_eq. intros j. unfold quoted_values.
  destruct (decide (i = j)) as [->|Hne].
  - rewrite lookup_insert_eq, map_lookup_zip_with, lookup_insert_eq, Hq.
    reflexivity.
  - rewrite lookup_insert_ne by exact Hne.
    rewrite !map_lookup_zip_with, lookup_insert_ne by exact Hne.
    reflexivity.
Qed.

Lemma quoted_values_absent p snap i :
  snap !! i = None -> quoted_values p snap !! i = None.
Proof.
  intros Hq. unfold quoted_values. rewrite map_lookup_zip_with, Hq.
  destruct (p !! i); reflexivity.
Qed.

Lemma quoted_values_insert_unquoted p snap i amt :
  snap !! i = None ->
  quoted_values (<[i := amt]> p) snap = quoted_values p snap.
Proof.
  intros Hq. apply map_eq. intros j. unfold quoted_values.
  rewrite !map_lookup_zip_with.
  destruct (decide (i = j)) as [->|Hne].
  - rewrite Hq, lookup_insert_eq. destruct (p !! j); reflexivity.
  - rewrite lookup_insert_ne by exact Hne. reflexivity.
Qed.

Lemma portfolio_value_sum (p : gmap string Q) snap c :
  map_fold
    (fun sym amount total_value =>
       match snap !! sym with
       | Some entry => total_value + tk_last (ticker entry) * amount
       | None => total_value
       end) c p
  == c + Qsum_map (quoted_values p snap).
Proof.
  induction p as [|i amt p Hi IH] using map_ind.
  - rewrite map_fold_empty. unfold quoted_values, Qsum_map.
    assert (Hempty : map_zip_with
                       (fun amount entry => tk_last (ticker entry) * amount)
                       (∅ : gmap string Q) snap = ∅).
    { apply map_eq. intros j.
      rewrite map_lookup_zip_with, !lookup_empty. reflexivity. }
    rewrite Hempty, map_fold_empty. ring.
  - rewrite (map_fold_insert Qeq _ c i amt p); [| | |exact Hi].
    + destruct (snap !! i) as [entry|] eqn:Hq.
      * rewrite (quoted_values_insert_quoted p snap i amt entry Hq).
        rewrite Qsum_map_insert.
        -- rewrite IH. ring.
        -- unfold quoted_values. rewrite map_lookup_zip_with, Hi.
           reflexivity.
      * rewrite (quoted_values_insert_unquoted p snap i amt Hq). exact IH.
    + intros j z a b Hab. destruct (snap !! j); rewrite Hab; reflexivity.
    + intros j1 j2 z1 z2 y _ _ _.
      destruct (snap !! j1), (snap !! j2); ring.
Qed.

(** C10.  The portfolio value is the cash plus the sum, over the held
    positions whose symbol the snapshot quotes, of quantity times that
    symbol's last price; a position whose symbol the snapshot does not
    quote adds nothing: the value is the one computed without it. *)
Theorem portfolio_value_is_cash_plus_quoted_positions
    (bt : Backtester) (snap : gmap string SnapshotEntry) :
  _calculate_portfolio_value bt snap
  == capital bt + Qsum_map (quoted_values (positions bt) snap) /\
  (forall sym amt,
     quoted_values (positions bt) snap !! sym = Some amt <->
     exists held entry,
       positions bt !! sym = Some held /\ snap !! sym = Some entry /\
       amt = tk_last (ticker entry) * held) /\
  (forall sym,
     snap !! sym = None ->
     _calculate_portfolio_value bt snap
     == _calculate_portfolio_value
          (set_positions (delete sym (positions bt)) bt) snap).
Proof.
  split; [apply portfolio_value_sum|]. split.
  - intros sym amt. unfold quoted_values. rewrite map_lookup_zip_with.
    destruct (positions bt !! sym) as [held|], (snap !! sym) as [entry|];
      simpl; split.
    + intros [= <-]. eauto.
    + intros (h & e & [= <-] & [= <-] & ->). reflexivity.
    + discriminate.
    + intros (h & e & _ & [=] & _).
    + discriminate.
    + intros (h & e & [=] & _).
    + discriminate.
    + intros (h & e & [=] & _).
  - intros sym Hq. unfold _calculate_portfolio_value. simpl.
    rewrite !portfolio_value_sum.
    assert (Hsame : quoted_values (delete sym (positions bt)) snap
                    = quoted_values (positions bt) snap).
    { apply map_eq. intros j. unfold quoted_values.
      rewrite !map_lookup_zip_with.
      destruct (decide (sym = j)) as [->|Hne].
      - rewrite Hq, lookup_delete_eq. destruct (positions bt !! j); reflexivity.
      - rewrite lookup_delete_ne by exact Hne. reflexivity. }
    rewrite Hsame. reflexivity.
Qed.

(** The unit test of the portfolio value: 50000 in cash and one unit
    quoted at 50000. *)
Example portfolio_value_unit_test :
  _calculate_portfolio_value
    (set_positions {[ "BTC/USDT" := 1 ]}
       (set_capital 50000 (new 100000 0.001 0.0005)))
    example_snapshot
  == 100000.
Proof. reflexivity. Qed.

(** ** C6: the snapshot shows nothing past the cursor *)

Lemma snapshot_fold_other ts sym (hd : list (string * list Bar)) acc :
  sym ∉ hd.*1 -> foldl (snapshot_step ts) acc hd !! sym = acc !! sym.
Proof.
  revert acc. induction hd as [|[s df] hd IH]; intros acc Hnot; [reflexivity|].
  simpl in *. apply not_elem_of_cons in Hnot as [Hne Hnot].
  rewrite IH by exact Hnot. unfold snapshot_step. simpl.
  destruct (last (up_to ts df)); [|reflexivity].
  apply lookup_insert_ne. congruence.
Qed.

Lemma snapshot_fold_item ts sym df (hd : list (string * list Bar)) acc :
  NoDup hd.*1 -> (sym, df) ∈ hd ->
  foldl (snapshot_step ts) acc hd !! sym =
  match last (up_to ts df) with
  | Some latest => Some (mkEntry (ticker_of latest) (up_to ts df))
  | None => acc !! sym
  end.
Proof.
  revert acc. induction hd as [|[s df0] hd IH]; intros acc Hnd Hin.
  - apply elem_of_nil in Hin. contradiction.
  - simpl in *. apply NoDup_cons in Hnd as [Hfresh Hnd].
    apply elem_of_cons in Hin as [Heq | Hin].
    + injection Heq as <- <-.
      rewrite snapshot_fold_other by exact Hfresh.
      unfold snapshot_step. simpl.
      destruct (last (up_to ts df)); [apply lookup_insert_eq | reflexivity].
    + rewrite (IH _ Hnd Hin).
      destruct (last (up_to ts df)); [reflexivity|].
      unfold snapshot_step. simpl.
      destruct (last (up_to ts df0)); [|reflexivity].
      apply lookup_insert_ne. intros ->. apply Hfresh.
      change sym with ((sym, df).1). apply list_elem_of_fmap_2. exact Hin.
Qed.

(** The snapshot quotes symbols of the dataset only. *)
Lemma snapshot_only_dataset_symbols (hd : list (string * list Bar)) ts sym :
  sym ∉ hd.*1 -> _prepare_market_snapshot hd ts !! sym = None.
Proof.
  intros Hnot. unfold _prepare_market_snapshot.
  rewrite snapshot_fold_other by exact Hnot. apply lookup_empty.
Qed.

Lemma chronological_filter (P : Bar -> Prop) `{!forall b, Decision (P b)} df :
  chronological df -> chronological (filter P df).
Proof.
  unfold chronological. induction 1 as [|a l Hs IH Hall]; [constructor|].
  rewrite filter_cons. destruct (decide (P a)); [|exact IH].
  constructor; [exact IH|].
  apply Forall_forall. intros b Hb. apply list_elem_of_filter in Hb as [_ Hb].
  rewrite Forall_forall in Hall. auto.
Qed.

Lemma chronological_last df latest :
  chronological df -> last df = Some latest ->
  forall b, b ∈ df -> (timestamp b <= timestamp latest)%Z.
Proof.
  unfold chronological. induction 1 as [|a l Hs IH Hall]; intros Hlast b Hb.
  - discriminate.
  - destruct l as [|a' l'].
    + injection Hlast as <-. apply list_elem_of_singleton in Hb as ->. lia.
    + change (last (a' :: l') = Some latest) in Hlast.
      apply elem_of_cons in Hb as [-> | Hb]; [|auto].
      rewrite Forall_forall in Hall. apply Hall.
      apply last_Some_elem_of. exact Hlast.
Qed.

(** C6.  For a dataset (a dict: its symbols are distinct) and a cursor,
    the snapshot's entry for a symbol of the dataset holds exactly the
    symbol's bars with timestamp at or before the cursor, in order, so no
    bar after the cursor; its ticker is read off the last of these bars
    (last=close, bid=low, ask=high, volume=volume), which is the most
    recent one when the frame is in timestamp order; and the symbol has
    no entry exactly when none of its bars is at or before the cursor. *)
Theorem snapshot_has_no_lookahead
    (historical_data : list (string * list Bar)) (ts : Z)
    (sym : string) (df : list Bar) :
  NoDup historical_data.*1 ->
  (sym, df) ∈ historical_data ->
  let snapshot := _prepare_market_snapshot historical_data ts in
  match snapshot !! sym with
  | Some entry =>
      ohlcv entry = filter (fun b => (timestamp b <= ts)%Z) df /\
      Forall (fun b => (timestamp b <= ts)%Z) (ohlcv entry) /\
      exists latest,
        last (ohlcv entry) = Some latest /\
        latest ∈ df /\ (timestamp latest <= ts)%Z /\
        ticker entry
        = mkTicker (close latest) (low latest) (high latest) (volume latest) /\
        (chronological df ->
         forall b, b ∈ df -> (timestamp b <= ts)%Z ->
                   (timestamp b <= timestamp latest)%Z)
  | None => True
  end /\
  (snapshot !! sym = None <-> Forall (fun b => (ts < timestamp b)%Z) df).
Proof.
  intros Hnd Hin snapshot. subst snapshot. unfold _prepare_market_snapshot.
  rewrite (snapshot_fold_item ts sym df historical_data ∅ Hnd Hin).
  destruct (last (up_to ts df)) as [latest|] eqn:Hlast.
  - pose proof (last_Some_elem_of _ _ Hlast) as Hlatest.
    apply list_elem_of_filter in Hlatest as [Hlatest_ts Hlatest_in].
    split.
    2:{ split; [discriminate|]. intros Hall. rewrite Forall_forall in Hall.
        specialize (Hall latest Hlatest_in). lia. }
    simpl. split; [reflexivity|]. split.
    { apply Forall_forall. intros b Hb.
      apply list_elem_of_filter in Hb as [Hb _]. exact Hb. }
    exists latest. split; [exact Hlast|].
    pose proof (last_Some_elem_of _ _ Hlast) as Hmem.
    apply list_elem_of_filter in Hmem as [Hts Hmem].
    repeat split; auto.
    intros Hsorted b Hb Hbts.
    apply (chronological_last (up_to ts df) latest).
    + apply chronological_filter. exact Hsorted.
    + exact Hlast.
    + apply list_elem_of_filter. auto.
  - rewrite lookup_empty. apply last_None in Hlast.
    split; [exact I|]. split; [|reflexivity]. intros _.
    apply Forall_forall. intros b Hb.
    destruct (decide (timestamp b <= ts)%Z) as [Hle|Hgt]; [|lia].
    exfalso. exact (filter_nil_not_elem_of _ _ b Hlast Hle Hb).
Qed.

Lemma snapshot_has_no_lookahead_witness :
  NoDup example_data.*1 /\
  ("ETH/USDT", [mkBar 3 5 6 4 5 50]) ∈ example_data /\
  _prepare_market_snapshot example_data 2 !! "ETH/USDT" = None /\
  Forall (fun b => (2 < timestamp b)%Z) [mkBar 3 5 6 4 5 50].
Proof.
  assert (Hnd : NoDup example_data.*1).
  { simpl. apply NoDup_cons. split; [|apply NoDup_singleton].
    intros Hin. apply list_elem_of_singleton in Hin. discriminate. }
  assert (Hin : ("ETH/USDT", [mkBar 3 5 6 4 5 50]) ∈ example_data).
  { right. left. }
  split; [exact Hnd|]. split; [exact Hin|].
  split; [reflexivity|].
  apply (snapshot_has_no_lookahead example_data 2 "ETH/USDT"
           [mkBar 3 5 6 4 5 50] Hnd Hin).
  reflexivity.
Defined.

(** ** C1: one equity point per tick, after the seed *)

Section Replay.

Context {St : Type}.
Variable generate_signal :
  St -> gmap string SnapshotEntry -> St * option Signal.
Variable historical_data : list (string * list Bar).

(** The loop never raises, appends one timestamp and one equity point
    per row, and keeps what was recorded before. *)
Lemma replay_returns (rows : list Bar) :
  forall bt st,
  exists st' bt' points,
    replay generate_signal historical_data rows bt st = Done st' bt' /\
    initial_capital bt' = initial_capital bt /\
    equity_curve bt' = equity_curve bt ++ points /\
    length points = length rows /\
    timestamps bt' = timestamps bt ++ map timestamp rows.
Proof.
  induction rows as [|row rows IH]; intros bt st.
  - exists st, bt, []. simpl. rewrite !app_nil_r. auto.
  - simpl.
    set (bt1 := set_timestamps (timestamps bt ++ [timestamp row]) bt).
    set (snap := _prepare_market_snapshot historical_data (timestamp row)).
    destruct (generate_signal st snap) as [st1 signal].
    assert (Hexec :
      exists bt2,
        match signal with
        | Some sg => _execute_backtest_signal bt1 sg snap
        | None => Done tt bt1
        end = Done tt bt2 /\ same_frame bt1 bt2).
    { destruct signal as [sg|].
      - pose proof (execute_frame bt1 sg snap) as Hframe.
        pose proof (execute_returns bt1 sg snap) as Hret.
        destruct (_execute_backtest_signal bt1 sg snap) as [[] bt2|e bt2].
        + exists bt2. auto.
        + simpl in Hret. discriminate Hret.
          subst bt1. simpl. intros Hnil.
          apply app_eq_nil in Hnil as [_ Hnil]. discriminate.
      - exists bt1. split; [reflexivity|]. unfold same_frame. auto. }
    destruct Hexec as (bt2 & -> & Hic & _ & _ & Heq & Hts).
    set (bt3 := set_equity_curve _ bt2).
    destruct (IH bt3 st1) as (st' & bt' & points & Hrun & Hic' & Heq' & Hlen & Hts').
    exists st', bt', (_calculate_portfolio_value bt2 snap :: points).
    split; [exact Hrun|].
    subst bt3 bt1. simpl in *.
    rewrite Hic', Hic, Heq', Heq, Hts', Hts, Hlen, <- !app_assoc.
    auto.
Qed.

End Replay.

Lemma drawdown_of_cons x rest :
  exists d ds, drawdown_of (array (x :: rest)) = d :: ds /\
               d = fdiv (fsub (Fin x) (Fin x)) (Fin x).
Proof. unfold drawdown_of. simpl. eauto. Qed.

(** The metrics are computed without raising from any curve that has a
    point, and the result carries the backtester's own lists. *)
Lemma calculate_metrics_returns np_std np_sqrt bt :
  equity_curve bt <> [] ->
  exists res,
    _calculate_metrics np_std np_sqrt bt = Done res bt /\
    r_initial_capital res = initial_capital bt /\
    r_equity_curve res = equity_curve bt /\
    r_timestamps res = timestamps bt /\
    r_trades res = trades bt /\
    r_num_trades res = length (trades bt) /\
    amin (drawdown_of (array (equity_curve bt))) = Some (r_max_drawdown res) /\
    r_max_drawdown_pct res = fmul (r_max_drawdown res) (Fin 100).
Proof.
  intros Hne. unfold _calculate_metrics.
  destruct (last (array (equity_curve bt))) as [final|] eqn:Hlast.
  2:{ apply last_None in Hlast. unfold array in Hlast.
      apply map_eq_nil in Hlast. contradiction. }
  destruct (equity_curve bt) as [|x rest] eqn:Hcurve; [contradiction|].
  destruct (drawdown_of_cons x rest) as (d & ds & Hdd & _).
  rewrite Hdd. simpl. eexists. split; [reflexivity|]. simpl.
  auto 10.
Qed.

(** C1.  A run over a dataset whose first symbol's frame, cut to the date
    range, has N rows returns a result whose equity curve is the
    backtester's, has length N + 1 and starts with the initial capital,
    the seed that [reset] puts there; N timestamps are recorded. *)
Theorem equity_curve_length
    (np_std : list num -> num) (np_sqrt : num -> num)
    {St : Type}
    (generate_signal : St -> gmap string SnapshotEntry -> St * option Signal)
    (bt : Backtester) (st : St)
    (primary_symbol : string) (df : list Bar)
    (others : list (string * list Bar))
    (start_date end_date : option Z) :
  let rows := clock df start_date end_date in
  equity_curve (reset bt) = [initial_capital bt] /\
  exists res bt',
    run np_std np_sqrt generate_signal bt st
      ((primary_symbol, df) :: others) start_date end_date = Done res bt' /\
    r_equity_curve res = equity_curve bt' /\
    length (r_equity_curve res) = S (length rows) /\
    r_equity_curve res !! 0%nat = Some (initial_capital bt) /\
    length (r_timestamps res) = length rows /\
    r_initial_capital res = initial_capital bt.
Proof.
  intros rows. split; [reflexivity|]. unfold run.
  destruct (replay_returns generate_signal ((primary_symbol, df) :: others)
              rows (reset bt) st)
    as (st' & bt' & points & Hrun & Hic & Heq & Hlen & Hts).
  fold rows. rewrite Hrun. simpl in Heq, Hts, Hic.
  destruct (calculate_metrics_returns np_std np_sqrt bt')
    as (res & Hres & Hinit & Hcurve & Htimes & _).
  { rewrite Heq. discriminate. }
  exists res, bt'. split; [exact Hres|].
  rewrite Hcurve, Htimes, Heq, Hts. simpl.
  rewrite Hlen, length_map.
  repeat split; auto. congruence.
Qed.

(** A dataset of exactly one bar, bought into at the first tick: the
    curve has two points, the seed and the value after the fill, and the
    total return is computed. *)
Example run_one_bar :
  exists res bt' value total_return,
    run (fun _ => NaN) (fun _ => NaN) eager_strategy
      (new 100000 0.001 0.0005) tt one_bar_data None None = Done res bt' /\
    r_equity_curve res = [100000; value] /\
    value == 94992.4975 + 50000 * 0.1 /\
    r_num_trades res = 1%nat /\
    positions bt' !! "BTC/USDT" = Some 0.1 /\
    r_total_return res = Fin total_return /\
    total_return == - 7.5025 / 100000.
Proof.
  do 4 eexists. split; [vm_compute; reflexivity|].
  repeat split; reflexivity.
Qed.

(** ** C9: a dataset without bars *)

Lemma fdiv_finite a b :
  ~ b == 0 -> fdiv (Fin a) (Fin b) = Fin (a / b).
Proof.
  intros Hb. simpl. destruct (b ?= 0) eqn:Hcmp; try reflexivity.
  apply Qeq_alt in Hcmp. contradiction.
Qed.

Lemma is_zero_scaled x k : is_zero x -> is_zero (fmul x (Fin k)).
Proof.
  intros (q & -> & Hq). exists (q * k). split; [reflexivity|].
  rewrite Hq. ring.
Qed.

Lemma fdiv_no_change x :
  ~ x == 0 -> is_zero (fdiv (fsub (Fin x) (Fin x)) (Fin x)).
Proof.
  intros Hx. unfold fsub. simpl fadd. rewrite fdiv_finite by exact Hx.
  eexists. split; [reflexivity|]. unfold Qdiv. ring.
Qed.

(** C9, as the code has it.  When the first symbol's frame has no row to
    replay, [run] does not raise: it returns a result whose equity curve
    is just the initial capital, with no timestamps and no trades,
    volatility 0 and Sharpe ratio 0; the maximum drawdown and the total
    return are zero for an initial capital other than zero, and NaN (0/0)
    for an initial capital of zero. *)
Theorem empty_dataset_is_degenerate
    (np_std : list num -> num) (np_sqrt : num -> num)
    {St : Type}
    (generate_signal : St -> gmap string SnapshotEntry -> St * option Signal)
    (bt : Backtester) (st : St)
    (primary_symbol : string) (df : list Bar)
    (others : list (string * list Bar))
    (start_date end_date : option Z) :
  clock df start_date end_date = [] ->
  exists res bt',
    run np_std np_sqrt generate_signal bt st
      ((primary_symbol, df) :: others) start_date end_date = Done res bt' /\
    bt' = reset bt /\
    r_equity_curve res = [initial_capital bt] /\
    length (r_equity_curve res) = 1%nat /\
    r_timestamps res = [] /\
    r_trades res = [] /\
    r_num_trades res = 0%nat /\
    r_final_value res = Fin (initial_capital bt) /\
    r_volatility res = Fin 0 /\
    r_sharpe_ratio res = Fin 0 /\
    (~ initial_capital bt == 0 ->
     is_zero (r_max_drawdown res) /\
     is_zero (r_max_drawdown_pct res) /\
     is_zero (r_total_return res) /\
     is_zero (r_total_return_pct res)) /\
    (initial_capital bt == 0 ->
     r_max_drawdown res = NaN /\
     r_max_drawdown_pct res = NaN /\
     r_total_return res = NaN /\
     r_total_return_pct res = NaN).
Proof.
  intros Hempty. unfold run. rewrite Hempty. simpl.
  unfold _calculate_metrics. simpl.
  eexists. eexists. split; [reflexivity|]. simpl.
  repeat (split; [reflexivity|]).
  split.
  - intros Hic.
    pose proof (fdiv_no_change (initial_capital bt) Hic) as Hzero.
    repeat split; try apply is_zero_scaled; exact Hzero.
  - intros Hic.
    assert (Hdiff : initial_capital bt + - initial_capital bt == 0) by ring.
    apply Qeq_alt in Hic, Hdiff.
    rewrite Hic. unfold signed_inf. rewrite Hdiff. repeat split.
Qed.

Lemma empty_dataset_is_degenerate_witness :
  clock [] None None = [] /\
  exists res bt',
    run (fun _ => NaN) (fun _ => NaN) idle_strategy
      (new 100000 0.001 0.0005) tt [("BTC/USDT", [])] None None
    = Done res bt' /\
    r_equity_curve res = [100000] /\
    r_num_trades res = 0%nat /\
    r_volatility res = Fin 0 /\
    r_sharpe_ratio res = Fin 0.
Proof.
  split; [reflexivity|].
  destruct (empty_dataset_is_degenerate (fun _ => NaN) (fun _ => NaN)
              idle_strategy (new 100000 0.001 0.0005) tt "BTC/USDT" [] []
              None None eq_refl)
    as (res & bt' & Hrun & _ & Hcurve & _ & _ & _ & Htrades & _ & Hvol & Hsharpe & _).
  exists res, bt'. auto.
Defined.

(** The claim as stated fails for an initial capital of zero: the run over
    a frame without bars returns, with volatility 0 and Sharpe ratio 0,
    but its maximum drawdown is 0/0, NaN and not zero. *)
Lemma empty_dataset_at_zero_capital :
  clock [] None None = [] /\
  exists res bt',
    run (fun _ => NaN) (fun _ => NaN) idle_strategy
      (new 0 0.001 0.0005) tt [("BTC/USDT", [])] None None = Done res bt' /\
    r_equity_curve res = [0] /\
    r_volatility res = Fin 0 /\
    r_sharpe_ratio res = Fin 0 /\
    r_max_drawdown res = NaN /\
    ~ is_zero (r_max_drawdown res).
Proof.
  split; [reflexivity|]. do 2 eexists. split; [reflexivity|].
  repeat (split; [reflexivity|]).
  intros (q & Hq & _). discriminate.
Qed.

(** ** C8: the maximum drawdown *)

Lemma accumulate_from_finite m a :
  accumulate_from (Fin m) (array a) = array (qaccumulate_from m a).
Proof.
  revert m. induction a as [|x a IH]; intros m; [reflexivity|].
  simpl. unfold qmax.
  destruct (Qle_bool m x); simpl; f_equal; apply IH.
Qed.

Lemma qmax_cases m x :
  (qmax m x = m \/ qmax m x = x) /\ m <= qmax m x /\ x <= qmax m x.
Proof.
  unfold qmax. destruct (Qle_bool m x) eqn:Hle.
  - apply Qle_bool_iff in Hle. repeat split; auto; lra.
  - apply Qle_bool_false in Hle. repeat split; auto; lra.
Qed.

(** Each entry of the running maximum started at [m] is [m] or an element
    seen so far, and bounds [m] and every element seen so far. *)
Lemma qaccumulate_from_spec a :
  forall m i mi,
    qaccumulate_from m a !! i = Some mi ->
    (mi = m \/ exists j, (j <= i)%nat /\ a !! j = Some mi) /\
    m <= mi /\
    (forall j x, (j <= i)%nat -> a !! j = Some x -> x <= mi).
Proof.
  induction a as [|x a IH]; intros m i mi Hi; [discriminate|].
  simpl in Hi. destruct (qmax_cases m x) as (Hwhich & Hm & Hx).
  destruct i as [|i].
  - injection Hi as <-. split; [|split; [exact Hm|]].
    + destruct Hwhich as [-> | Hw]; [left; reflexivity|].
      right. exists 0%nat. split; [lia|]. simpl. congruence.
    + intros j y Hj Hy. assert (j = 0)%nat as -> by lia.
      injection Hy as <-. exact Hx.
  - simpl in Hi. destruct (IH _ _ _ Hi) as (Hatt & Hlow & Hup).
    split; [|split; [lra|]].
    + destruct Hatt as [-> | (j & Hj & Hjm)].
      * destruct Hwhich as [-> | Hw]; [left; reflexivity|].
        right. exists 0%nat. split; [lia|]. simpl. congruence.
      * right. exists (S j). split; [lia | exact Hjm].
    + intros j y Hj Hy. destruct j as [|j].
      * injection Hy as <-. lra.
      * apply (Hup j y); [lia | exact Hy].
Qed.

Lemma running_max_accumulate e0 rest i m :
  (e0 :: qaccumulate_from e0 rest) !! i = Some m ->
  running_max (e0 :: rest) i m /\ e0 <= m.
Proof.
  destruct i as [|i]; simpl; intros Hi.
  - injection Hi as <-. split; [|lra]. split.
    + exists 0%nat. split; [lia | reflexivity].
    + intros j x Hj Hx. assert (j = 0)%nat as -> by lia.
      injection Hx as <-. lra.
  - destruct (qaccumulate_from_spec _ _ _ _ Hi) as (Hatt & Hlow & Hup).
    split; [|exact Hlow]. split.
    + destruct Hatt as [-> | (j & Hj & Hjm)].
      * exists 0%nat. split; [lia | reflexivity].
      * exists (S j). split; [lia | exact Hjm].
    + intros j x Hj Hx. destruct j as [|j].
      * injection Hx as <-. exact Hlow.
      * apply (Hup j x); [lia | exact Hx].
Qed.

Lemma running_max_unique e i m m' :
  running_max e i m -> running_max e i m' -> m == m'.
Proof.
  intros [(j & Hj & Hjm) Hup] [(j' & Hj' & Hjm') Hup'].
  apply Qle_antisym; eauto.
Qed.

Lemma qaccumulate_from_length m a :
  length (qaccumulate_from m a) = length a.
Proof. revert m. induction a; intros; simpl; auto. Qed.

Lemma drawdown_finite (e ms : list Q) :
  Forall (fun m => ~ m == 0) ms ->
  zip_with fdiv (zip_with fsub (array e) (array ms)) (array ms)
  = array (zip_with qdrawdown e ms).
Proof.
  intros Hms. revert e. induction Hms as [|m ms Hm _ IH]; intros e.
  - destruct e; reflexivity.
  - destruct e as [|x e]; [reflexivity|]. simpl.
    rewrite <- IH. f_equal.
    unfold fsub. simpl fadd. apply fdiv_finite. exact Hm.
Qed.

Lemma foldl_minimum_finite d ds :
  foldl minimum (Fin d) (array ds) = Fin (foldl qmin d ds).
Proof.
  revert d. induction ds as [|y ds IH]; intros d; [reflexivity|].
  simpl. unfold qmin at 2. destruct (Qle_bool d y); apply IH.
Qed.

(** The running minimum is one of the values and bounds them all. *)
Lemma foldl_qmin_spec ds :
  forall d,
    (foldl qmin d ds = d \/ foldl qmin d ds ∈ ds) /\
    foldl qmin d ds <= d /\
    Forall (fun y => foldl qmin d ds <= y) ds.
Proof.
  induction ds as [|y ds IH]; intros d; simpl.
  - split; [left; reflexivity|]. split; [lra | constructor].
  - destruct (IH (qmin d y)) as (Hatt & Hlow & Hall).
    assert (Hq : (qmin d y = d \/ qmin d y = y) /\ qmin d y <= d /\ qmin d y <= y).
    { unfold qmin. destruct (Qle_bool d y) eqn:Hle.
      - apply Qle_bool_iff in Hle. repeat split; auto; lra.
      - apply Qle_bool_false in Hle. repeat split; auto; lra. }
    destruct Hq as (Hwhich & Hd & Hy).
    split; [|split; [lra|]].
    + destruct Hatt as [-> | Hin].
      * destruct Hwhich as [-> | ->]; [left; reflexivity | right; left].
      * right. right. exact Hin.
    + constructor; [lra | exact Hall].
Qed.





(** ** C7: RSI where the average loss is zero *)

Import Indicators.

Lemma feq_zero_inv x : feq x (Fin 0) = true -> exists q, x = Fin q /\ q == 0.
Proof.
  unfold feq. destruct x as [q| | |]; simpl; try discriminate.
  intros H. apply andb_true_iff in H as [H1 H2].
  apply Qle_bool_iff in H1, H2. exists q. split; [reflexivity | lra].
Qed.

(** The code has no branch for a zero average loss: the quotient
    [gain / loss] is then an infinity or NaN, and the formula maps either
    infinity to 100. *)
Lemma rsi_of_rs_infinite : rsi_of_rs PInf = Fin 100 /\ rsi_of_rs NInf = Fin 100.
Proof. split; reflexivity. Qed.

Lemma rsi_of_rs_nan : rsi_of_rs NaN = NaN.
Proof. reflexivity. Qed.

Lemma calculate_rsi_lookup data period i gain loss :
  gain_of data period !! i = Some gain ->
  loss_of data period !! i = Some loss ->
  calculate_rsi data period !! i = Some (rsi_of_rs (fdiv gain loss)).
Proof.
  intros Hg Hl. unfold calculate_rsi.
  rewrite list_lookup_fmap, lookup_zip_with, Hg, Hl. reflexivity.
Qed.

(** C7, as the code has it.  At a position where the trailing average
    loss is zero, [calculate_rsi] returns exactly 100 when the trailing
    average gain is positive, and NaN when the average gain is zero as
    well. *)
Theorem rsi_at_zero_average_loss
    (data : list Q) (period i : nat) (gain loss : num) :
  gain_of data period !! i = Some gain ->
  loss_of data period !! i = Some loss ->
  feq loss (Fin 0) = true ->
  (flt (Fin 0) gain = true ->
   calculate_rsi data period !! i = Some (Fin 100)) /\
  (feq gain (Fin 0) = true ->
   calculate_rsi data period !! i = Some NaN).
Proof.
  intros Hg Hl Hzero.
  rewrite (calculate_rsi_lookup data period i gain loss Hg Hl).
  apply feq_zero_inv in Hzero as (l & -> & Hl0).
  apply Qeq_alt in Hl0.
  split.
  - intros Hpos. f_equal. destruct gain as [g| | |]; simpl in Hpos;
      try discriminate.
    + apply negb_true_iff, Qle_bool_false in Hpos.
      apply Qgt_alt in Hpos.
      simpl. rewrite Hl0. unfold signed_inf. rewrite Hpos. reflexivity.
    + simpl. rewrite Hl0. reflexivity.
  - intros Hflat. f_equal.
    apply feq_zero_inv in Hflat as (g & -> & Hg0).
    apply Qeq_alt in Hg0.
    simpl. rewrite Hl0. unfold signed_inf. rewrite Hg0. reflexivity.
Qed.

Lemma rsi_at_zero_average_loss_witness :
  gain_of [1; 2; 3; 2] 2 !! 1%nat = Some (Fin (1 # 2)) /\
  loss_of [1; 2; 3; 2] 2 !! 1%nat = Some (Fin (0 # 2)) /\
  feq (Fin (0 # 2)) (Fin 0) = true /\
  calculate_rsi [1; 2; 3; 2] 2 !! 1%nat = Some (Fin 100).
Proof.
  repeat (split; [reflexivity|]).
  apply (rsi_at_zero_average_loss [1; 2; 3; 2] 2 1 (Fin (1 # 2)) (Fin (0 # 2)));
    reflexivity.
Defined.

(** On a flat series the average loss is zero once the window is full,
    and the RSI there is NaN, not 100. *)
Lemma rsi_flat_series_is_nan :
  loss_of [1; 1; 1] 2 !! 1%nat = Some (Fin (0 # 2)) /\
  feq (Fin (0 # 2)) (Fin 0) = true /\
  calculate_rsi [1; 1; 1] 2 !! 1%nat = Some NaN /\
  calculate_rsi [1; 1; 1] 2 !! 1%nat <> Some (Fin 100).
Proof. repeat split; try reflexivity. discriminate. Qed.

(** ** Binary64 spot checks *)

Module Binary64_checks.

Import Floats.
Local Open Scope float_scope.

(** The worked buy on doubles: every value is the double nearest to the
    decimal of the exact computation, and the position is the double
    [0.1]. *)
#[warnings="-inexact-float"]
Lemma buy_fill_doubles :
  Binary64.buy_fill 100000 0.001 0.0005 50000 0.1
  = (50025, 5002.5, 5.0025, 5007.5025, 94992.4975) /\
  0 + 0.1 = 0.1.
Proof. vm_compute. split; reflexivity. Qed.

(** Division by a zero of either sign: a positive average gain gives an
    RSI of 100, a zero average gain gives NaN. *)
Lemma rsi_at_zero_loss_doubles :
  Binary64.rsi_at 0.5 0 = 100 /\
  Binary64.rsi_at 0.5 (-0) = 100 /\
  PrimFloat.is_nan (Binary64.rsi_at 0 0) = true /\
  PrimFloat.is_nan (Binary64.rsi_at 0 (-0)) = true.
Proof. vm_compute. repeat split. Qed.

End Binary64_checks.

(** * Further properties of the backtester *)

(** ** The results frame *)

(** X1.  After a run the results frame is built without error: it has one row
    per replayed bar, stamped with the bars' timestamps in order, and its
    equity column is the returned curve without the seed.  On a freshly
    built backtester the frame is empty. *)
Theorem results_dataframe_after_run
    (np_std : list num -> num) (np_sqrt : num -> num)
    {St : Type}
    (generate_signal : St -> gmap string SnapshotEntry -> St * option Signal)
    (bt : Backtester) (st : St)
    (primary_symbol : string) (df : list Bar)
    (others : list (string * list Bar))
    (start_date end_date : option Z) :
  let rows := clock df start_date end_date in
  (exists res bt' frame,
     run np_std np_sqrt generate_signal bt st
       ((primary_symbol, df) :: others) start_date end_date = Done res bt' /\
     get_results_dataframe bt' = Done frame bt' /\
     length frame = length rows /\
     frame.*1 = map timestamp rows /\
     frame.*2 = drop 1 (r_equity_curve res)) /\
  (forall ic c s,
     get_results_dataframe (new ic c s) = Done [] (new ic c s)).
Proof.
  intros rows. split; [|reflexivity]. unfold run.
  destruct (replay_returns generate_signal ((primary_symbol, df) :: others)
              rows (reset bt) st)
    as (st' & bt' & points & Hrun & _ & Heq & Hlen & Hts).
  fold rows. rewrite Hrun. simpl in Heq, Hts.
  destruct (calculate_metrics_returns np_std np_sqrt bt')
    as (res & Hres & _ & Hcurve & _).
  { rewrite Heq. discriminate. }
  assert (Hsame : length (map timestamp rows) = length points)
    by (rewrite length_map; auto).
  exists res, bt', (zip (map timestamp rows) points).
  split; [exact Hres|].
  unfold get_results_dataframe. rewrite Hcurve, Hts, Heq. simpl.
  rewrite Hsame, Nat.eqb_refl.
  split; [reflexivity|].
  split; [rewrite length_zip_with, Hsame, Hlen; apply Nat.min_id|].
  split; [apply fst_zip | apply snd_zip]; rewrite Hsame; reflexivity.
Qed.

(** ** Signals that do nothing, and what a fill writes *)

(** X2.  A signal whose symbol the snapshot does not quote, or whose
    action is neither ["buy"] nor ["sell"], returns normally and leaves
    the backtester as it was. *)
Theorem unquoted_or_unknown_signal_is_ignored
    (bt : Backtester) (sg : Signal) (snap : gmap string SnapshotEntry) :
  snap !! symbol sg = None \/ (action sg <> "buy" /\ action sg <> "sell") ->
  _execute_backtest_signal bt sg snap = Done tt bt.
Proof.
  intros Hcase. unfold _execute_backtest_signal.
  destruct (snap !! symbol sg) as [entry|] eqn:Hsnap; [|reflexivity].
  destruct Hcase as [Hnone | [Hbuy Hsell]]; [discriminate|].
  apply String.eqb_neq in Hbuy, Hsell. rewrite Hbuy, Hsell. reflexivity.
Qed.

Lemma unquoted_or_unknown_signal_is_ignored_witness :
  (action example_hold <> "buy" /\ action example_hold <> "sell") /\
  _execute_backtest_signal example_holder example_hold example_snapshot
  = Done tt example_holder.
Proof.
  assert (H : action example_hold <> "buy" /\ action example_hold <> "sell")
    by (split; discriminate).
  split; [exact H|].
  apply (unquoted_or_unknown_signal_is_ignored
           example_holder example_hold example_snapshot).
  right. exact H.
Defined.

(** X3.  When a signal returns normally, either nothing changed or one
    trade was appended to the log, stamped with the current tick and
    carrying the signal's action, symbol and amount, the execution price
    and the total cost (buy) or net proceeds (sell); the older trades are
    untouched. *)
Theorem fill_is_logged
    (bt bt' : Backtester) (sg : Signal) (snap : gmap string SnapshotEntry) :
  _execute_backtest_signal bt sg snap = Done tt bt' ->
  bt' = bt \/
  exists entry now,
    snap !! symbol sg = Some entry /\
    last (timestamps bt) = Some now /\
    ((action sg = "buy" /\
      trades bt' =
        trades bt ++
        [mkTrade now "buy" (symbol sg) (amount sg)
           (buy_execution_price bt (tk_last (ticker entry)))
           (cost (buy_total_cost bt (tk_last (ticker entry)) (amount sg)))]) \/
     (action sg = "sell" /\
      trades bt' =
        trades bt ++
        [mkTrade now "sell" (symbol sg) (amount sg)
           (sell_execution_price bt (tk_last (ticker entry)))
           (proceeds
              (sell_net_proceeds bt (tk_last (ticker entry)) (amount sg)))])).
Proof.
  unfold _execute_backtest_signal.
  destruct (snap !! symbol sg) as [entry|] eqn:Hsnap;
    [|intros [= <-]; left; reflexivity].
  destruct (String.eqb (action sg) "buy") eqn:Hbuy.
  - apply String.eqb_eq in Hbuy.
    destruct (Qle_bool _ (capital bt)); [|intros [= <-]; left; reflexivity].
    unfold record_trade. simpl.
    destruct (last (timestamps bt)) as [now|] eqn:Hnow; [|discriminate].
    intros [= <-]. right. exists entry, now. simpl. auto.
  - destruct (String.eqb (action sg) "sell") eqn:Hsell;
      [|intros [= <-]; left; reflexivity].
    apply String.eqb_eq in Hsell.
    destruct (positions bt !! symbol sg) as [held|];
      [|intros [= <-]; left; reflexivity].
    destruct (Qle_bool (amount sg) held); [|intros [= <-]; left; reflexivity].
    unfold record_trade.
    destruct (Qeq_bool (held - amount sg) 0); simpl;
      (destruct (last (timestamps bt)) as [now|] eqn:Hnow; [|discriminate]);
      intros [= <-]; right; exists entry, now; simpl; auto.
Qed.

Lemma fill_is_logged_witness :
  _execute_backtest_signal example_backtester example_buy example_snapshot
  = Done tt (state_after (_execute_backtest_signal
                            example_backtester example_buy example_snapshot)) /\
  exists now,
    last (timestamps example_backtester) = Some now /\
    map tr_timestamp
      (trades (state_after (_execute_backtest_signal
                              example_backtester example_buy example_snapshot)))
    = [now].
Proof.
  split; [reflexivity|].
  destruct (fill_is_logged example_backtester _ example_buy example_snapshot
              eq_refl)
    as [Hsame | (entry & now & _ & Hnow & [[_ Hlog] | [Hsell _]])].
  - discriminate Hsame.
  - exists now. split; [exact Hnow|].
    simpl in Hnow. injection Hnow as <-. reflexivity.
  - discriminate Hsell.
Defined.

(** X4.  Called before any tick has been recorded, a buy that the cash
    covers raises IndexError when the trade record is built, after the
    cash has been debited and the position credited: the state it leaves
    has the new cash and position and no trade logged. *)
Theorem buy_before_first_tick_raises_after_updating
    (bt : Backtester) (sg : Signal) (snap : gmap string SnapshotEntry)
    (entry : SnapshotEntry) :
  timestamps bt = [] ->
  action sg = "buy" ->
  snap !! symbol sg = Some entry ->
  buy_total_cost bt (tk_last (ticker entry)) (amount sg) <= capital bt ->
  exists bt',
    _execute_backtest_signal bt sg snap = Raised IndexError bt' /\
    capital bt' =
      capital bt - buy_total_cost bt (tk_last (ticker entry)) (amount sg) /\
    positions bt' =
      <[symbol sg := default 0 (positions bt !! symbol sg) + amount sg]>
        (positions bt) /\
    trades bt' = trades bt.
Proof.
  intros Hts Hbuy Hsnap Hle. unfold _execute_backtest_signal.
  rewrite Hsnap, Hbuy. simpl. apply Qle_bool_iff in Hle. rewrite Hle.
  unfold record_trade. simpl. rewrite Hts. simpl.
  eexists. split; [reflexivity|]. simpl. auto.
Qed.

Lemma buy_before_first_tick_raises_after_updating_witness :
  timestamps (new 100000 0.001 0.0005) = [] /\
  exists bt',
    _execute_backtest_signal (new 100000 0.001 0.0005) example_buy
      example_snapshot = Raised IndexError bt' /\
    positions bt' !! "BTC/USDT" = Some 0.1 /\
    trades bt' = [].
Proof.
  split; [reflexivity|].
  destruct (buy_before_first_tick_raises_after_updating
              (new 100000 0.001 0.0005) example_buy example_snapshot
              (mkEntry (mkTicker 50000 49000 51000 10)
                 [mkBar 1 50000 51000 49000 50000 10]))
    as (bt' & Hrun & _ & Hpos & Hlog);
    try reflexivity; [vm_compute; discriminate|].
  exists bt'. split; [exact Hrun|]. split; [|exact Hlog].
  rewrite Hpos. apply lookup_insert_eq.
Defined.

(** ** What a fill costs *)

Lemma quoted_values_delete_lookup p snap s :
  quoted_values (delete s p) snap !! s = None.
Proof.
  unfold quoted_values. rewrite map_lookup_zip_with, lookup_delete_eq.
  reflexivity.
Qed.

(** The quoted value of the holdings, with one quoted symbol set apart. *)
Lemma Qsum_quoted_split p snap s entry :
  snap !! s = Some entry ->
  Qsum_map (quoted_values p snap)
  == Qsum_map (quoted_values (delete s p) snap)
     + tk_last (ticker entry) * quantity p s.
Proof.
  intros Hq. unfold quantity.
  destruct (p !! s) as [held|] eqn:Hheld; simpl.
  - rewrite <- (insert_delete_id p s held Hheld) at 1.
    rewrite (quoted_values_insert_quoted _ snap s held entry Hq).
    rewrite Qsum_map_insert by apply quoted_values_delete_lookup.
    reflexivity.
  - rewrite (delete_id p s Hheld). ring.
Qed.

(** Two states that hold the same in every other symbol differ in value
    by their cash and by their holding of the symbol at its price. *)
Lemma portfolio_value_difference bt bt' snap s entry :
  snap !! s = Some entry ->
  delete s (positions bt') = delete s (positions bt) ->
  _calculate_portfolio_value bt' snap - _calculate_portfolio_value bt snap
  == capital bt' - capital bt
     + tk_last (ticker entry)
       * (quantity (positions bt') s - quantity (positions bt) s).
Proof.
  intros Hq Hrest. unfold _calculate_portfolio_value.
  rewrite !portfolio_value_sum.
  rewrite (Qsum_quoted_split (positions bt') snap s entry Hq).
  rewrite (Qsum_quoted_split (positions bt) snap s entry Hq).
  rewrite Hrest. ring.
Qed.

(** Cash and positions after a signal, case by case. *)
Lemma execute_cases bt sg snap :
  let bt' := state_after (_execute_backtest_signal bt sg snap) in
  bt' = bt \/
  (exists entry,
     snap !! symbol sg = Some entry /\ action sg = "buy" /\
     buy_total_cost bt (tk_last (ticker entry)) (amount sg) <= capital bt /\
     capital bt' =
       capital bt - buy_total_cost bt (tk_last (ticker entry)) (amount sg) /\
     positions bt' =
       <[symbol sg := default 0 (positions bt !! symbol sg) + amount sg]>
         (positions bt)) \/
  (exists entry held,
     snap !! symbol sg = Some entry /\ action sg = "sell" /\
     positions bt !! symbol sg = Some held /\ amount sg <= held /\
     capital bt' =
       capital bt + sell_net_proceeds bt (tk_last (ticker entry)) (amount sg) /\
     positions bt' =
       if Qeq_bool (held - amount sg) 0
       then delete (symbol sg) (<[symbol sg := held - amount sg]> (positions bt))
       else <[symbol sg := held - amount sg]> (positions bt)).
Proof.
  unfold _execute_backtest_signal.
  destruct (snap !! symbol sg) as [entry|] eqn:Hsnap; [|left; reflexivity].
  destruct (String.eqb (action sg) "buy") eqn:Hbuy.
  - apply String.eqb_eq in Hbuy.
    destruct (Qle_bool _ (capital bt)) eqn:Hle; [|left; reflexivity].
    apply Qle_bool_iff in Hle.
    right; left. exists entry.
    unfold record_trade. case_match; simpl; auto 10.
  - destruct (String.eqb (action sg) "sell") eqn:Hsell; [|left; reflexivity].
    apply String.eqb_eq in Hsell.
    destruct (positions bt !! symbol sg) as [held|] eqn:Hheld;
      [|left; reflexivity].
    destruct (Qle_bool (amount sg) held) eqn:Hle; [|left; reflexivity].
    apply Qle_bool_iff in Hle.
    right; right. exists entry, held.
    unfold record_trade.
    destruct (Qeq_bool (held - amount sg) 0); case_match; simpl; auto 10.
Qed.

(** X5.  In exact arithmetic a signal changes the portfolio value, taken
    at the snapshot it was executed on, by the cost of trading: nothing
    when it is not filled, the traded value times
    [(1+slippage)(1+commission) - 1] for a buy and times
    [1 - (1-slippage)(1-commission)] for a sell; so with rates between 0
    and 1 and a price and an amount that are not negative, no signal
    increases the exact value.  On doubles this does not hold exactly:
    at rates of zero, a buy of 0.545 units quoted at 20060.67 from a cash
    of 30978.12 is filled and valued at 30978.120000000003 afterwards. *)
Theorem fill_changes_value_by_trading_cost
    (bt : Backtester) (sg : Signal) (snap : gmap string SnapshotEntry)
    (entry : SnapshotEntry) :
  snap !! symbol sg = Some entry ->
  let bt' := state_after (_execute_backtest_signal bt sg snap) in
  let traded := tk_last (ticker entry) * amount sg in
  (bt' = bt \/
   (action sg = "buy" /\
    _calculate_portfolio_value bt' snap
    == _calculate_portfolio_value bt snap - traded * buy_friction bt) \/
   (action sg = "sell" /\
    _calculate_portfolio_value bt' snap
    == _calculate_portfolio_value bt snap - traded * sell_friction bt)) /\
  (0 <= tk_last (ticker entry) -> 0 <= amount sg ->
   0 <= slippage bt <= 1 -> 0 <= commission bt <= 1 ->
   _calculate_portfolio_value bt' snap <= _calculate_portfolio_value bt snap) /\
  Rounded.buy_raises_value.
Proof.
  intros Hsnap bt' traded.
  assert (Hcases :
    bt' = bt \/
    (action sg = "buy" /\
     _calculate_portfolio_value bt' snap
     == _calculate_portfolio_value bt snap - traded * buy_friction bt) \/
    (action sg = "sell" /\
     _calculate_portfolio_value bt' snap
     == _calculate_portfolio_value bt snap - traded * sell_friction bt)).
  { pose proof (execute_cases bt sg snap) as Hexec.
    cbv zeta in Hexec. fold bt' in Hexec.
    destruct Hexec
      as [Hsame | [(e & He & Hbuy & _ & Hcap & Hpos)
                  | (e & held & He & Hsell & Hheld & Hle & Hcap & Hpos)]];
      [left; exact Hsame | right; left | right; right].
    - assert (e = entry) as -> by congruence.
      split; [exact Hbuy|].
      pose proof (portfolio_value_difference bt bt' snap (symbol sg) entry Hsnap)
        as Hdiff.
      rewrite Hpos, delete_insert_eq in Hdiff. specialize (Hdiff eq_refl).
      unfold quantity in Hdiff. rewrite lookup_insert_eq in Hdiff.
      simpl in Hdiff. rewrite Hcap in Hdiff.
      unfold traded, buy_friction.
      unfold buy_total_cost, buy_commission_cost, buy_cost,
        buy_execution_price in Hdiff.
      lra.
    - assert (e = entry) as -> by congruence.
      split; [exact Hsell|].
      pose proof (portfolio_value_difference bt bt' snap (symbol sg) entry Hsnap)
        as Hdiff.
      assert (Hrest : delete (symbol sg) (positions bt')
                      = delete (symbol sg) (positions bt)).
      { rewrite Hpos. destruct (Qeq_bool (held - amount sg) 0).
        - rewrite delete_delete_eq. apply delete_insert_eq.
        - apply delete_insert_eq. }
      specialize (Hdiff Hrest).
      assert (Hq : quantity (positions bt') (symbol sg) == held - amount sg).
      { unfold quantity. rewrite Hpos.
        destruct (Qeq_bool (held - amount sg) 0) eqn:Hz.
        - rewrite lookup_delete_eq. simpl. apply Qeq_bool_eq in Hz. lra.
        - rewrite lookup_insert_eq. reflexivity. }
      rewrite Hq in Hdiff. unfold quantity in Hdiff at 1.
      rewrite Hheld in Hdiff. simpl in Hdiff. rewrite Hcap in Hdiff.
      unfold traded, sell_friction.
      unfold sell_net_proceeds, sell_commission_cost, sell_proceeds,
        sell_execution_price in Hdiff.
      lra. }
  split; [exact Hcases|].
  split; [|vm_compute; reflexivity].
  intros Hprice Hamt [Hs0 Hs1] [Hc0 Hc1].
  assert (Htraded : 0 <= traded) by (apply Qmult_le_0_compat; assumption).
  destruct Hcases as [-> | [[_ Hval] | [_ Hval]]]; [lra | |]; rewrite Hval.
  - assert (0 <= traded * buy_friction bt); [|lra].
    apply Qmult_le_0_compat; [exact Htraded|]. unfold buy_friction. nra.
  - assert (0 <= traded * sell_friction bt); [|lra].
    apply Qmult_le_0_compat; [exact Htraded|]. unfold sell_friction. nra.
Qed.

Lemma fill_changes_value_by_trading_cost_witness :
  example_snapshot !! symbol example_buy
  = Some (mkEntry (mkTicker 50000 49000 51000 10)
            [mkBar 1 50000 51000 49000 50000 10]) /\
  _calculate_portfolio_value
    (state_after (_execute_backtest_signal
                    example_backtester example_buy example_snapshot))
    example_snapshot
  <= _calculate_portfolio_value example_backtester example_snapshot.
Proof.
  split; [reflexivity|].
  destruct (fill_changes_value_by_trading_cost
              example_backtester example_buy example_snapshot _ eq_refl)
    as (_ & Hle & _).
  apply Hle; try split; vm_compute; discriminate.
Defined.

(** ** Buying and selling back *)

(** X6.  Buying an amount of a symbol that is not held and selling the
    same amount back on the same snapshot restores the positions map
    exactly, logs two trades, and costs the traded value times
    [(1+slippage)(1+commission) - (1-slippage)(1-commission)] in cash. *)
Theorem buy_then_sell_round_trip
    (bt : Backtester) (snap : gmap string SnapshotEntry)
    (sym : string) (amt : Q) (entry : SnapshotEntry) :
  timestamps bt <> [] ->
  snap !! sym = Some entry ->
  positions bt !! sym = None ->
  buy_total_cost bt (tk_last (ticker entry)) amt <= capital bt ->
  exists bt1 bt2,
    _execute_backtest_signal bt (mkSignal "buy" sym amt) snap = Done tt bt1 /\
    _execute_backtest_signal bt1 (mkSignal "sell" sym amt) snap = Done tt bt2 /\
    positions bt2 = positions bt /\
    length (trades bt2) = (length (trades bt) + 2)%nat /\
    capital bt2
    == capital bt
       - tk_last (ticker entry) * amt
         * ((1 + slippage bt) * (1 + commission bt)
            - (1 - slippage bt) * (1 - commission bt)).
Proof.
  intros Hts Hsnap Hnone Hle.
  destruct (last (timestamps bt)) as [now|] eqn:Hnow.
  2:{ apply last_None in Hnow. contradiction. }
  apply Qle_bool_iff in Hle.
  assert (Hcover : Qle_bool amt (0 + amt) = true)
    by (apply Qle_bool_iff; lra).
  assert (Hclosed : Qeq_bool (0 + amt - amt) 0 = true)
    by (apply Qeq_bool_iff; ring).
  eexists. eexists. split; [|split].
  - unfold _execute_backtest_signal. simpl. rewrite Hsnap. simpl.
    rewrite Hle. unfold record_trade. simpl. rewrite Hnow. reflexivity.
  - unfold _execute_backtest_signal. simpl. rewrite Hsnap. simpl.
    rewrite Hnone. simpl. rewrite lookup_insert_eq, Hcover, Hclosed.
    unfold record_trade. simpl. rewrite Hnow. reflexivity.
  - simpl. split; [|split].
    + rewrite delete_insert_eq, delete_insert_eq. apply delete_id. exact Hnone.
    + rewrite !length_app. simpl. lia.
    + unfold sell_net_proceeds, sell_commission_cost, sell_proceeds,
        sell_execution_price, buy_total_cost, buy_commission_cost, buy_cost,
        buy_execution_price. simpl. ring.
Qed.

Lemma buy_then_sell_round_trip_witness :
  timestamps example_backtester <> [] /\
  exists bt1 bt2,
    _execute_backtest_signal example_backtester example_buy example_snapshot
    = Done tt bt1 /\
    _execute_backtest_signal bt1 example_sell example_snapshot = Done tt bt2 /\
    positions bt2 = positions example_backtester.
Proof.
  assert (Hts : timestamps example_backtester <> []) by discriminate.
  split; [exact Hts|].
  destruct (buy_then_sell_round_trip example_backtester example_snapshot
              "BTC/USDT" 0.1 _ Hts eq_refl eq_refl)
    as (bt1 & bt2 & Hbuy & Hsell & Hpos & _).
  { vm_compute. discriminate. }
  exists bt1, bt2. auto.
Defined.

(** ** What holds all along a run *)

Lemma calculate_metrics_state np_std np_sqrt bt :
  state_after (_calculate_metrics np_std np_sqrt bt) = bt.
Proof. unfold _calculate_metrics. repeat case_match; reflexivity. Qed.

Section ReplayInvariant.

Context {St : Type}.
Variable generate_signal :
  St -> gmap string SnapshotEntry -> St * option Signal.
Variable historical_data : list (string * list Bar).
Variable I : Backtester -> Prop.

Hypothesis I_timestamps : forall bt ts, I bt -> I (set_timestamps ts bt).
Hypothesis I_equity : forall bt e, I bt -> I (set_equity_curve e bt).
Hypothesis I_execute :
  forall bt st ts sg,
    I bt ->
    (generate_signal st (_prepare_market_snapshot historical_data ts)).2
    = Some sg ->
    I (state_after
         (_execute_backtest_signal bt sg
            (_prepare_market_snapshot historical_data ts))).

(** A property kept by the three kinds of update of the loop is kept by
    the loop. *)
Lemma replay_invariant (rows : list Bar) :
  forall bt st,
    I bt -> I (state_after (replay generate_signal historical_data rows bt st)).
Proof.
  induction rows as [|row rows IH]; intros bt st Hbt; [exact Hbt|].
  simpl.
  set (bt1 := set_timestamps (timestamps bt ++ [timestamp row]) bt).
  assert (Hbt1 : I bt1) by (apply I_timestamps; exact Hbt).
  pose proof (I_execute bt1 st (timestamp row)) as Hstep.
  destruct (generate_signal st
              (_prepare_market_snapshot historical_data (timestamp row)))
    as [st1 signal].
  destruct signal as [sg|].
  - specialize (Hstep sg Hbt1 eq_refl).
    destruct (_execute_backtest_signal bt1 sg _) as [[] bt2|e bt2];
      simpl in Hstep |- *; [|exact Hstep].
    apply IH. apply I_equity. exact Hstep.
  - apply IH. apply I_equity. exact Hbt1.
Qed.

Lemma run_invariant np_std np_sqrt bt st start_date end_date :
  I (reset bt) ->
  I (state_after
       (run np_std np_sqrt generate_signal bt st historical_data
          start_date end_date)).
Proof.
  intros Hreset. unfold run.
  set (items := historical_data) at 1. clearbody items.
  destruct items as [|[primary df] others]; [exact Hreset|].
  pose proof (replay_invariant (clock df start_date end_date) (reset bt) st
                Hreset) as Hloop.
  destruct (replay generate_signal historical_data _ (reset bt) st)
    as [st' bt'|e bt']; simpl in Hloop |- *; [|exact Hloop].
  rewrite calculate_metrics_state. exact Hloop.
Qed.

End ReplayInvariant.

(** Every entry of a snapshot is read off a bar of the dataset that is
    not later than the cursor. *)
Lemma snapshot_entry_origin (hd : list (string * list Bar)) ts sym entry :
  _prepare_market_snapshot hd ts !! sym = Some entry ->
  exists df latest,
    (sym, df) ∈ hd /\ latest ∈ df /\ (timestamp latest <= ts)%Z /\
    entry = mkEntry (ticker_of latest) (up_to ts df).
Proof.
  unfold _prepare_market_snapshot.
  assert (Hgen : forall acc,
    foldl (snapshot_step ts) acc hd !! sym = Some entry ->
    acc !! sym = Some entry \/
    exists df latest,
      (sym, df) ∈ hd /\ latest ∈ df /\ (timestamp latest <= ts)%Z /\
      entry = mkEntry (ticker_of latest) (up_to ts df)).
  { induction hd as [|[s df0] hd IH]; intros acc Hfold; [left; exact Hfold|].
    simpl in Hfold. destruct (IH _ Hfold) as [Hstep | (df & latest & Hin & Hrest)].
    - unfold snapshot_step in Hstep. simpl in Hstep.
      destruct (last (up_to ts df0)) as [latest|] eqn:Hlast; [|left; exact Hstep].
      destruct (decide (s = sym)) as [->|Hne].
      + rewrite lookup_insert_eq in Hstep. injection Hstep as <-.
        right. exists df0, latest.
        apply last_Some_elem_of, list_elem_of_filter in Hlast as [Hts Hmem].
        split; [left|]. auto.
      + rewrite lookup_insert_ne in Hstep by exact Hne. left. exact Hstep.
    - right. exists df, latest. split; [right; exact Hin | exact Hrest]. }
  intros Hsnap. destruct (Hgen ∅ Hsnap) as [Hempty | Hfound]; [|exact Hfound].
  rewrite lookup_empty in Hempty. discriminate.
Qed.

(** X7.  When every signal the strategy emits has an amount > 0, the
    positions map left by a run holds only quantities > 0. *)
Theorem run_keeps_positions_positive
    (np_std : list num -> num) (np_sqrt : num -> num)
    {St : Type}
    (generate_signal : St -> gmap string SnapshotEntry -> St * option Signal)
    (bt : Backtester) (st : St)
    (historical_data : list (string * list Bar))
    (start_date end_date : option Z) :
  (forall st snap sg, (generate_signal st snap).2 = Some sg -> 0 < amount sg) ->
  positions_ok
    (positions
       (state_after
          (run np_std np_sqrt generate_signal bt st historical_data
             start_date end_date))).
Proof.
  intros Hamt.
  apply (run_invariant generate_signal historical_data
           (fun b => positions_ok (positions b))).
  - intros b ts Hb. exact Hb.
  - intros b e Hb. exact Hb.
  - intros b s ts sg Hb Hsg.
    pose proof (Hamt _ _ _ Hsg) as Hpos.
    destruct (execute_cases b sg (_prepare_market_snapshot historical_data ts))
      as [Hsame | [(e & _ & _ & _ & _ & Hp) | (e & held & _ & _ & _ & Hle & _ & Hp)]].
    + rewrite Hsame. exact Hb.
    + rewrite Hp. apply positions_ok_buy; assumption.
    + rewrite Hp. apply positions_ok_sell; assumption.
  - apply positions_ok_empty.
Qed.

Lemma run_keeps_positions_positive_witness :
  (forall st snap sg, (eager_strategy st snap).2 = Some sg -> 0 < amount sg) /\
  positions_ok
    (positions
       (state_after
          (run (fun _ => NaN) (fun _ => NaN) eager_strategy
             (new 100000 0.001 0.0005) tt one_bar_data None None))).
Proof.
  assert (H : forall st snap sg,
             (eager_strategy st snap).2 = Some sg -> 0 < amount sg).
  { intros st snap sg [= <-]. reflexivity. }
  split; [exact H|].
  apply (run_keeps_positions_positive (fun _ => NaN) (fun _ => NaN)
           eager_strategy (new 100000 0.001 0.0005) tt one_bar_data None None H).
Defined.

(** X8.  With an initial capital, closing prices and signal amounts that
    are not negative and rates that are at most 1, the cash left by a run
    is not negative. *)
Theorem run_keeps_cash_non_negative
    (np_std : list num -> num) (np_sqrt : num -> num)
    {St : Type}
    (generate_signal : St -> gmap string SnapshotEntry -> St * option Signal)
    (bt : Backtester) (st : St)
    (historical_data : list (string * list Bar))
    (start_date end_date : option Z) :
  0 <= initial_capital bt ->
  slippage bt <= 1 ->
  commission bt <= 1 ->
  (forall sym df b, (sym, df) ∈ historical_data -> b ∈ df -> 0 <= close b) ->
  (forall st snap sg, (generate_signal st snap).2 = Some sg -> 0 <= amount sg) ->
  0 <= capital
         (state_after
            (run np_std np_sqrt generate_signal bt st historical_data
               start_date end_date)).
Proof.
  intros Hic Hslip Hcomm Hclose Hamt.
  apply (run_invariant generate_signal historical_data
           (fun b => 0 <= capital b /\ slippage b <= 1 /\ commission b <= 1)).
  - intros b ts Hb. exact Hb.
  - intros b e Hb. exact Hb.
  - intros b s ts sg (Hcash & Hs & Hc) Hsg.
    pose proof (Hamt _ _ _ Hsg) as Hpos.
    destruct (execute_frame b sg (_prepare_market_snapshot historical_data ts))
      as (_ & Hc' & Hs' & _).
    rewrite Hc', Hs'. split; [|auto].
    destruct (execute_cases b sg (_prepare_market_snapshot historical_data ts))
      as [Hsame | [(e & _ & _ & Hle & Hcap & _) | (e & held & He & _ & _ & _ & Hcap & _)]].
    + rewrite Hsame. exact Hcash.
    + rewrite Hcap. lra.
    + rewrite Hcap.
      destruct (snapshot_entry_origin _ _ _ _ He)
        as (df & latest & Hin & Hmem & _ & ->).
      pose proof (Hclose _ _ _ Hin Hmem) as Hprice.
      pose proof (sell_net_proceeds_nonneg b (close latest) (amount sg)
                    Hprice Hpos Hs Hc) as Hnet.
      simpl. lra.
  - simpl. auto.
Qed.

Lemma run_keeps_cash_non_negative_witness :
  0 <= initial_capital (new 100000 0.001 0.0005) /\
  0 <= capital
         (state_after
            (run (fun _ => NaN) (fun _ => NaN) eager_strategy
               (new 100000 0.001 0.0005) tt one_bar_data None None)).
Proof.
  assert (Hic : 0 <= initial_capital (new 100000 0.001 0.0005))
    by (vm_compute; discriminate).
  split; [exact Hic|].
  apply (run_keeps_cash_non_negative (fun _ => NaN) (fun _ => NaN)
           eager_strategy (new 100000 0.001 0.0005) tt one_bar_data None None
           Hic).
  - vm_compute. discriminate.
  - vm_compute. discriminate.
  - intros sym df b Hin Hb.
    apply list_elem_of_singleton in Hin. injection Hin as -> ->.
    apply list_elem_of_singleton in Hb. subst b. vm_compute. discriminate.
  - intros s snap sg [= <-]. vm_compute. discriminate.
Defined.

(** The trade log after a signal: unchanged, or longer by one trade that
    is stamped with the current tick. *)
Lemma execute_trades bt sg snap :
  let bt' := state_after (_execute_backtest_signal bt sg snap) in
  trades bt' = trades bt \/
  exists t,
    trades bt' = trades bt ++ [t] /\
    last (timestamps bt) = Some (tr_timestamp t) /\
    (tr_action t = "buy" \/ tr_action t = "sell") /\
    tr_symbol t = symbol sg /\ tr_amount t = amount sg.
Proof.
  unfold _execute_backtest_signal.
  destruct (snap !! symbol sg) as [entry|]; [|left; reflexivity].
  destruct (String.eqb (action sg) "buy").
  - destruct (Qle_bool _ (capital bt)); [|left; reflexivity].
    unfold record_trade. simpl.
    destruct (last (timestamps bt)) as [now|]; [|left; reflexivity].
    right. eexists. split; [reflexivity|]. simpl. auto.
  - destruct (String.eqb (action sg) "sell"); [|left; reflexivity].
    destruct (positions bt !! symbol sg) as [held|]; [|left; reflexivity].
    destruct (Qle_bool (amount sg) held); [|left; reflexivity].
    unfold record_trade.
    destruct (Qeq_bool (held - amount sg) 0); simpl;
      (destruct (last (timestamps bt)) as [now|]; [|left; reflexivity]);
      right; eexists; (split; [reflexivity|]); simpl; auto.
Qed.

Section ReplayTrades.

Context {St : Type}.
Variable generate_signal :
  St -> gmap string SnapshotEntry -> St * option Signal.
Variable historical_data : list (string * list Bar).

(** The loop appends at most one trade per row, each stamped with its
    row's timestamp. *)
Lemma replay_trades (rows : list Bar) :
  forall bt st,
  exists new,
    trades (state_after (replay generate_signal historical_data rows bt st))
    = trades bt ++ new /\
    map tr_timestamp new `sublist_of` map timestamp rows /\
    Forall (fun t => tr_action t = "buy" \/ tr_action t = "sell") new.
Proof.
  induction rows as [|row rows IH]; intros bt st.
  - exists []. simpl. rewrite app_nil_r. repeat constructor.
  - simpl.
    set (bt1 := set_timestamps (timestamps bt ++ [timestamp row]) bt).
    set (snap := _prepare_market_snapshot historical_data (timestamp row)).
    destruct (generate_signal st snap) as [st1 signal].
    destruct signal as [sg|].
    + pose proof (execute_trades bt1 sg snap) as Hlog.
      pose proof (execute_returns bt1 sg snap) as Hret.
      destruct (_execute_backtest_signal bt1 sg snap) as [[] bt2|e bt2].
      2:{ exfalso. simpl in Hret.
          assert (true = false); [|discriminate]. apply Hret.
          subst bt1. simpl. intros Hnil.
          apply app_eq_nil in Hnil as [_ Hnil]. discriminate. }
      simpl in Hlog.
      destruct (IH (set_equity_curve
                      (equity_curve bt2 ++ [_calculate_portfolio_value bt2 snap])
                      bt2) st1)
        as (new & Hnew & Hsub & Hact).
      simpl in Hnew. rewrite Hnew.
      destruct Hlog as [-> | (t & -> & Hnow & Hkind & _)].
      * exists new. split; [reflexivity|].
        split; [apply sublist_cons_r; left; exact Hsub | exact Hact].
      * exists (t :: new). rewrite <- app_assoc. split; [reflexivity|].
        subst bt1. simpl in Hnow. rewrite last_snoc in Hnow.
        injection Hnow as Hnow. simpl. rewrite <- Hnow.
        split; [apply sublist_skip; exact Hsub | constructor; assumption].
    + destruct (IH (set_equity_curve
                      (equity_curve bt1 ++ [_calculate_portfolio_value bt1 snap])
                      bt1) st1)
        as (new & Hnew & Hsub & Hact).
      exists new. split; [exact Hnew|].
      split; [apply sublist_cons_r; left; exact Hsub | exact Hact].
Qed.

End ReplayTrades.

(** X9.  The trades a run returns are the backtester's log, counted by
    [num_trades]; there is at most one per replayed bar, their timestamps
    follow the bars' timestamps in order (each trade is stamped with the
    bar it was filled on), and each is a buy or a sell. *)
Theorem run_logs_at_most_one_trade_per_bar
    (np_std : list num -> num) (np_sqrt : num -> num)
    {St : Type}
    (generate_signal : St -> gmap string SnapshotEntry -> St * option Signal)
    (bt : Backtester) (st : St)
    (primary_symbol : string) (df : list Bar)
    (others : list (string * list Bar))
    (start_date end_date : option Z) :
  let rows := clock df start_date end_date in
  exists res bt',
    run np_std np_sqrt generate_signal bt st
      ((primary_symbol, df) :: others) start_date end_date = Done res bt' /\
    r_trades res = trades bt' /\
    r_num_trades res = length (r_trades res) /\
    (r_num_trades res <= length rows)%nat /\
    map tr_timestamp (r_trades res) `sublist_of` map timestamp rows /\
    Forall (fun t => tr_action t = "buy" \/ tr_action t = "sell")
      (r_trades res).
Proof.
  intros rows. unfold run. fold rows.
  destruct (replay_returns generate_signal ((primary_symbol, df) :: others)
              rows (reset bt) st)
    as (st' & bt' & points & Hrun & _ & Heq & _).
  destruct (replay_trades generate_signal ((primary_symbol, df) :: others)
              rows (reset bt) st)
    as (new & Hnew & Hsub & Hact).
  rewrite Hrun in Hnew |- *. simpl in Hnew, Heq.
  destruct (calculate_metrics_returns np_std np_sqrt bt')
    as (res & Hres & _ & _ & _ & Htr & Hnum & _).
  { rewrite Heq. discriminate. }
  exists res, bt'. split; [exact Hres|].
  rewrite Hnum, Htr, Hnew.
  repeat split; auto.
  apply sublist_length in Hsub. rewrite !length_map in Hsub. exact Hsub.
Qed.

(** ** The maximum drawdown, further *)

(** On a curve that starts positive the minimum of the drawdown series is
    finite, is one of the quotients and bounds them all; every index has
    a running maximum, which is at least the first point. *)
Lemma max_drawdown_finite e0 rest :
  0 < e0 ->
  exists d,
    amin (drawdown_of (array (e0 :: rest))) = Some (Fin d) /\
    (exists i x m,
       (e0 :: rest) !! i = Some x /\ running_max (e0 :: rest) i m /\
       d == (x - m) / m) /\
    (forall i x m,
       (e0 :: rest) !! i = Some x -> running_max (e0 :: rest) i m ->
       d <= (x - m) / m) /\
    (forall i x,
       (e0 :: rest) !! i = Some x -> exists m, running_max (e0 :: rest) i m).
Proof.
  intros He0.
  set (ms := qaccumulate_from e0 rest).
  set (dds := zip_with qdrawdown rest ms).
  set (d := foldl qmin (qdrawdown e0 e0) dds).
  assert (Hbound : forall i m, (e0 :: ms) !! i = Some m ->
                               running_max (e0 :: rest) i m /\ e0 <= m).
  { intros i m. apply running_max_accumulate. }
  assert (Hnonzero : Forall (fun m => ~ m == 0) (e0 :: ms)).
  { apply Forall_forall. intros m Hm.
    apply list_elem_of_lookup in Hm as [i Hi].
    destruct (Hbound i m Hi) as [_ Hle]. lra. }
  assert (Hexists : forall i x, (e0 :: rest) !! i = Some x ->
                                exists m, (e0 :: ms) !! i = Some m).
  { intros i x Hx. apply lookup_lt_is_Some. apply lookup_lt_Some in Hx.
    subst ms. simpl in *. rewrite qaccumulate_from_length. exact Hx. }
  destruct (foldl_qmin_spec dds (qdrawdown e0 e0)) as (Hatt & Hlow & Hall).
  fold d in Hatt, Hlow, Hall.
  exists d. split; [|split; [|split]].
  - unfold drawdown_of. simpl maximum_accumulate.
    rewrite accumulate_from_finite.
    change (Fin e0 :: array (qaccumulate_from e0 rest))
      with (array (e0 :: ms)).
    change (Fin e0 :: array rest) with (array (e0 :: rest)).
    rewrite (drawdown_finite (e0 :: rest) (e0 :: ms) Hnonzero).
    simpl. rewrite foldl_minimum_finite. reflexivity.
  - destruct Hatt as [Hd0 | Hin].
    + exists 0%nat, e0, e0. split; [reflexivity|].
      split; [apply (Hbound 0%nat); reflexivity|].
      rewrite Hd0. reflexivity.
    + apply list_elem_of_lookup in Hin as [k Hk].
      subst dds. apply lookup_zip_with_Some in Hk as (x & m & Hdx & Hx & Hm).
      exists (S k), x, m. split; [exact Hx|].
      split; [apply (Hbound (S k)); exact Hm|].
      rewrite Hdx. reflexivity.
  - intros i x m' Hx Hrun.
    destruct (Hexists i x Hx) as [m Hm].
    destruct (Hbound i m Hm) as [Hrun' _].
    pose proof (running_max_unique _ _ _ _ Hrun' Hrun) as Hsame.
    rewrite <- Hsame.
    destruct i as [|k].
    + simpl in Hx, Hm. injection Hx as <-. injection Hm as <-. exact Hlow.
    + simpl in Hx, Hm. rewrite Forall_forall in Hall. apply Hall.
      apply list_elem_of_lookup. exists k. subst dds.
      apply lookup_zip_with_Some. exists x, m. auto.
  - intros i x Hx. destruct (Hexists i x Hx) as [m Hm].
    exists m. apply (Hbound i m Hm).
Qed.

Lemma running_max_above_first e0 rest i m :
  running_max (e0 :: rest) i m -> e0 <= m.
Proof. intros [_ Hup]. apply (Hup 0%nat); [lia | reflexivity]. Qed.

Lemma Qdiv_nonneg_inv q m : 0 < m -> 0 <= q / m -> 0 <= q.
Proof.
  intros Hm Hq.
  assert (Heq : q == q / m * m) by (field; lra).
  rewrite Heq. apply Qmult_le_0_compat; lra.
Qed.

(** X10.  For an equity curve that starts from a positive capital, the
    maximum drawdown is zero exactly when the curve never falls, and it
    is at least -1 when no equity point is negative. *)
Theorem max_drawdown_range
    (np_std : list num -> num) (np_sqrt : num -> num)
    (bt : Backtester) (e0 : Q) (rest : list Q) :
  equity_curve bt = e0 :: rest ->
  0 < e0 ->
  exists res d,
    _calculate_metrics np_std np_sqrt bt = Done res bt /\
    r_max_drawdown res = Fin d /\
    (d == 0 <-> never_falls (equity_curve bt)) /\
    (Forall (fun x => 0 <= x) (equity_curve bt) -> -1 <= d).
Proof.
  intros Hcurve He0.
  destruct (calculate_metrics_returns np_std np_sqrt bt)
    as (res & Hres & _ & _ & _ & _ & _ & Hmin & _).
  { rewrite Hcurve. discriminate. }
  rewrite Hcurve in *.
  destruct (max_drawdown_finite e0 rest He0)
    as (d & Hd & (i & x & m & Hx & Hrun & Hdx) & Hlow & Hexists).
  rewrite Hd in Hmin. injection Hmin as Hmin.
  exists res, d. split; [exact Hres|]. split; [auto|].
  pose proof (running_max_above_first _ _ _ _ Hrun) as Hm.
  split; [split|].
  - intros Hzero a b xa xb Hab Hxa Hxb.
    destruct (Hexists b xb Hxb) as [mb Hmb].
    pose proof (running_max_above_first _ _ _ _ Hmb) as Hpos.
    pose proof (Hlow b xb mb Hxb Hmb) as Hq. rewrite Hzero in Hq.
    apply Qdiv_nonneg_inv in Hq; [|lra].
    destruct Hmb as [_ Hup]. specialize (Hup a xa Hab Hxa). lra.
  - intros Hmono. rewrite Hdx.
    destruct Hrun as [(j & Hj & Hjm) Hup].
    assert (Hxm : x == m).
    { apply Qle_antisym.
      - apply (Hup i x); [lia | exact Hx].
      - apply (Hmono j i m x Hj Hjm Hx). }
    rewrite Hxm. unfold Qdiv. ring.
  - intros Hnonneg. rewrite Hdx.
    rewrite Forall_forall in Hnonneg.
    assert (0 <= x)
      by (apply Hnonneg; apply list_elem_of_lookup; eauto).
    apply Qle_shift_div_l; lra.
Qed.

Lemma max_drawdown_range_witness :
  0 < 100000 /\
  exists res d,
    _calculate_metrics (fun _ => NaN) (fun _ => NaN)
      (set_equity_curve example_curve (new 100000 0.001 0.0005))
    = Done res (set_equity_curve example_curve (new 100000 0.001 0.0005)) /\
    r_max_drawdown res = Fin d /\
    -1 <= d.
Proof.
  split; [reflexivity|].
  destruct (max_drawdown_range (fun _ => NaN) (fun _ => NaN)
              (set_equity_curve example_curve (new 100000 0.001 0.0005))
              100000 [110000; 90000; 95000] eq_refl eq_refl)
    as (res & d & Hres & Hd & _ & Hlow).
  exists res, d. split; [exact Hres|]. split; [exact Hd|].
  apply Hlow. simpl. repeat constructor; discriminate.
Defined.

(** ** Runs without signals, failing runs, repeated runs *)

Section ReplayIdle.

Context {St : Type}.
Variable generate_signal :
  St -> gmap string SnapshotEntry -> St * option Signal.
Variable historical_data : list (string * list Bar).
Hypothesis never_signals : forall st snap, (generate_signal st snap).2 = None.

(** With nothing held and no signal, every tick records the cash. *)
Lemma replay_idle (rows : list Bar) :
  forall bt st,
    positions bt = ∅ ->
    exists st' bt',
      replay generate_signal historical_data rows bt st = Done st' bt' /\
      capital bt' = capital bt /\
      positions bt' = ∅ /\
      trades bt' = trades bt /\
      initial_capital bt' = initial_capital bt /\
      equity_curve bt'
      = equity_curve bt ++ replicate (length rows) (capital bt).
Proof.
  induction rows as [|row rows IH]; intros bt st Hpos.
  - exists st, bt. simpl. rewrite app_nil_r. auto 10.
  - simpl.
    pose proof (never_signals st
                  (_prepare_market_snapshot historical_data (timestamp row)))
      as Hnone.
    destruct (generate_signal st _) as [st1 signal]. simpl in Hnone. subst signal.
    match goal with
    | |- context [replay _ _ rows ?b st1] =>
        destruct (IH b st1) as (st' & bt' & Hrun & Hcap & Hpos' & Htr & Hic & Heq)
    end; [exact Hpos|].
    exists st', bt'. split; [exact Hrun|].
    simpl in Hcap, Htr, Hic, Heq.
    rewrite Hcap, Htr, Hic, Heq.
    unfold _calculate_portfolio_value. simpl. rewrite Hpos, map_fold_empty.
    rewrite <- app_assoc. auto 10.
Qed.

End ReplayIdle.

Lemma accumulate_from_constant c n :
  accumulate_from (Fin c) (replicate n (Fin c)) = replicate n (Fin c).
Proof.
  induction n as [|n IH]; [reflexivity|]. simpl.
  destruct (Qle_bool c c); simpl; f_equal; exact IH.
Qed.

Lemma foldl_minimum_constant q n :
  foldl minimum (Fin q) (replicate n (Fin q)) = Fin q.
Proof.
  induction n as [|n IH]; [reflexivity|]. simpl.
  destruct (Qle_bool q q); exact IH.
Qed.

(** The drawdown of a curve that stays at a non-zero level is zero. *)
Lemma max_drawdown_constant c n :
  ~ c == 0 ->
  exists d, amin (drawdown_of (array (replicate (S n) c))) = Some d /\
            is_zero d.
Proof.
  intros Hc. unfold drawdown_of, array.
  rewrite fmap_replicate. simpl maximum_accumulate.
  rewrite accumulate_from_constant.
  change (Fin c :: replicate n (Fin c)) with (replicate (S n) (Fin c)).
  rewrite !zip_with_replicate.
  destruct (fdiv_no_change c Hc) as (q & Hq & Hzero).
  rewrite Hq. simpl. rewrite foldl_minimum_constant.
  eexists. split; [reflexivity|]. exists q. auto.
Qed.

(** X11.  When the strategy never signals, a run trades nothing: the
    equity curve stays at the initial capital at every point, the cash and
    the (empty) positions are as [reset] left them, and for a non-zero
    initial capital the total return and the maximum drawdown are zero. *)
Theorem run_without_signals_is_flat
    (np_std : list num -> num) (np_sqrt : num -> num)
    {St : Type}
    (generate_signal : St -> gmap string SnapshotEntry -> St * option Signal)
    (bt : Backtester) (st : St)
    (primary_symbol : string) (df : list Bar)
    (others : list (string * list Bar))
    (start_date end_date : option Z) :
  (forall st snap, (generate_signal st snap).2 = None) ->
  let rows := clock df start_date end_date in
  exists res bt',
    run np_std np_sqrt generate_signal bt st
      ((primary_symbol, df) :: others) start_date end_date = Done res bt' /\
    r_equity_curve res = replicate (S (length rows)) (initial_capital bt) /\
    r_trades res = [] /\
    r_num_trades res = 0%nat /\
    capital bt' = initial_capital bt /\
    positions bt' = ∅ /\
    r_final_value res = Fin (initial_capital bt) /\
    (~ initial_capital bt == 0 ->
     is_zero (r_total_return res) /\ is_zero (r_max_drawdown res)).
Proof.
  intros Hidle rows. unfold run. fold rows.
  destruct (replay_idle generate_signal ((primary_symbol, df) :: others)
              Hidle rows (reset bt) st eq_refl)
    as (st' & bt' & Hrun & Hcap & Hpos & Htr & Hic & Heq).
  rewrite Hrun. simpl in Hcap, Htr, Hic, Heq.
  change (equity_curve bt'
          = replicate (S (length rows)) (initial_capital bt)) in Heq.
  destruct (calculate_metrics_returns np_std np_sqrt bt')
    as (res & Hres & _ & Hcurve & _ & Htrades & Hnum & Hmin & _).
  { rewrite Heq. discriminate. }
  exists res, bt'. split; [exact Hres|].
  rewrite Hcurve, Htrades, Hnum, Htr, Heq.
  do 5 (split; [solve [auto]|]).
  assert (Hfinal : r_final_value res = Fin (initial_capital bt) /\
                   r_total_return res
                   = fdiv (fsub (Fin (initial_capital bt))
                                (Fin (initial_capital bt)))
                          (Fin (initial_capital bt))).
  { unfold _calculate_metrics in Hres. rewrite Heq, Hic in Hres.
    assert (Hlast : last (array (replicate (S (length rows))
                                   (initial_capital bt)))
                    = Some (Fin (initial_capital bt))).
    { unfold array. rewrite fmap_replicate.
      rewrite replicate_S_end, last_snoc. reflexivity. }
    rewrite Hlast in Hres.
    destruct (amin _); [|discriminate].
    injection Hres as <-. simpl. auto. }
  destruct Hfinal as [Hfinal Hreturn].
  split; [exact Hfinal|].
  intros Hnz. split.
  - rewrite Hreturn. apply fdiv_no_change. exact Hnz.
  - rewrite Heq in Hmin.
    destruct (max_drawdown_constant (initial_capital bt) (length rows) Hnz)
      as (d & Hd & Hzero).
    rewrite Hd in Hmin. injection Hmin as <-. exact Hzero.
Qed.

Lemma run_without_signals_is_flat_witness :
  (forall st snap, (idle_strategy st snap).2 = None) /\
  exists res bt',
    run (fun _ => NaN) (fun _ => NaN) idle_strategy
      (new 100000 0.001 0.0005) tt example_data None None = Done res bt' /\
    r_equity_curve res = [100000; 100000; 100000; 100000].
Proof.
  assert (H : forall st snap, (idle_strategy st snap).2 = None)
    by reflexivity.
  split; [exact H|].
  destruct (run_without_signals_is_flat (fun _ => NaN) (fun _ => NaN)
              idle_strategy (new 100000 0.001 0.0005) tt "BTC/USDT"
              [mkBar 1 10 12 9 11 100; mkBar 2 11 13 10 12 110;
               mkBar 3 12 14 11 13 120]
              [("ETH/USDT", [mkBar 3 5 6 4 5 50])] None None H)
    as (res & bt' & Hrun & Hcurve & _).
  exists res, bt'. split; [exact Hrun | exact Hcurve].
Defined.

Section ReplayRaising.

Context {St : Type}.
Variable generate_signal :
  St -> gmap string SnapshotEntry -> option (St * option Signal).
Variable historical_data : list (string * list Bar).

(** The loop itself never fails: it returns, with the curve still seeded,
    or stops where the strategy raised, the tick already on record. *)
Lemma replay_raising_cases (rows : list Bar) :
  forall bt st,
    equity_curve bt <> [] ->
    match replay_raising generate_signal historical_data rows bt st with
    | Returned _ bt' => equity_curve bt' <> []
    | Failed _ _ => False
    | StrategyRaised bt' =>
        exists st' row,
          row ∈ rows /\
          generate_signal st'
            (_prepare_market_snapshot historical_data (timestamp row))
          = None /\
          last (timestamps bt') = Some (timestamp row)
    end.
Proof.
  induction rows as [|row rows IH]; intros bt st Hseed; [exact Hseed|].
  simpl.
  set (bt1 := set_timestamps (timestamps bt ++ [timestamp row]) bt).
  set (snap := _prepare_market_snapshot historical_data (timestamp row)).
  destruct (generate_signal st snap) as [[st1 signal]|] eqn:Hcall.
  - assert (Hexec :
      exists bt2,
        match signal with
        | Some sg => _execute_backtest_signal bt1 sg snap
        | None => Done tt bt1
        end = Done tt bt2 /\
        equity_curve bt2 = equity_curve bt).
    { destruct signal as [sg|]; [|exists bt1; auto].
      pose proof (execute_returns bt1 sg snap) as Hret.
      pose proof (execute_frame bt1 sg snap) as (_ & _ & _ & Hcurve & _).
      destruct (_execute_backtest_signal bt1 sg snap) as [[] bt2|e bt2].
      - exists bt2. auto.
      - simpl in Hret. discriminate Hret. subst bt1. simpl.
        intros Hnil. apply app_eq_nil in Hnil as [_ Hnil]. discriminate. }
    destruct Hexec as (bt2 & -> & Hcurve).
    match goal with
    | |- context [replay_raising _ _ rows ?b st1] =>
        pose proof (IH b st1) as Hrest
    end.
    destruct (replay_raising _ _ rows _ st1) as [st' bt'|e bt'|bt'].
    + apply Hrest. simpl. intros Hnil.
      apply app_eq_nil in Hnil as [_ Hnil]. discriminate.
    + apply Hrest. simpl. intros Hnil.
      apply app_eq_nil in Hnil as [_ Hnil]. discriminate.
    + destruct Hrest as (st' & row' & Hin & Hnone & Hlast).
      { simpl. intros Hnil. apply app_eq_nil in Hnil as [_ Hnil].
        discriminate. }
      exists st', row'. split; [right; exact Hin | auto].
  - exists st, row. split; [left|]. split; [exact Hcall|].
    subst bt1. simpl. apply last_snoc.
Qed.

End ReplayRaising.

(** With a strategy that returns, the loop is the loop of [replay]. *)
Lemma replay_raising_returning {St : Type}
    (generate_signal : St -> gmap string SnapshotEntry -> St * option Signal)
    (historical_data : list (string * list Bar)) (rows : list Bar) :
  forall bt st,
    replay_raising (returning generate_signal) historical_data rows bt st
    = match replay generate_signal historical_data rows bt st with
      | Done st' bt' => Returned st' bt'
      | Raised e bt' => Failed e bt'
      end.
Proof.
  induction rows as [|row rows IH]; intros bt st; [reflexivity|].
  simpl. unfold returning at 1.
  destruct (generate_signal st _) as [st1 signal].
  destruct (match signal with
            | Some sg => _execute_backtest_signal _ sg _
            | None => Done tt _
            end) as [[] bt2|e bt2]; [apply IH | reflexivity].
Qed.

(** X12.  [run] stops with an exception in two ways only: with the
    IndexError of [list(historical_data.keys())[0]], right after the
    reset, exactly when the dataset has no symbol; and with the exception
    of the strategy's [generate_signal], which [run] does not catch, at a
    tick of the clock whose timestamp is already on record.  With a symbol
    in the dataset and a strategy that does not raise, [run] returns a
    result. *)
Theorem run_raises_without_data_or_in_the_strategy
    (np_std : list num -> num) (np_sqrt : num -> num)
    {St : Type}
    (generate_signal :
       St -> gmap string SnapshotEntry -> option (St * option Signal))
    (bt : Backtester) (st : St)
    (historical_data : list (string * list Bar))
    (start_date end_date : option Z) :
  let out := run_raising np_std np_sqrt generate_signal bt st
               historical_data start_date end_date in
  (historical_data = [] -> out = Failed IndexError (reset bt)) /\
  (forall e bt', out = Failed e bt' -> historical_data = []) /\
  (forall bt',
     out = StrategyRaised bt' ->
     exists primary_symbol df others st' row,
       historical_data = (primary_symbol, df) :: others /\
       row ∈ clock df start_date end_date /\
       generate_signal st'
         (_prepare_market_snapshot historical_data (timestamp row))
       = None /\
       last (timestamps bt') = Some (timestamp row)) /\
  (historical_data <> [] ->
   (forall st' snap, generate_signal st' snap <> None) ->
   exists res bt', out = Returned res bt').
Proof.
  intros out. subst out.
  destruct historical_data as [|[primary df] others] eqn:Hdata.
  - split; [reflexivity|]. split; [reflexivity|].
    split; [discriminate | intros Hne; contradiction].
  - split; [discriminate|]. unfold run_raising.
    pose proof (replay_raising_cases generate_signal ((primary, df) :: others)
                  (clock df start_date end_date) (reset bt) st) as Hloop.
    destruct (replay_raising _ _ _ _ st) as [st' bt1|e bt1|bt1].
    + assert (Hseed : equity_curve bt1 <> []) by (apply Hloop; discriminate).
      destruct (calculate_metrics_returns np_std np_sqrt bt1 Hseed)
        as (res & -> & _).
      split; [discriminate|]. split; [discriminate|].
      intros _ _. eauto.
    + exfalso. apply Hloop. discriminate.
    + destruct Hloop as (st' & row & Hin & Hnone & Hlast); [discriminate|].
      split; [discriminate|]. split.
      * intros bt' [= <-]. exists primary, df, others, st', row. auto.
      * intros _ Hreturns. exfalso. exact (Hreturns _ _ Hnone).
Qed.

(** A strategy that raises stops the run at the first tick, after the
    tick's timestamp was appended, and a run without a tick returns
    whatever the strategy. *)
Example run_with_failing_strategy :
  run_raising (fun _ => NaN) (fun _ => NaN) failing_strategy
    (new 100000 0.001 0.0005) tt example_data None None
  = StrategyRaised (set_timestamps [1%Z] (new 100000 0.001 0.0005)) /\
  exists res bt',
    run_raising (fun _ => NaN) (fun _ => NaN) failing_strategy
      (new 100000 0.001 0.0005) tt [("BTC/USDT", [])] None None
    = Returned res bt'.
Proof. split; [reflexivity|]. do 2 eexists. reflexivity. Qed.

Lemma reset_same_settings bt bt' :
  same_settings bt bt' -> reset bt' = reset bt.
Proof. intros (Hic & Hc & Hs). unfold reset. rewrite Hic, Hc, Hs. reflexivity. Qed.

(** X13.  A run starts from the settings alone: on a backtester with the
    same initial capital, commission and slippage, whatever cash,
    positions, trades and curve it carries, [run] gives the same outcome;
    and a run leaves the settings as they were, so a backtester can be
    run again. *)
Theorem run_depends_on_settings_only
    (np_std : list num -> num) (np_sqrt : num -> num)
    {St : Type}
    (generate_signal : St -> gmap string SnapshotEntry -> St * option Signal)
    (bt bt' : Backtester) (st : St)
    (historical_data : list (string * list Bar))
    (start_date end_date : option Z) :
  same_settings bt bt' ->
  run np_std np_sqrt generate_signal bt' st historical_data
    start_date end_date
  = run np_std np_sqrt generate_signal bt st historical_data
      start_date end_date /\
  same_settings bt
    (state_after
       (run np_std np_sqrt generate_signal bt' st historical_data
          start_date end_date)).
Proof.
  intros Hsame. split.
  - unfold run. rewrite (reset_same_settings bt bt' Hsame). reflexivity.
  - apply (run_invariant generate_signal historical_data (same_settings bt)).
    + intros b ts Hb. exact Hb.
    + intros b e Hb. exact Hb.
    + intros b s ts sg (Hic & Hc & Hs) _.
      destruct (execute_frame b sg
                  (_prepare_market_snapshot historical_data ts))
        as (Hic' & Hc' & Hs' & _).
      unfold same_settings. rewrite Hic', Hc', Hs'. auto.
    + exact Hsame.
Qed.

Lemma run_depends_on_settings_only_witness :
  same_settings (new 100000 0.001 0.0005) example_holder /\
  run (fun _ => NaN) (fun _ => NaN) eager_strategy example_holder tt
    one_bar_data None None
  = run (fun _ => NaN) (fun _ => NaN) eager_strategy
      (new 100000 0.001 0.0005) tt one_bar_data None None.
Proof.
  assert (H : same_settings (new 100000 0.001 0.0005) example_holder)
    by (repeat split).
  split; [exact H|].
  apply (run_depends_on_settings_only (fun _ => NaN) (fun _ => NaN)
           eager_strategy (new 100000 0.001 0.0005) example_holder tt
           one_bar_data None None H).
Defined.

(** ** The snapshot along the clock *)

Lemma filter_none {A} (P : A -> Prop) `{!forall x, Decision (P x)} (l : list A) :
  Forall (fun x => ~ P x) l -> filter P l = [].
Proof.
  induction 1 as [|x l Hx _ IH]; [reflexivity|].
  rewrite filter_cons. destruct (decide (P x)); [contradiction | exact IH].
Qed.

Lemma up_to_up_to ts1 ts2 df :
  (ts1 <= ts2)%Z -> up_to ts1 (up_to ts2 df) = up_to ts1 df.
Proof.
  intros Hle. unfold up_to. induction df as [|b df IH]; [reflexivity|].
  rewrite !filter_cons.
  destruct (decide (timestamp b <= ts2)%Z) as [H2|H2];
    destruct (decide (timestamp b <= ts1)%Z) as [H1|H1]; try lia.
  - rewrite filter_cons. destruct (decide (timestamp b <= ts1)%Z); [|lia].
    f_equal. exact IH.
  - rewrite filter_cons. destruct (decide (timestamp b <= ts1)%Z); [lia|].
    exact IH.
  - exact IH.
Qed.

(** The bars of a frame in timestamp order that are at or before a cursor
    are the frame's first bars. *)
Lemma up_to_chronological_prefix ts df :
  chronological df -> up_to ts df `prefix_of` df.
Proof.
  unfold chronological, up_to.
  induction 1 as [|a l Hs IH Hall]; [reflexivity|].
  rewrite filter_cons. destruct (decide (timestamp a <= ts)%Z) as [Hle|Hgt].
  - apply prefix_cons. exact IH.
  - rewrite filter_none; [apply prefix_nil|].
    rewrite Forall_forall in Hall |- *. intros b Hb Hbts.
    specialize (Hall b Hb). simpl in Hall. lia.
Qed.

(** X14.  For a frame in timestamp order, moving the cursor forward only
    appends bars to what the snapshot shows of a symbol: a symbol quoted
    at one cursor is quoted at every later one, its earlier window is a
    prefix of the later window, and every window is a prefix of the
    frame. *)
Theorem snapshot_window_grows
    (historical_data : list (string * list Bar))
    (sym : string) (df : list Bar) (ts1 ts2 : Z) (e1 : SnapshotEntry) :
  NoDup historical_data.*1 ->
  (sym, df) ∈ historical_data ->
  chronological df ->
  (ts1 <= ts2)%Z ->
  _prepare_market_snapshot historical_data ts1 !! sym = Some e1 ->
  exists e2,
    _prepare_market_snapshot historical_data ts2 !! sym = Some e2 /\
    ohlcv e1 `prefix_of` ohlcv e2 /\
    ohlcv e2 `prefix_of` df.
Proof.
  intros Hnd Hin Hsorted Hle. unfold _prepare_market_snapshot.
  rewrite !(snapshot_fold_item _ sym df historical_data ∅ Hnd Hin).
  destruct (last (up_to ts1 df)) as [l1|] eqn:Hl1;
    [|rewrite lookup_empty; discriminate].
  intros [= <-]. simpl.
  assert (Hpre : up_to ts1 df `prefix_of` up_to ts2 df).
  { rewrite <- (up_to_up_to ts1 ts2 df Hle).
    apply up_to_chronological_prefix, chronological_filter. exact Hsorted. }
  destruct (last (up_to ts2 df)) as [l2|] eqn:Hl2.
  - eexists. split; [reflexivity|]. simpl.
    split; [exact Hpre | apply up_to_chronological_prefix; exact Hsorted].
  - exfalso. apply last_None in Hl2. rewrite Hl2 in Hpre.
    apply prefix_nil_inv in Hpre. rewrite Hpre in Hl1. discriminate.
Qed.

Lemma snapshot_window_grows_witness :
  NoDup example_data.*1 /\
  exists e2,
    _prepare_market_snapshot example_data 3 !! "BTC/USDT" = Some e2 /\
    [mkBar 1 10 12 9 11 100] `prefix_of` ohlcv e2.
Proof.
  assert (Hnd : NoDup example_data.*1).
  { simpl. apply NoDup_cons. split; [|apply NoDup_singleton].
    intros Hin. apply list_elem_of_singleton in Hin. discriminate. }
  split; [exact Hnd|].
  destruct (snapshot_window_grows example_data "BTC/USDT"
              [mkBar 1 10 12 9 11 100; mkBar 2 11 13 10 12 110;
               mkBar 3 12 14 11 13 120] 1 3
              (mkEntry (ticker_of (mkBar 1 10 12 9 11 100))
                 [mkBar 1 10 12 9 11 100]) Hnd)
    as (e2 & He2 & Hpre & _).
  - left.
  - unfold chronological. repeat constructor; simpl; lia.
  - lia.
  - reflexivity.
  - exists e2. auto.
Defined.

Lemma NoDup_fmap_inj {A B} (f : A -> B) (l : list A) x y :
  NoDup (f <$> l) -> x ∈ l -> y ∈ l -> f x = f y -> x = y.
Proof.
  induction l as [|a l IH]; intros Hnd Hx Hy Hf.
  - apply elem_of_nil in Hx. contradiction.
  - simpl in Hnd. apply NoDup_cons in Hnd as [Hfresh Hnd].
    apply elem_of_cons in Hx as [-> | Hx];
      apply elem_of_cons in Hy as [-> | Hy]; auto.
    + exfalso. apply Hfresh. rewrite Hf. apply list_elem_of_fmap_2. exact Hy.
    + exfalso. apply Hfresh. rewrite <- Hf. apply list_elem_of_fmap_2. exact Hx.
Qed.

(** X15.  At the tick of any bar of a symbol's frame the snapshot quotes
    that symbol and shows the bar in its window; when the frame is in
    timestamp order with distinct timestamps, the ticker is the one of
    that very bar, so the reference price is its close. *)
Theorem snapshot_at_a_bar_quotes_that_bar
    (historical_data : list (string * list Bar))
    (sym : string) (df : list Bar) (row : Bar) :
  NoDup historical_data.*1 ->
  (sym, df) ∈ historical_data ->
  row ∈ df ->
  exists entry,
    _prepare_market_snapshot historical_data (timestamp row) !! sym
    = Some entry /\
    row ∈ ohlcv entry /\
    (chronological df -> NoDup (timestamp <$> df) ->
     ticker entry = ticker_of row /\ tk_last (ticker entry) = close row).
Proof.
  intros Hnd Hin Hrow. unfold _prepare_market_snapshot.
  rewrite (snapshot_fold_item _ sym df historical_data ∅ Hnd Hin).
  assert (Hmem : row ∈ up_to (timestamp row) df).
  { apply list_elem_of_filter. split; [lia | exact Hrow]. }
  destruct (last (up_to (timestamp row) df)) as [latest|] eqn:Hlast.
  2:{ apply last_None in Hlast. rewrite Hlast in Hmem.
      apply elem_of_nil in Hmem. contradiction. }
  eexists. split; [reflexivity|]. simpl. split; [exact Hmem|].
  intros Hsorted Hdistinct.
  pose proof (last_Some_elem_of _ _ Hlast) as Hlatest.
  apply list_elem_of_filter in Hlatest as [Hts Hlatest].
  assert (Hge : (timestamp row <= timestamp latest)%Z).
  { apply (chronological_last (up_to (timestamp row) df) latest).
    - apply chronological_filter. exact Hsorted.
    - exact Hlast.
    - exact Hmem. }
  assert (latest = row) as ->.
  { apply (NoDup_fmap_inj timestamp df); auto. lia. }
  split; reflexivity.
Qed.

Lemma snapshot_at_a_bar_quotes_that_bar_witness :
  NoDup example_data.*1 /\
  exists entry,
    _prepare_market_snapshot example_data 2 !! "BTC/USDT" = Some entry /\
    mkBar 2 11 13 10 12 110 ∈ ohlcv entry.
Proof.
  assert (Hnd : NoDup example_data.*1).
  { simpl. apply NoDup_cons. split; [|apply NoDup_singleton].
    intros Hin. apply list_elem_of_singleton in Hin. discriminate. }
  split; [exact Hnd|].
  destruct (snapshot_at_a_bar_quotes_that_bar example_data "BTC/USDT"
              [mkBar 1 10 12 9 11 100; mkBar 2 11 13 10 12 110;
               mkBar 3 12 14 11 13 120] (mkBar 2 11 13 10 12 110) Hnd)
    as (entry & Hentry & Hmem & _).
  - left.
  - right. left.
  - exists entry. auto.
Defined.

(** * Properties of the indicators *)

(** ** Rolling means of finite series *)

Lemma foldl_fadd_array a l :
  foldl fadd (Fin a) (array l) = Fin (foldl Qplus a l).
Proof. revert a. induction l as [|x l IH]; intros a; [reflexivity|]. apply IH. Qed.

Lemma asum_array l : asum (array l) = Fin (Qsum l).
Proof. apply foldl_fadd_array. Qed.

Lemma filter_array l :
  filter (fun x => is_nan x = false) (array l) = array l.
Proof.
  induction l as [|x l IH]; [reflexivity|].
  simpl. rewrite filter_cons. simpl. f_equal. exact IH.
Qed.

Lemma array_length l : length (array l) = length l.
Proof. apply length_map. Qed.

Lemma array_take n l : take n (array l) = array (take n l).
Proof.
  revert n. induction l as [|x l IH]; intros [|n]; simpl; try reflexivity.
  f_equal. apply IH.
Qed.

Lemma array_drop n l : drop n (array l) = array (drop n l).
Proof.
  revert n. induction l as [|x l IH]; intros [|n]; simpl; try reflexivity.
  apply IH.
Qed.

Lemma array_lookup l i : array l !! i = Fin <$> l !! i.
Proof.
  revert i. induction l as [|x l IH]; intros [|i]; simpl; try reflexivity.
  apply IH.
Qed.

Lemma window_array w i l : window w i (array l) = array (trailing w i l).
Proof. unfold window, trailing. rewrite array_take, array_drop. reflexivity. Qed.

Lemma trailing_length w i l :
  (i < length l)%nat -> length (trailing w i l) = Nat.min w (i + 1).
Proof.
  intros Hi. unfold trailing. rewrite length_drop, length_take. lia.
Qed.

(** The rolling mean of a finite series at a valid index. *)
Lemma rolling_mean_array w i l :
  (i < length l)%nat ->
  rolling_mean w (array l) !! i
  = Some (if (i + 1 <? w)%nat then NaN
          else fdiv (Fin (Qsum (trailing w i l)))
                    (Fin (inject_Z (Z.of_nat w)))).
Proof.
  intros Hi. unfold rolling_mean. rewrite list_lookup_imap.
  rewrite array_lookup.
  destruct (l !! i) as [x|] eqn:Hx.
  2:{ apply lookup_ge_None in Hx. lia. }
  simpl. f_equal.
  rewrite window_array, filter_array, array_length.
  rewrite (trailing_length w i l Hi).
  destruct (i + 1 <? w)%nat eqn:Hw.
  - apply Nat.ltb_lt in Hw.
    replace (Nat.min w (i + 1) <? w)%nat with true; [reflexivity|].
    symmetry. apply Nat.ltb_lt. lia.
  - apply Nat.ltb_ge in Hw.
    replace (Nat.min w (i + 1) <? w)%nat with false.
    2:{ symmetry. apply Nat.ltb_ge. lia. }
    unfold mean. rewrite asum_array, array_length.
    rewrite (trailing_length w i l Hi).
    replace (Nat.min w (i + 1)) with w by lia. reflexivity.
Qed.

Lemma rolling_mean_length w s : length (rolling_mean w s) = length s.
Proof. unfold rolling_mean. apply length_imap. Qed.

Lemma foldl_Qplus_shift a l : foldl Qplus a l == a + Qsum l.
Proof.
  unfold Qsum. revert a. induction l as [|x l IH]; intros a; simpl.
  - ring.
  - rewrite (IH (a + x)), (IH (0 + x)). ring.
Qed.

Lemma Qsum_cons x l : Qsum (x :: l) == x + Qsum l.
Proof. unfold Qsum at 1. simpl. rewrite foldl_Qplus_shift. ring. Qed.

Lemma inject_length_cons {A} (x : A) (l : list A) :
  inject_Z (Z.of_nat (length (x :: l))) == inject_Z (Z.of_nat (length l)) + 1.
Proof.
  simpl length. rewrite Nat2Z.inj_succ. unfold Z.succ.
  rewrite inject_Z_plus. reflexivity.
Qed.

(** A sum lies between the count times a lower bound and the count times
    an upper bound of its terms. *)
Lemma Qsum_bounds lo hi l :
  Forall (fun x => lo <= x <= hi) l ->
  inject_Z (Z.of_nat (length l)) * lo <= Qsum l /\
  Qsum l <= inject_Z (Z.of_nat (length l)) * hi.
Proof.
  induction 1 as [|x l [Hlo Hhi] _ [IHlo IHhi]].
  - unfold Qsum. simpl. change (inject_Z (Z.of_nat 0)) with 0. split; lra.
  - rewrite Qsum_cons, inject_length_cons, !Qmult_plus_distr_l. split; lra.
Qed.

Lemma inject_nat_pos n : (1 <= n)%nat -> 0 < inject_Z (Z.of_nat n).
Proof.
  intros Hn. change 0 with (inject_Z 0). rewrite <- Zlt_Qlt. lia.
Qed.

(** The mean of [n >= 1] values lies between their bounds. *)
Lemma mean_bounds lo hi l :
  (1 <= length l)%nat ->
  Forall (fun x => lo <= x <= hi) l ->
  lo <= Qsum l / inject_Z (Z.of_nat (length l)) <= hi.
Proof.
  intros Hn Hall. destruct (Qsum_bounds lo hi l Hall) as [Hlo Hhi].
  pose proof (inject_nat_pos _ Hn) as Hpos.
  split.
  - apply Qle_shift_div_l; [exact Hpos|]. lra.
  - apply Qle_shift_div_r; [exact Hpos|]. lra.
Qed.

(** ** The simple moving average *)

(** X16.  [calculate_sma] returns a series as long as its input; at a
    valid index it is NaN while fewer than [period] values have been seen,
    and from then on (for a period of at least 1) it is the sum of the
    last [period] values divided by [period], a finite number between any
    bounds of those values. *)
Theorem sma_warm_up_and_range (data : list Q) (period i : nat) :
  (i < length data)%nat ->
  length (calculate_sma data period) = length data /\
  ((i + 1 < period)%nat -> calculate_sma data period !! i = Some NaN) /\
  ((1 <= period <= i + 1)%nat ->
   exists q,
     calculate_sma data period !! i = Some (Fin q) /\
     length (trailing period i data) = period /\
     q == Qsum (trailing period i data) / inject_Z (Z.of_nat period) /\
     forall lo hi,
       Forall (fun x => lo <= x <= hi) (trailing period i data) ->
       lo <= q <= hi).
Proof.
  intros Hi. unfold calculate_sma.
  split; [rewrite rolling_mean_length; apply array_length|].
  rewrite (rolling_mean_array period i data Hi).
  split.
  - intros Hwarm. apply Nat.ltb_lt in Hwarm. rewrite Hwarm. reflexivity.
  - intros [Hp Hfull].
    assert (Hw : (i + 1 <? period)%nat = false) by (apply Nat.ltb_ge; lia).
    rewrite Hw.
    pose proof (inject_nat_pos period Hp) as Hpos.
    rewrite fdiv_finite by lra.
    assert (Hlen : length (trailing period i data) = period).
    { rewrite (trailing_length period i data Hi). lia. }
    eexists. split; [reflexivity|]. split; [exact Hlen|].
    split; [reflexivity|].
    intros lo hi Hall.
    pose proof (mean_bounds lo hi (trailing period i data)) as Hmean.
    rewrite Hlen in Hmean. apply Hmean; [exact Hp | exact Hall].
Qed.

Lemma sma_warm_up_and_range_witness :
  (2 < length [1; 2; 3; 4])%nat /\
  calculate_sma [1; 2; 3; 4] 4 !! 2%nat = Some NaN /\
  exists q, calculate_sma [1; 2; 3; 4] 2 !! 2%nat = Some (Fin q) /\
            2 <= q <= 3.
Proof.
  assert (Hi : (2 < length [1; 2; 3; 4])%nat) by (simpl; lia).
  split; [exact Hi|]. split.
  - apply (sma_warm_up_and_range [1; 2; 3; 4] 4 2 Hi). lia.
  - destruct (sma_warm_up_and_range [1; 2; 3; 4] 2 2 Hi) as (_ & _ & Hfull).
    destruct Hfull as (q & Hq & _ & _ & Hrange); [lia|].
    exists q. split; [exact Hq|]. apply Hrange.
    repeat constructor; simpl; discriminate.
Defined.

(** ** The RSI: length, range, flat and monotone series *)

Lemma changes_array (data : list Q) :
  diff (array data) = array (changes data).
Proof.
  unfold diff, changes.
  assert (H : forall a b : list Q,
    zip_with (fun prev next => fsub next prev) (array a) (array b)
    = array (zip_with (fun prev next => next - prev) a b)).
  { induction a as [|x a IH]; intros [|y b]; simpl; try reflexivity.
    f_equal. apply IH. }
  destruct data as [|x data]; [reflexivity|]. simpl tail. apply H.
Qed.

(** The series [calculate_rsi] averages are finite: the rises and the
    falls of the input. *)
Lemma rsi_inputs (data : list Q) :
  where_ (fun d => flt (Fin 0) d) (Fin 0) (delta_of data) = array (rises data) /\
  map fneg (where_ (fun d => flt d (Fin 0)) (Fin 0) (delta_of data))
  = array (falls data).
Proof.
  unfold delta_of, series_diff, rises, falls.
  destruct data as [|x data]; [split; reflexivity|].
  change (array (x :: data)) with (Fin x :: array data).
  change (diff (Fin x :: array data)) with (diff (array (x :: data))).
  rewrite changes_array.
  generalize (changes (x :: data)). intros ds.
  unfold where_. simpl. split; f_equal.
  - induction ds as [|d ds IH]; [reflexivity|]. simpl.
    destruct (Qle_bool d 0); simpl; f_equal; exact IH.
  - induction ds as [|d ds IH]; [reflexivity|]. simpl.
    destruct (Qle_bool 0 d); simpl; f_equal; exact IH.
Qed.

Lemma gain_of_rises data period :
  gain_of data period = rolling_mean period (array (rises data)).
Proof. unfold gain_of. rewrite (proj1 (rsi_inputs data)). reflexivity. Qed.

Lemma loss_of_falls data period :
  loss_of data period = rolling_mean period (array (falls data)).
Proof. unfold loss_of. rewrite (proj2 (rsi_inputs data)). reflexivity. Qed.

Lemma changes_length data : length (changes data) = (length data - 1)%nat.
Proof.
  unfold changes. rewrite length_zip_with.
  destruct data as [|x data]; [reflexivity|].
  simpl tail. simpl length. lia.
Qed.

Lemma rises_length data : length (rises data) = length data.
Proof.
  unfold rises. destruct data as [|x data]; [reflexivity|].
  simpl length. rewrite length_map, changes_length. simpl. lia.
Qed.

Lemma falls_length data : length (falls data) = length data.
Proof.
  unfold falls. destruct data as [|x data]; [reflexivity|].
  simpl length. rewrite length_map, changes_length. simpl. lia.
Qed.

Lemma rises_nonneg data : Forall (fun x => 0 <= x) (rises data).
Proof.
  unfold rises. destruct data as [|x data]; constructor; [lra|].
  apply Forall_forall. intros y Hy.
  apply list_elem_of_fmap in Hy as (d & -> & _).
  destruct (Qle_bool d 0) eqn:Hd; simpl; [lra|].
  apply Qle_bool_false in Hd. lra.
Qed.

Lemma falls_nonneg data : Forall (fun x => 0 <= x) (falls data).
Proof.
  unfold falls. destruct data as [|x data]; constructor; [lra|].
  apply Forall_forall. intros y Hy.
  apply list_elem_of_fmap in Hy as (d & -> & _).
  destruct (Qle_bool 0 d) eqn:Hd; simpl; [lra|].
  apply Qle_bool_false in Hd. lra.
Qed.

Lemma Qsum_nonneg l : Forall (fun x => 0 <= x) l -> 0 <= Qsum l.
Proof.
  induction 1 as [|x l Hx _ IH]; [unfold Qsum; simpl; lra|].
  rewrite Qsum_cons. lra.
Qed.

Lemma trailing_Forall (P : Q -> Prop) w i l :
  Forall P l -> Forall P (trailing w i l).
Proof.
  intros Hall. unfold trailing. apply Forall_drop, Forall_take. exact Hall.
Qed.

(** A rolling mean of values that are not negative is NaN or a number
    that is not negative. *)
Lemma rolling_mean_nonneg w l i v :
  Forall (fun x => 0 <= x) l ->
  rolling_mean w (array l) !! i = Some v ->
  v = NaN \/ exists q, v = Fin q /\ 0 <= q.
Proof.
  intros Hall Hv.
  assert (Hi : (i < length l)%nat).
  { apply lookup_lt_Some in Hv.
    rewrite rolling_mean_length, array_length in Hv. exact Hv. }
  rewrite (rolling_mean_array w i l Hi) in Hv. apply (inj Some) in Hv.
  subst v. destruct (i + 1 <? w)%nat; [left; reflexivity|].
  pose proof (Qsum_nonneg _ (trailing_Forall _ w i l Hall)) as Hsum.
  destruct w as [|w].
  - left.
    assert (trailing 0 i l = []) as ->; [|reflexivity].
    apply nil_length_inv. rewrite trailing_length by exact Hi. reflexivity.
  - right. pose proof (inject_nat_pos (S w) ltac:(lia)) as Hpos.
    rewrite fdiv_finite by lra.
    eexists. split; [reflexivity|].
    apply Qle_shift_div_l; [exact Hpos | lra].
Qed.

(** The RSI formula on averages that are not negative. *)
Lemma rsi_formula_range g l :
  0 <= g -> 0 <= l ->
  rsi_of_rs (fdiv (Fin g) (Fin l)) = NaN \/
  exists r, rsi_of_rs (fdiv (Fin g) (Fin l)) = Fin r /\ 0 <= r <= 100.
Proof.
  intros Hg Hl. simpl fdiv.
  destruct (l ?= 0) eqn:Hcmp.
  - unfold signed_inf. destruct (g ?= 0); [left | right | right];
      try reflexivity; exists 100; (split; [reflexivity | lra]).
  - apply Qlt_alt in Hcmp. lra.
  - apply Qgt_alt in Hcmp. right.
    assert (Hrs : 0 <= g / l) by (apply Qle_shift_div_l; lra).
    unfold rsi_of_rs. simpl fadd.
    rewrite fdiv_finite by lra.
    eexists. split; [reflexivity|].
    assert (Hq : 0 <= 100 / (1 + g / l) <= 100).
    { split.
      - apply Qle_shift_div_l; lra.
      - apply Qle_shift_div_r; lra. }
    lra.
Qed.

(** X17.  [calculate_rsi] returns a series as long as its input; every
    value is NaN or a number between 0 and 100; and the value is NaN at
    every index at which fewer than [period] prices have been seen. *)
Theorem rsi_length_and_range (data : list Q) (period : nat) :
  length (calculate_rsi data period) = length data /\
  (forall i v,
     calculate_rsi data period !! i = Some v ->
     v = NaN \/ exists r, v = Fin r /\ 0 <= r <= 100) /\
  (forall i,
     (i < length data)%nat -> (i + 1 < period)%nat ->
     calculate_rsi data period !! i = Some NaN).
Proof.
  unfold calculate_rsi. rewrite gain_of_rises, loss_of_falls.
  split; [|split].
  - rewrite length_map, length_zip_with, !rolling_mean_length, !array_length.
    rewrite rises_length, falls_length. lia.
  - intros i v Hv.
    rewrite list_lookup_fmap, lookup_zip_with in Hv.
    destruct (rolling_mean period (array (rises data)) !! i) as [g|] eqn:Hg;
      [|discriminate].
    destruct (rolling_mean period (array (falls data)) !! i) as [l|] eqn:Hl;
      [|discriminate].
    simpl in Hv. injection Hv as <-.
    destruct (rolling_mean_nonneg _ _ _ _ (rises_nonneg data) Hg)
      as [-> | (qg & -> & Hqg)]; [left; reflexivity|].
    destruct (rolling_mean_nonneg _ _ _ _ (falls_nonneg data) Hl)
      as [-> | (ql & -> & Hql)]; [left; reflexivity|].
    apply rsi_formula_range; assumption.
  - intros i Hi Hwarm.
    rewrite list_lookup_fmap, lookup_zip_with.
    rewrite (rolling_mean_array period i (rises data))
      by (rewrite rises_length; exact Hi).
    rewrite (rolling_mean_array period i (falls data))
      by (rewrite falls_length; exact Hi).
    apply Nat.ltb_lt in Hwarm. rewrite Hwarm. reflexivity.
Qed.

Lemma changes_lookup data i d :
  changes data !! i = Some d ->
  exists x y, data !! i = Some x /\ data !! S i = Some y /\ d = y - x.
Proof.
  unfold changes. intros Hd.
  apply lookup_zip_with_Some in Hd as (x & y & -> & Hx & Hy).
  rewrite lookup_tail in Hy. eauto.
Qed.

Lemma changes_lookup_2 data i x y :
  data !! i = Some x -> data !! S i = Some y ->
  changes data !! i = Some (y - x).
Proof.
  intros Hx Hy. unfold changes. apply lookup_zip_with_Some.
  exists x, y. rewrite lookup_tail. auto.
Qed.

Lemma Qsum_zero l : Forall (fun x => x == 0) l -> Qsum l == 0.
Proof.
  induction 1 as [|x l Hx _ IH]; [reflexivity|].
  rewrite Qsum_cons, Hx, IH. ring.
Qed.

(** A rolling mean of zeros is NaN or zero. *)
Lemma rolling_mean_zero w l i v :
  Forall (fun x => x == 0) l ->
  rolling_mean w (array l) !! i = Some v ->
  v = NaN \/ exists q, v = Fin q /\ q == 0.
Proof.
  intros Hall Hv.
  assert (Hi : (i < length l)%nat).
  { apply lookup_lt_Some in Hv.
    rewrite rolling_mean_length, array_length in Hv. exact Hv. }
  rewrite (rolling_mean_array w i l Hi) in Hv. apply (inj Some) in Hv.
  subst v. destruct (i + 1 <? w)%nat; [left; reflexivity|].
  pose proof (Qsum_zero _ (trailing_Forall _ w i l Hall)) as Hsum.
  destruct w as [|w].
  - left.
    assert (trailing 0 i l = []) as ->; [|reflexivity].
    apply nil_length_inv. rewrite trailing_length by exact Hi. reflexivity.
  - right. pose proof (inject_nat_pos (S w) ltac:(lia)) as Hpos.
    rewrite fdiv_finite by lra.
    eexists. split; [reflexivity|]. rewrite Hsum. unfold Qdiv. ring.
Qed.

Lemma rises_flat data : flat data -> Forall (fun x => x == 0) (rises data).
Proof.
  intros Hflat. unfold rises.
  destruct data as [|x0 data]; constructor; [reflexivity|].
  apply Forall_forall. intros r Hr.
  apply list_elem_of_fmap in Hr as (d & -> & Hd).
  apply list_elem_of_lookup in Hd as [i Hd].
  apply changes_lookup in Hd as (x & y & Hx & Hy & ->).
  pose proof (Hflat i x y Hx Hy) as Hxy.
  destruct (Qle_bool (y - x) 0) eqn:Hle; simpl; [reflexivity|].
  apply Qle_bool_false in Hle. lra.
Qed.

Lemma falls_flat data : flat data -> Forall (fun x => x == 0) (falls data).
Proof.
  intros Hflat. unfold falls.
  destruct data as [|x0 data]; constructor; [reflexivity|].
  apply Forall_forall. intros r Hr.
  apply list_elem_of_fmap in Hr as (d & -> & Hd).
  apply list_elem_of_lookup in Hd as [i Hd].
  apply changes_lookup in Hd as (x & y & Hx & Hy & ->).
  pose proof (Hflat i x y Hx Hy) as Hxy.
  destruct (Qle_bool 0 (y - x)) eqn:Hle; simpl; [reflexivity|].
  apply Qle_bool_false in Hle. lra.
Qed.

(** X18.  On a flat series, of any length and for any period,
    [calculate_rsi] is NaN at every index: the average gain and the
    average loss are both zero wherever they are defined. *)
Theorem rsi_of_flat_series_is_nan (data : list Q) (period i : nat) :
  flat data ->
  (i < length data)%nat ->
  calculate_rsi data period !! i = Some NaN.
Proof.
  intros Hflat Hi. unfold calculate_rsi.
  rewrite gain_of_rises, loss_of_falls.
  rewrite list_lookup_fmap, lookup_zip_with.
  destruct (rolling_mean period (array (rises data)) !! i) as [g|] eqn:Hg.
  2:{ apply lookup_ge_None in Hg.
      rewrite rolling_mean_length, array_length, rises_length in Hg. lia. }
  destruct (rolling_mean period (array (falls data)) !! i) as [l|] eqn:Hl.
  2:{ apply lookup_ge_None in Hl.
      rewrite rolling_mean_length, array_length, falls_length in Hl. lia. }
  simpl. f_equal.
  destruct (rolling_mean_zero _ _ _ _ (rises_flat data Hflat) Hg)
    as [-> | (qg & -> & Hqg)]; [reflexivity|].
  destruct (rolling_mean_zero _ _ _ _ (falls_flat data Hflat) Hl)
    as [-> | (ql & -> & Hql)]; [reflexivity|].
  apply Qeq_alt in Hqg, Hql. simpl. rewrite Hql. unfold signed_inf.
  rewrite Hqg. reflexivity.
Qed.

Lemma rsi_of_flat_series_is_nan_witness :
  flat [7; 7; 7; 7] /\
  calculate_rsi [7; 7; 7; 7] 3 !! 3%nat = Some NaN.
Proof.
  assert (Hflat : flat [7; 7; 7; 7]).
  { intros [|[|[|[|i]]]] x y Hx Hy; simpl in Hx, Hy;
      try discriminate; injection Hx as <-; injection Hy as <-; reflexivity. }
  split; [exact Hflat|].
  apply (rsi_of_flat_series_is_nan [7; 7; 7; 7] 3 3 Hflat). simpl. lia.
Defined.

Lemma Qsum_ge_member l x :
  Forall (fun y => 0 <= y) l -> x ∈ l -> x <= Qsum l.
Proof.
  induction 1 as [|y l Hy Hall IH]; intros Hx.
  - apply elem_of_nil in Hx. contradiction.
  - rewrite Qsum_cons. pose proof (Qsum_nonneg l Hall) as Hsum.
    apply elem_of_cons in Hx as [-> | Hx]; [lra|].
    specialize (IH Hx). lra.
Qed.

(** The window that ends at [i] contains the value at [i]. *)
Lemma trailing_last w i l x :
  (1 <= w)%nat -> l !! i = Some x -> x ∈ trailing w i l.
Proof.
  intros Hw Hx. unfold trailing. apply list_elem_of_lookup.
  exists (i - (i + 1 - w))%nat.
  rewrite lookup_drop, lookup_take_lt by lia.
  replace (i + 1 - w + (i - (i + 1 - w)))%nat with i by lia. exact Hx.
Qed.

(** A rolling mean of values that are not negative is positive where the
    window is full and its last value is positive. *)
Lemma rolling_mean_positive w l i x :
  Forall (fun y => 0 <= y) l ->
  (1 <= w <= i + 1)%nat -> l !! i = Some x -> 0 < x ->
  exists q, rolling_mean w (array l) !! i = Some (Fin q) /\ 0 < q.
Proof.
  intros Hall [Hw Hfull] Hx Hpos.
  assert (Hi : (i < length l)%nat) by (apply lookup_lt_Some in Hx; exact Hx).
  rewrite (rolling_mean_array w i l Hi).
  assert (Hwarm : (i + 1 <? w)%nat = false) by (apply Nat.ltb_ge; lia).
  rewrite Hwarm.
  pose proof (inject_nat_pos w Hw) as Hn.
  rewrite fdiv_finite by lra.
  eexists. split; [reflexivity|].
  pose proof (Qsum_ge_member _ x (trailing_Forall _ w i l Hall)
                (trailing_last w i l x Hw Hx)) as Hsum.
  apply Qlt_shift_div_l; [exact Hn | lra].
Qed.

(** A rolling mean of zeros is zero where the window is full. *)
Lemma rolling_mean_zero_full w l i :
  Forall (fun x => x == 0) l ->
  (1 <= w <= i + 1)%nat -> (i < length l)%nat ->
  exists q, rolling_mean w (array l) !! i = Some (Fin q) /\ q == 0.
Proof.
  intros Hall [Hw Hfull] Hi.
  rewrite (rolling_mean_array w i l Hi).
  assert (Hwarm : (i + 1 <? w)%nat = false) by (apply Nat.ltb_ge; lia).
  rewrite Hwarm.
  pose proof (inject_nat_pos w Hw) as Hn.
  rewrite fdiv_finite by lra.
  eexists. split; [reflexivity|].
  rewrite (Qsum_zero _ (trailing_Forall _ w i l Hall)). unfold Qdiv. ring.
Qed.

Lemma rises_lookup data i x y :
  data !! i = Some x -> data !! S i = Some y ->
  rises data !! S i = Some (if negb (Qle_bool (y - x) 0) then y - x else 0).
Proof.
  intros Hx Hy. unfold rises.
  destruct data as [|x0 data]; [discriminate|].
  change ((0 :: ?l) !! S i) with (l !! i). simpl.
  rewrite list_lookup_fmap, (changes_lookup_2 _ i x y Hx Hy). reflexivity.
Qed.

Lemma falls_lookup data i x y :
  data !! i = Some x -> data !! S i = Some y ->
  falls data !! S i
  = Some (- (if negb (Qle_bool 0 (y - x)) then y - x else 0)).
Proof.
  intros Hx Hy. unfold falls.
  destruct data as [|x0 data]; [discriminate|]. simpl.
  rewrite list_lookup_fmap, (changes_lookup_2 _ i x y Hx Hy). reflexivity.
Qed.

Lemma falls_rising data :
  strictly_rising data -> Forall (fun x => x == 0) (falls data).
Proof.
  intros Hup. unfold falls.
  destruct data as [|x0 data]; constructor; [reflexivity|].
  apply Forall_forall. intros r Hr.
  apply list_elem_of_fmap in Hr as (d & -> & Hd).
  apply list_elem_of_lookup in Hd as [i Hd].
  apply changes_lookup in Hd as (x & y & Hx & Hy & ->).
  pose proof (Hup i x y Hx Hy) as Hxy.
  destruct (Qle_bool 0 (y - x)) eqn:Hle; simpl; [reflexivity|].
  apply Qle_bool_false in Hle. lra.
Qed.

Lemma rises_falling data :
  strictly_falling data -> Forall (fun x => x == 0) (rises data).
Proof.
  intros Hdown. unfold rises.
  destruct data as [|x0 data]; constructor; [reflexivity|].
  apply Forall_forall. intros r Hr.
  apply list_elem_of_fmap in Hr as (d & -> & Hd).
  apply list_elem_of_lookup in Hd as [i Hd].
  apply changes_lookup in Hd as (x & y & Hx & Hy & ->).
  pose proof (Hdown i x y Hx Hy) as Hxy.
  destruct (Qle_bool (y - x) 0) eqn:Hle; simpl; [reflexivity|].
  apply Qle_bool_false in Hle. lra.
Qed.

(** X19.  Past the first price and once [period] prices have been seen,
    [calculate_rsi] is exactly 100 on a strictly rising series and zero
    on a strictly falling one. *)
Theorem rsi_of_monotone_series (data : list Q) (period i : nat) :
  (1 <= i)%nat ->
  (i < length data)%nat ->
  (1 <= period <= i + 1)%nat ->
  (strictly_rising data ->
   calculate_rsi data period !! i = Some (Fin 100)) /\
  (strictly_falling data ->
   exists r, calculate_rsi data period !! i = Some (Fin r) /\ r == 0).
Proof.
  intros Hi1 Hi Hperiod.
  destruct i as [|k]; [lia|].
  destruct (data !! k) as [x|] eqn:Hx.
  2:{ apply lookup_ge_None in Hx. lia. }
  destruct (data !! S k) as [y|] eqn:Hy.
  2:{ apply lookup_ge_None in Hy. lia. }
  unfold calculate_rsi. rewrite gain_of_rises, loss_of_falls.
  rewrite list_lookup_fmap, lookup_zip_with.
  split.
  - intros Hup. pose proof (Hup k x y Hx Hy) as Hxy.
    destruct (rolling_mean_positive period (rises data) (S k) (y - x)
                (rises_nonneg data) Hperiod) as (g & -> & Hg).
    { rewrite (rises_lookup data k x y Hx Hy).
      assert (Hle : Qle_bool (y - x) 0 = false)
        by (apply Qle_bool_false; lra).
      rewrite Hle. reflexivity. }
    { lra. }
    destruct (rolling_mean_zero_full period (falls data) (S k)
                (falls_rising data Hup) Hperiod) as (l & -> & Hl).
    { rewrite falls_length. exact Hi. }
    simpl. f_equal. apply Qeq_alt in Hl. apply Qgt_alt in Hg.
    rewrite Hl. unfold signed_inf. rewrite Hg. reflexivity.
  - intros Hdown. pose proof (Hdown k x y Hx Hy) as Hxy.
    destruct (rolling_mean_zero_full period (rises data) (S k)
                (rises_falling data Hdown) Hperiod) as (g & -> & Hg).
    { rewrite rises_length. exact Hi. }
    destruct (rolling_mean_positive period (falls data) (S k) (- (y - x))
                (falls_nonneg data) Hperiod) as (l & -> & Hl).
    { rewrite (falls_lookup data k x y Hx Hy).
      assert (Hle : Qle_bool 0 (y - x) = false)
        by (apply Qle_bool_false; lra).
      rewrite Hle. reflexivity. }
    { lra. }
    cbn [fmap option_fmap option_map mbind option_bind].
    rewrite fdiv_finite by lra.
    unfold rsi_of_rs. simpl fadd.
    assert (Hrs : g / l == 0) by (rewrite Hg; unfold Qdiv; ring).
    rewrite fdiv_finite by (intros Hbad; lra).
    eexists. split; [reflexivity|]. rewrite Hrs. reflexivity.
Qed.

Lemma rsi_of_monotone_series_witness :
  (1 <= 2)%nat /\ (2 < length [1; 2; 4; 8])%nat /\
  calculate_rsi [1; 2; 4; 8] 2 !! 2%nat = Some (Fin 100).
Proof.
  assert (H1 : (1 <= 2)%nat) by lia.
  assert (H2 : (2 < length [1; 2; 4; 8])%nat) by (simpl; lia).
  split; [exact H1|]. split; [exact H2|].
  apply (rsi_of_monotone_series [1; 2; 4; 8] 2 2 H1 H2); [lia|].
  intros [|[|[|[|i]]]] x y Hx Hy; simpl in Hx, Hy;
    try discriminate; injection Hx as <-; injection Hy as <-; reflexivity.
Defined.

(** ** The exponential moving average and the MACD *)

Lemma ewm_alpha_range span :
  (1 <= span)%nat -> 0 < ewm_alpha span <= 1.
Proof.
  intros Hspan. unfold ewm_alpha.
  pose proof (inject_nat_pos span Hspan) as Hpos.
  assert (Hone : 1 <= inject_Z (Z.of_nat span)).
  { change 1 with (inject_Z 1). rewrite <- Zle_Qle. lia. }
  split.
  - apply Qlt_shift_div_l; lra.
  - apply Qle_shift_div_r; lra.
Qed.

Lemma ewm_from_length alpha prev xs :
  length (ewm_from alpha prev xs) = length xs.
Proof. revert prev. induction xs; intros; simpl; auto. Qed.

(** A weighted mean of two values between two bounds lies between the
    bounds. *)
Lemma convex_between alpha lo hi a b :
  0 <= alpha <= 1 -> lo <= a <= hi -> lo <= b <= hi ->
  lo <= (1 - alpha) * a + alpha * b <= hi.
Proof.
  intros [Ha0 Ha1] [Hla Hha] [Hlb Hhb].
  assert (H1 : 0 <= (1 - alpha) * (a - lo)) by (apply Qmult_le_0_compat; lra).
  assert (H2 : 0 <= alpha * (b - lo)) by (apply Qmult_le_0_compat; lra).
  assert (H3 : 0 <= (1 - alpha) * (hi - a)) by (apply Qmult_le_0_compat; lra).
  assert (H4 : 0 <= alpha * (hi - b)) by (apply Qmult_le_0_compat; lra).
  split.
  - assert (Heq : (1 - alpha) * a + alpha * b - lo
                  == (1 - alpha) * (a - lo) + alpha * (b - lo)) by ring.
    lra.
  - assert (Heq : hi - ((1 - alpha) * a + alpha * b)
                  == (1 - alpha) * (hi - a) + alpha * (hi - b)) by ring.
    lra.
Qed.

Lemma ewm_from_range alpha lo hi xs :
  0 <= alpha <= 1 ->
  Forall (fun x => lo <= x <= hi) xs ->
  forall prev, lo <= prev <= hi ->
    Forall (fun y => lo <= y <= hi) (ewm_from alpha prev xs).
Proof.
  intros Halpha. induction 1 as [|x xs Hx _ IH]; intros prev Hprev;
    simpl; constructor.
  - apply convex_between; assumption.
  - apply IH. apply convex_between; assumption.
Qed.

Lemma ewm_mean_length span data : length (ewm_mean span data) = length data.
Proof.
  unfold ewm_mean. destruct data; simpl; [reflexivity|].
  rewrite ewm_from_length. reflexivity.
Qed.

Lemma ewm_mean_range span lo hi data :
  (1 <= span)%nat ->
  Forall (fun x => lo <= x <= hi) data ->
  Forall (fun y => lo <= y <= hi) (ewm_mean span data).
Proof.
  intros Hspan Hall. unfold ewm_mean.
  destruct Hall as [|x xs Hx Hxs]; constructor; [exact Hx|].
  pose proof (ewm_alpha_range span Hspan) as [Ha0 Ha1].
  apply ewm_from_range; auto. split; lra.
Qed.



Lemma calculate_ema_ok data period :
  (1 <= period)%nat -> calculate_ema data period = inr (ewm_mean period data).
Proof.
  intros Hperiod. unfold calculate_ema.
  assert (Hok : (period <? 1)%nat = false) by (apply Nat.ltb_ge; exact Hperiod).
  rewrite Hok. reflexivity.
Qed.

Lemma calculate_macd_ok data f s g :
  (1 <= f)%nat -> (1 <= s)%nat -> (1 <= g)%nat ->
  calculate_macd data f s g
  = inr (zip_with Qminus (ewm_mean f data) (ewm_mean s data),
         ewm_mean g (zip_with Qminus (ewm_mean f data) (ewm_mean s data)),
         zip_with Qminus
           (zip_with Qminus (ewm_mean f data) (ewm_mean s data))
           (ewm_mean g (zip_with Qminus (ewm_mean f data) (ewm_mean s data)))).
Proof.
  intros Hf Hs Hg. unfold calculate_macd.
  rewrite !calculate_ema_ok by assumption. reflexivity.
Qed.

Lemma all_equal_between c a :
  all_equal_to c a <-> Forall (fun x => c <= x <= c) a.
Proof.
  unfold all_equal_to. split; intros H; eapply Forall_impl; try exact H;
    simpl; intros x Hx; [split; lra | lra].
Qed.

Lemma zip_minus_equal c a b :
  all_equal_to c a -> all_equal_to c b ->
  all_equal_to 0 (zip_with Qminus a b).
Proof.
  unfold all_equal_to. intros Ha. revert b.
  induction Ha as [|x a Hx _ IH]; intros b Hb; [constructor|].
  destruct Hb as [|y b Hy Hb]; simpl; constructor; [lra | apply IH; exact Hb].
Qed.

(** X21.  With periods of at least 1, [calculate_macd] returns three
    series as long as its input, and on a flat series (all prices equal)
    the MACD line, the signal line and the histogram are zero everywhere;
    a period of 0 makes it raise ValueError. *)
Theorem macd_of_flat_series_is_zero
    (data : list Q) (c : Q) (fast slow signal_period : nat) :
  (1 <= fast)%nat -> (1 <= slow)%nat -> (1 <= signal_period)%nat ->
  calculate_macd data 0 slow signal_period = inl ValueError /\
  exists macd signal histogram,
    calculate_macd data fast slow signal_period
    = inr (macd, signal, histogram) /\
    length macd = length data /\
    length signal = length data /\
    length histogram = length data /\
    (all_equal_to c data ->
     all_equal_to 0 macd /\ all_equal_to 0 signal /\
     all_equal_to 0 histogram).
Proof.
  intros Hf Hs Hg. split; [reflexivity|].
  rewrite (calculate_macd_ok data fast slow signal_period Hf Hs Hg).
  do 3 eexists. split; [reflexivity|].
  assert (Hlen : length (zip_with Qminus (ewm_mean fast data)
                           (ewm_mean slow data)) = length data).
  { rewrite length_zip_with, !ewm_mean_length. lia. }
  split; [exact Hlen|].
  split; [rewrite ewm_mean_length; exact Hlen|].
  split; [rewrite length_zip_with, ewm_mean_length, Hlen; lia|].
  intros Hflat. apply all_equal_between in Hflat.
  assert (Hmacd : all_equal_to 0
                    (zip_with Qminus (ewm_mean fast data) (ewm_mean slow data))).
  { apply (zip_minus_equal c); apply all_equal_between;
      apply ewm_mean_range; assumption. }
  assert (Hsignal : all_equal_to 0
                      (ewm_mean signal_period
                         (zip_with Qminus (ewm_mean fast data)
                            (ewm_mean slow data)))).
  { apply all_equal_between. apply ewm_mean_range; [exact Hg|].
    apply all_equal_between. exact Hmacd. }
  split; [exact Hmacd|]. split; [exact Hsignal|].
  apply (zip_minus_equal 0); assumption.
Qed.

Lemma macd_of_flat_series_is_zero_witness :
  (1 <= 12)%nat /\
  exists macd signal histogram,
    calculate_macd [5; 5; 5] 12 26 9 = inr (macd, signal, histogram) /\
    all_equal_to 0 macd.
Proof.
  assert (H : (1 <= 12)%nat) by lia.
  split; [exact H|].
  destruct (macd_of_flat_series_is_zero [5; 5; 5] 5 12 26 9 H)
    as (_ & macd & signal & hist & Hrun & _ & _ & _ & Hzero); try lia.
  exists macd, signal, hist. split; [exact Hrun|].
  apply Hzero. repeat constructor.
Defined.

Lemma ewm_from_shifted alpha k xs' xs :
  shifted_by k xs' xs ->
  forall prev' prev, prev' == prev + k ->
    shifted_by k (ewm_from alpha prev' xs') (ewm_from alpha prev xs).
Proof.
  unfold shifted_by. induction 1 as [|x' x xs' xs Hx _ IH];
    intros prev' prev Hprev; simpl; constructor.
  - rewrite Hprev, Hx. ring.
  - apply IH. rewrite Hprev, Hx. ring.
Qed.

Lemma ewm_mean_shifted span k xs' xs :
  shifted_by k xs' xs -> shifted_by k (ewm_mean span xs') (ewm_mean span xs).
Proof.
  intros Hs. unfold ewm_mean. destruct Hs as [|x' x xs' xs Hx Hxs];
    constructor; [exact Hx|].
  apply ewm_from_shifted; assumption.
Qed.

Lemma zip_minus_shifted k1 k2 a' a b' b :
  shifted_by k1 a' a -> shifted_by k2 b' b ->
  shifted_by (k1 - k2) (zip_with Qminus a' b') (zip_with Qminus a b).
Proof.
  unfold shifted_by. intros Ha. revert b' b.
  induction Ha as [|x' x a' a Hx _ IH]; intros b' b Hb; [constructor|].
  destruct Hb as [|y' y b' b Hy Hb]; simpl; constructor.
  - rewrite Hx, Hy. ring.
  - apply IH. exact Hb.
Qed.

Lemma shifted_by_zero a' a : shifted_by 0 a' a -> same_values a' a.
Proof.
  unfold shifted_by, same_values. intros H. eapply Forall2_impl; [exact H|].
  simpl. intros x y Hxy. rewrite Hxy. ring.
Qed.

Lemma shifted_by_proper k k' a' a :
  k == k' -> shifted_by k a' a -> shifted_by k' a' a.
Proof.
  unfold shifted_by. intros Hk H. eapply Forall2_impl; [exact H|].
  simpl. intros x y Hxy. rewrite Hxy, Hk. reflexivity.
Qed.

Lemma shifted_by_map k data :
  shifted_by k (map (fun x => x + k) data) data.
Proof.
  unfold shifted_by. induction data; simpl; constructor; [reflexivity | auto].
Qed.

(** X22.  In exact arithmetic [calculate_macd] does not see the price
    level: adding the same amount to every price leaves the MACD line, the
    signal line and the histogram unchanged, value by value.  On doubles
    the series do change: with periods 2 and 3 the recurrence gives the
    MACD line [0, 0.3333333333333335, 0.11111111111111116] on [1, 3, 2]
    and [0, 0.3333333333333286, 0.11111111111111427] on
    [101, 103, 102]. *)
Theorem macd_ignores_price_level
    (data : list Q) (k : Q) (fast slow signal_period : nat) :
  (1 <= fast)%nat -> (1 <= slow)%nat -> (1 <= signal_period)%nat ->
  exists macd signal histogram macd' signal' histogram',
    calculate_macd data fast slow signal_period
    = inr (macd, signal, histogram) /\
    calculate_macd (map (fun x => x + k) data) fast slow signal_period
    = inr (macd', signal', histogram') /\
    same_values macd' macd /\
    same_values signal' signal /\
    same_values histogram' histogram /\
    Rounded.macd_lines_differ.
Proof.
  intros Hf Hs Hg.
  rewrite !calculate_macd_ok by assumption.
  do 6 eexists. split; [reflexivity|]. split; [reflexivity|].
  assert (Hdoubles : Rounded.macd_lines_differ)
    by (vm_compute; split; reflexivity).
  pose proof (shifted_by_map k data) as Hdata.
  assert (Hmacd : shifted_by 0
    (zip_with Qminus (ewm_mean fast (map (fun x => x + k) data))
       (ewm_mean slow (map (fun x => x + k) data)))
    (zip_with Qminus (ewm_mean fast data) (ewm_mean slow data))).
  { apply (shifted_by_proper (k - k)); [ring|].
    apply zip_minus_shifted; apply ewm_mean_shifted; exact Hdata. }
  pose proof (ewm_mean_shifted signal_period 0 _ _ Hmacd) as Hsignal.
  split; [apply shifted_by_zero; exact Hmacd|].
  split; [apply shifted_by_zero; exact Hsignal|].
  split; [|exact Hdoubles].
  apply shifted_by_zero. apply (shifted_by_proper (0 - 0)); [ring|].
  apply zip_minus_shifted; assumption.
Qed.

Lemma macd_ignores_price_level_witness :
  (1 <= 2)%nat /\
  exists macd macd' rest rest',
    calculate_macd [1; 3; 2] 2 3 2 = inr (macd, rest.1, rest.2) /\
    calculate_macd (map (fun x => x + 100) [1; 3; 2]) 2 3 2
    = inr (macd', rest'.1, rest'.2) /\
    same_values macd' macd.
Proof.
  assert (H : (1 <= 2)%nat) by lia.
  split; [exact H|].
  destruct (macd_ignores_price_level [1; 3; 2] 100 2 3 2 H)
    as (m & s & h & m' & s' & h' & Hrun & Hrun' & Hm & _); try lia.
  exists m, m', (s, h), (s', h'). auto.
Defined.

(** ** Normalisation and returns *)

Lemma foldl_min_spec (rest : list Q) :
  forall x,
    let m := foldl (fun a b => if Qle_bool a b then a else b) x rest in
    m ∈ x :: rest /\ Forall (fun y => m <= y) (x :: rest).
Proof.
  induction rest as [|y rest IH]; intros x; simpl.
  - split; [left | repeat constructor; lra].
  - destruct (IH (if Qle_bool x y then x else y)) as [Hin Hall].
    apply Forall_cons in Hall as [Hhead Hall].
    destruct (Qle_bool x y) eqn:Hxy.
    + apply Qle_bool_iff in Hxy. split.
      * apply elem_of_cons in Hin as [-> | Hin]; [left | right; right; exact Hin].
      * constructor; [exact Hhead|]. constructor; [lra | exact Hall].
    + apply Qle_bool_false in Hxy. split.
      * apply elem_of_cons in Hin as [-> | Hin];
          [right; left | right; right; exact Hin].
      * constructor; [lra|]. constructor; [exact Hhead | exact Hall].
Qed.

Lemma foldl_max_spec (rest : list Q) :
  forall x,
    let m := foldl (fun a b => if Qle_bool a b then b else a) x rest in
    m ∈ x :: rest /\ Forall (fun y => y <= m) (x :: rest).
Proof.
  induction rest as [|y rest IH]; intros x; simpl.
  - split; [left | repeat constructor; lra].
  - destruct (IH (if Qle_bool x y then y else x)) as [Hin Hall].
    apply Forall_cons in Hall as [Hhead Hall].
    destruct (Qle_bool x y) eqn:Hxy.
    + apply Qle_bool_iff in Hxy. split.
      * apply elem_of_cons in Hin as [-> | Hin];
          [right; left | right; right; exact Hin].
      * constructor; [lra|]. constructor; [exact Hhead | exact Hall].
    + apply Qle_bool_false in Hxy. split.
      * apply elem_of_cons in Hin as [-> | Hin]; [left | right; right; exact Hin].
      * constructor; [exact Hhead|]. constructor; [lra | exact Hall].
Qed.

Lemma overflow_threshold_pos : 0 < overflow_threshold.
Proof. reflexivity. Qed.

Lemma fsub_range_cases a b :
  (a - b < overflow_threshold /\ - overflow_threshold < a - b /\
   fsub_range a b = Fin (a - b)) \/
  (overflow_threshold <= a - b /\ fsub_range a b = PInf) \/
  (a - b <= - overflow_threshold /\ fsub_range a b = NInf).
Proof.
  unfold fsub_range. pose proof overflow_threshold_pos as Hpos.
  destruct (Qle_bool overflow_threshold (a - b)) eqn:Hhigh.
  - apply Qle_bool_iff in Hhigh. right; left. auto.
  - apply Qle_bool_false in Hhigh.
    destruct (Qle_bool (a - b) (- overflow_threshold)) eqn:Hlow.
    + apply Qle_bool_iff in Hlow. right; right. auto.
    + apply Qle_bool_false in Hlow. left. auto.
Qed.

(** X23.  [normalize_data] returns a series as long as its input whose
    values are NaN or numbers between 0 and 1; when all input values are
    equal every output is 0.5.  When the input has two different values
    and no two of its values are [2^1024 - 2^970] or more apart, every
    output is a number between 0 and 1, some position (a minimum of the
    input) is mapped to 0 and some position (a maximum) to 1.  When two
    values are that far apart, [max - min] overflows: every output is 0
    or NaN, and it is NaN at a maximum. *)
Theorem normalize_data_range (data : list Q) :
  length (normalize_data data) = length data /\
  (forall i v,
     normalize_data data !! i = Some v ->
     v = NaN \/ exists q, v = Fin q /\ 0 <= q <= 1) /\
  (forall c i,
     all_equal_to c data -> (i < length data)%nat ->
     normalize_data data !! i = Some (Fin 0.5)) /\
  (forall x y,
     x ∈ data -> y ∈ data -> x < y ->
     (forall a b, a ∈ data -> b ∈ data -> b - a < overflow_threshold) ->
     (forall i v,
        normalize_data data !! i = Some v ->
        exists q, v = Fin q /\ 0 <= q <= 1) /\
     (exists i q, normalize_data data !! i = Some (Fin q) /\ q == 0) /\
     (exists j q, normalize_data data !! j = Some (Fin q) /\ q == 1)) /\
  (forall x y,
     x ∈ data -> y ∈ data -> overflow_threshold <= y - x ->
     (forall i v,
        normalize_data data !! i = Some v -> v = NaN \/ v = Fin 0) /\
     (exists j, normalize_data data !! j = Some NaN)).
Proof.
  pose proof overflow_threshold_pos as Hpos.
  destruct data as [|x0 rest]; [|].
  { split; [reflexivity|]. split; [intros i v H; discriminate|].
    split; [intros c i _ Hi; simpl in Hi; lia|].
    split; intros x y Hx; apply elem_of_nil in Hx; contradiction. }
  unfold normalize_data.
  destruct (foldl_min_spec rest x0) as [Hmin_in Hmin].
  destruct (foldl_max_spec rest x0) as [Hmax_in Hmax].
  set (lo := foldl (fun a b => if Qle_bool a b then a else b) x0 rest) in *.
  set (hi := foldl (fun a b => if Qle_bool a b then b else a) x0 rest) in *.
  rewrite Forall_forall in Hmin, Hmax.
  assert (Hlohi : lo <= hi) by (apply Hmin; exact Hmax_in).
  destruct (Qeq_bool hi lo) eqn:Hsame.
  - apply Qeq_bool_eq in Hsame.
    split; [apply length_replicate|].
    split; [|split; [|split]].
    + intros i v Hv. apply lookup_replicate_1 in Hv as [-> _].
      right. exists 0.5. split; [reflexivity|]. split; discriminate.
    + intros c i _ Hi. apply lookup_replicate_2. exact Hi.
    + intros x y Hx Hy Hxy. exfalso.
      pose proof (Hmin x Hx). pose proof (Hmax y Hy). lra.
    + intros x y Hx Hy Hfar. exfalso.
      pose proof (Hmin x Hx). pose proof (Hmax y Hy). lra.
  - apply Qeq_bool_neq in Hsame.
    assert (Hgap : 0 < hi - lo).
    { destruct (Qle_lt_or_eq lo hi Hlohi) as [Hlt | Heq]; [lra|].
      exfalso. apply Hsame. lra. }
    assert (Hlookup : forall i v,
      map (fun v => fdiv (fsub_range v lo) (fsub_range hi lo)) (x0 :: rest)
        !! i = Some v ->
      exists d, d ∈ x0 :: rest /\ lo <= d <= hi /\
                v = fdiv (fsub_range d lo) (fsub_range hi lo)).
    { intros i v Hv.
      change (map ?f ?l) with (f <$> l) in Hv.
      rewrite list_lookup_fmap in Hv.
      destruct ((x0 :: rest) !! i) as [d|] eqn:Hd; [|discriminate].
      cbn [fmap option_fmap option_map] in Hv.
      apply (inj Some) in Hv.
      assert (Hdin : d ∈ x0 :: rest) by (apply list_elem_of_lookup; eauto).
      exists d. split; [exact Hdin|]. split; [|symmetry; exact Hv].
      split; [apply Hmin | apply Hmax]; exact Hdin. }
    assert (Hat : forall d, d ∈ x0 :: rest ->
      exists i,
        map (fun v => fdiv (fsub_range v lo) (fsub_range hi lo)) (x0 :: rest)
          !! i = Some (fdiv (fsub_range d lo) (fsub_range hi lo))).
    { intros d Hd. apply list_elem_of_lookup in Hd as [i Hi]. exists i.
      change (map ?f ?l) with (f <$> l).
      rewrite list_lookup_fmap, Hi. reflexivity. }
    assert (Hinside : forall d,
      lo <= d <= hi -> hi - lo < overflow_threshold ->
      fdiv (fsub_range d lo) (fsub_range hi lo)
      = Fin ((d - lo) / (hi - lo))).
    { intros d [Hd1 Hd2] Hfit.
      destruct (fsub_range_cases d lo)
        as [(_ & _ & ->) | [(Hbad & _) | (Hbad & _)]]; [|lra|lra].
      destruct (fsub_range_cases hi lo)
        as [(_ & _ & ->) | [(Hbad & _) | (Hbad & _)]]; [|lra|lra].
      apply fdiv_finite. lra. }
    assert (Hunit : forall d,
      lo <= d <= hi -> 0 <= (d - lo) / (hi - lo) <= 1).
    { intros d [Hd1 Hd2]. split.
      - apply Qle_shift_div_l; lra.
      - apply Qle_shift_div_r; lra. }
    assert (Hbeyond : forall d,
      lo <= d <= hi -> overflow_threshold <= hi - lo ->
      fdiv (fsub_range d lo) (fsub_range hi lo) = NaN \/
      fdiv (fsub_range d lo) (fsub_range hi lo) = Fin 0).
    { intros d [Hd1 Hd2] Hfar.
      destruct (fsub_range_cases hi lo)
        as [(Hbad & _) | [(_ & ->) | (Hbad & _)]]; [lra| |lra].
      destruct (fsub_range_cases d lo)
        as [(_ & _ & ->) | [(_ & ->) | (Hbad & _)]]; [right|left|lra];
        reflexivity. }
    split; [apply length_map|].
    split; [|split; [|split]].
    + intros i v Hv. destruct (Hlookup i v Hv) as (d & _ & Hd & ->).
      destruct (Qlt_le_dec (hi - lo) overflow_threshold) as [Hfit | Hfar].
      * right. rewrite (Hinside d Hd Hfit). eexists. split; [reflexivity|].
        apply Hunit. exact Hd.
      * destruct (Hbeyond d Hd Hfar) as [-> | ->]; [left; reflexivity|].
        right. exists 0. split; [reflexivity|]. split; discriminate.
    + intros c i Hall Hi. exfalso. apply Hsame.
      unfold all_equal_to in Hall. rewrite Forall_forall in Hall.
      rewrite (Hall hi Hmax_in), (Hall lo Hmin_in). reflexivity.
    + intros x y _ _ _ Hfits.
      pose proof (Hfits lo hi Hmin_in Hmax_in) as Hfit.
      split; [|split].
      * intros i v Hv. destruct (Hlookup i v Hv) as (d & _ & Hd & ->).
        rewrite (Hinside d Hd Hfit). eexists. split; [reflexivity|].
        apply Hunit. exact Hd.
      * destruct (Hat lo Hmin_in) as [i Hi]. exists i. eexists.
        rewrite Hi, (Hinside lo) by first [exact Hfit | split; lra].
        split; [reflexivity|]. unfold Qdiv. ring.
      * destruct (Hat hi Hmax_in) as [j Hj]. exists j. eexists.
        rewrite Hj, (Hinside hi) by first [exact Hfit | split; lra].
        split; [reflexivity|]. field. lra.
    + intros x y Hx Hy Hfar.
      assert (Hfar' : overflow_threshold <= hi - lo).
      { pose proof (Hmin x Hx). pose proof (Hmax y Hy). lra. }
      split.
      * intros i v Hv. destruct (Hlookup i v Hv) as (d & _ & Hd & ->).
        apply Hbeyond; assumption.
      * destruct (Hat hi Hmax_in) as [j Hj]. exists j. rewrite Hj. f_equal.
        destruct (fsub_range_cases hi lo)
          as [(Hbad & _) | [(_ & ->) | (Hbad & _)]]; [lra| |lra].
        reflexivity.
Qed.

(** The halves of the binary64 range: the maximum comes out as NaN, the
    minimum as 0. *)
Example normalize_data_overflow :
  normalize_data [inject_Z (2 ^ 1023); inject_Z (- 2 ^ 1023)]
  = [NaN; Fin 0].
Proof. vm_compute. reflexivity. Qed.

Lemma array_init l : init (array l) = array (take (length l - 1) l).
Proof. unfold init. rewrite array_length, array_take. reflexivity. Qed.

(** X24.  [calculate_returns] has the length of its input and starts
    with NaN; after a price other than zero its value is
    [next / prev - 1], which in exact arithmetic is the relative change
    [(next - prev) / prev] that [_calculate_metrics] computes as the
    return between the same two points of an equity curve.  On doubles the
    two can differ: from 100000 to 110000 the first gives
    0.10000000000000009 and the second 0.1. *)
Theorem returns_agree_with_metrics
    (prices : list Q) (i : nat) (prev next : Q) :
  prices !! i = Some prev ->
  prices !! S i = Some next ->
  ~ prev == 0 ->
  length (calculate_returns prices) = length prices /\
  calculate_returns prices !! 0%nat = Some NaN /\
  exists r r',
    calculate_returns prices !! S i = Some (Fin r) /\
    returns_of (array prices) !! i = Some (Fin r') /\
    r == next / prev - 1 /\
    r' == (next - prev) / prev /\
    r' == r /\
    Rounded.returns_differ.
Proof.
  intros Hprev Hnext Hnz.
  destruct prices as [|x0 rest]; [discriminate|].
  unfold calculate_returns.
  split; [rewrite !length_cons, length_zip_with, length_cons; lia|].
  split; [reflexivity|].
  exists (next / prev - 1), ((next - prev) / prev).
  split; [|split; [|split; [|split; [|split]]]];
    [| |reflexivity|reflexivity| |vm_compute; split; reflexivity].
  - change ((NaN :: ?l) !! S i) with (l !! i).
    apply lookup_zip_with_Some. exists prev, next.
    split; [|split; [exact Hprev | exact Hnext]].
    rewrite fdiv_finite by exact Hnz. reflexivity.
  - unfold returns_of. rewrite changes_array, array_init.
    apply lookup_zip_with_Some.
    exists (Fin (next - prev)), (Fin prev).
    split; [rewrite fdiv_finite by exact Hnz; reflexivity|].
    split.
    + rewrite array_lookup, (changes_lookup_2 _ i prev next Hprev Hnext).
      reflexivity.
    + rewrite array_lookup, lookup_take_lt, Hprev; [reflexivity|].
      apply lookup_lt_Some in Hnext. simpl in Hnext |- *. lia.
  - field. exact Hnz.
Qed.

Lemma returns_agree_with_metrics_witness :
  example_curve !! 1%nat = Some 110000 /\
  exists r, calculate_returns example_curve !! 2%nat = Some (Fin r) /\
            r == (90000 - 110000) / 110000.
Proof.
  split; [reflexivity|].
  destruct (returns_agree_with_metrics example_curve 1 110000 90000)
    as (_ & _ & r & r' & Hr & Hr' & _ & Hval & Hsame & _);
    try reflexivity; [discriminate|].
  exists r. split; [exact Hr|]. rewrite <- Hsame. exact Hval.
Defined.

(** * Properties of the momentum strategy *)

(** ** What a signal looks like *)

Lemma scan_origin self market_data syms sg :
  Momentum.scan self market_data syms = Some sg ->
  exists sym entry,
    sym ∈ syms /\ market_data !! sym = Some entry /\
    Momentum.signal_for self sym (ohlcv entry) = Some sg.
Proof.
  induction syms as [|s syms IH]; [discriminate|]. simpl.
  destruct (market_data !! s) as [entry|] eqn:Hentry.
  - destruct (Momentum.signal_for self s (ohlcv entry)) as [sg'|] eqn:Hsg.
    + intros [= <-]. exists s, entry. split; [left|]. auto.
    + intros Hrest. destruct (IH Hrest) as (sym & e & Hin & Hrest').
      exists sym, e. split; [right; exact Hin | exact Hrest'].
  - intros Hrest. destruct (IH Hrest) as (sym & e & Hin & Hrest').
    exists sym, e. split; [right; exact Hin | exact Hrest'].
Qed.

Lemma scan_none self market_data syms :
  (forall sym entry,
     sym ∈ syms -> market_data !! sym = Some entry ->
     Momentum.signal_for self sym (ohlcv entry) = None) ->
  Momentum.scan self market_data syms = None.
Proof.
  induction syms as [|s syms IH]; intros Hnone; [reflexivity|]. simpl.
  assert (Hrest : Momentum.scan self market_data syms = None).
  { apply IH. intros sym entry Hin. apply Hnone. right. exact Hin. }
  destruct (market_data !! s) as [entry|] eqn:Hentry; [|exact Hrest].
  rewrite (Hnone s entry); [exact Hrest | left | exact Hentry].
Qed.

(** What [signal_for] has checked when it returns a signal. *)
Lemma signal_for_cases self sym bars sg :
  Momentum.signal_for self sym bars = Some sg ->
  (50 <= length bars)%nat /\
  exists df latest previous,
    Momentum._add_indicators self bars = Some df /\
    (2 <= length df)%nat /\
    last df = Some latest /\
    df !! (length df - 2)%nat = Some previous /\
    ((Momentum.buy_condition self latest previous = true /\
      sg = mkSignal "buy" sym (Momentum.position_size self)) \/
     (Momentum.sell_condition self latest previous = true /\
      sg = mkSignal "sell" sym (Momentum.position_size self))).
Proof.
  unfold Momentum.signal_for.
  destruct (length bars <? 50)%nat eqn:Hlen; [discriminate|].
  apply Nat.ltb_ge in Hlen.
  destruct (Momentum._add_indicators self bars) as [df|] eqn:Hadd;
    [|discriminate].
  unfold Momentum.check_signals.
  destruct (length df <? 2)%nat eqn:Hdf; [discriminate|].
  apply Nat.ltb_ge in Hdf.
  destruct (last df) as [latest|] eqn:Hlast; [|discriminate].
  destruct (df !! (length df - 2)%nat) as [previous|] eqn:Hprev;
    [|discriminate].
  intros Hsg. split; [exact Hlen|].
  exists df, latest, previous. do 4 (split; [auto|]).
  destruct (Momentum.buy_condition self latest previous).
  - left. injection Hsg as <-. auto.
  - destruct (Momentum.sell_condition self latest previous); [|discriminate].
    right. injection Hsg as <-. auto.
Qed.

(** A row that [_add_indicators] keeps carries a value of the RSI series
    of the closes that is not NaN. *)
Lemma add_indicators_row self bars df row :
  Momentum._add_indicators self bars = Some df ->
  row ∈ df ->
  exists i,
    Indicators.calculate_rsi (map close bars) (Momentum.rsi_period self) !! i
    = Some (Momentum.col_rsi row) /\
    is_nan (Momentum.col_rsi row) = false.
Proof.
  unfold Momentum._add_indicators.
  destruct (Indicators.calculate_macd (map close bars) 12 26 9)
    as [e|[[macd signal] histogram]]; [discriminate|].
  intros [= <-] Hrow.
  unfold Momentum.dropna in Hrow.
  apply list_elem_of_filter in Hrow as [Hnan Hrow].
  apply list_elem_of_lookup in Hrow as [i Hi].
  unfold Momentum.add_columns in Hi.
  apply lookup_zip_with_Some in Hi as (b & c & -> & _ & Hc).
  apply lookup_zip_with_Some in Hc as (c1 & h & -> & Hc1 & _).
  apply lookup_zip_with_Some in Hc1 as (c2 & s & -> & Hc2 & _).
  apply lookup_zip_with_Some in Hc2 as (r & m & -> & Hr & _).
  exists i. simpl in *. auto.
Qed.

(** Every RSI value is NaN or a number between 0 and 100. *)
Lemma rsi_value_range data period i v :
  Indicators.calculate_rsi data period !! i = Some v ->
  v = NaN \/ exists r, v = Fin r /\ 0 <= r <= 100.
Proof.
  unfold Indicators.calculate_rsi. rewrite gain_of_rises, loss_of_falls.
  intros Hv. rewrite list_lookup_fmap, lookup_zip_with in Hv.
  destruct (Indicators.rolling_mean period (array (rises data)) !! i)
    as [g|] eqn:Hg; [|discriminate].
  destruct (Indicators.rolling_mean period (array (falls data)) !! i)
    as [l|] eqn:Hl; [|discriminate].
  simpl in Hv. injection Hv as <-.
  destruct (rolling_mean_nonneg _ _ _ _ (rises_nonneg data) Hg)
    as [-> | (qg & -> & Hqg)]; [left; reflexivity|].
  destruct (rolling_mean_nonneg _ _ _ _ (falls_nonneg data) Hl)
    as [-> | (ql & -> & Hql)]; [left; reflexivity|].
  apply rsi_formula_range; assumption.
Qed.

Lemma flt_finite a b : flt (Fin a) (Fin b) = true <-> a < b.
Proof.
  simpl. split.
  - intros H. apply negb_true_iff in H. apply Qle_bool_false in H. lra.
  - intros H. apply negb_true_iff. apply Qle_bool_false. lra.
Qed.

(** X25.  Whatever [MomentumStrategy.generate_signal] returns as a signal
    is a buy or a sell of exactly [position_size] units of a configured
    symbol that the snapshot quotes with at least 50 bars.  Since the RSI
    lies between 0 and 100, a buy needs an oversold threshold above 0 and
    a sell an overbought threshold below 100. *)
Theorem momentum_signal_shape (self : Momentum.MomentumStrategy)
    (market_data : gmap string SnapshotEntry) (sg : Signal) :
  Momentum.generate_signal self market_data = Some sg ->
  (action sg = "buy" \/ action sg = "sell") /\
  amount sg = Momentum.position_size self /\
  symbol sg ∈ Momentum.symbols self /\
  (exists entry,
     market_data !! symbol sg = Some entry /\
     (50 <= length (ohlcv entry))%nat) /\
  (action sg = "buy" -> 0 < Momentum.rsi_oversold self) /\
  (action sg = "sell" -> Momentum.rsi_overbought self < 100).
Proof.
  unfold Momentum.generate_signal. intros Hscan.
  apply scan_origin in Hscan as (sym & entry & Hin & Hentry & Hsg).
  apply signal_for_cases in Hsg
    as (Hlen & df & latest & previous & Hdf & _ & Hlast & _ & Hcase).
  apply last_Some_elem_of in Hlast.
  destruct (add_indicators_row self _ df latest Hdf Hlast)
    as (i & Hrsi & Hnan).
  destruct (rsi_value_range _ _ _ _ Hrsi) as [Hv | (r & Hv & Hr)];
    rewrite Hv in Hnan; [discriminate|].
  destruct Hcase as [[Hbuy ->] | [Hsell ->]]; simpl.
  - split; [left; reflexivity|]. split; [reflexivity|]. split; [exact Hin|].
    split; [exists entry; auto|]. split; [|discriminate].
    intros _. unfold Momentum.buy_condition in Hbuy.
    apply andb_prop in Hbuy as [Hbuy _]. apply andb_prop in Hbuy as [Hbuy _].
    rewrite Hv in Hbuy. apply flt_finite in Hbuy. lra.
  - split; [right; reflexivity|]. split; [reflexivity|]. split; [exact Hin|].
    split; [exists entry; auto|]. split; [discriminate|].
    intros _. unfold Momentum.sell_condition in Hsell.
    apply andb_prop in Hsell as [Hsell _]. apply andb_prop in Hsell as [Hsell _].
    rewrite Hv in Hsell. apply flt_finite in Hsell. lra.
Qed.

(** ** A signal on fifty bars *)

Lemma reduced_ewm_from_same alpha xs xs' :
  same_values xs xs' ->
  forall prev prev', prev == prev' ->
    same_values (Indicators.ewm_from alpha prev xs)
                (reduced_ewm_from alpha prev' xs').
Proof.
  unfold same_values. induction 1 as [|x x' xs xs' Hx _ IH];
    intros prev prev' Hprev; simpl; constructor.
  - rewrite Qred_correct, Hprev, Hx. reflexivity.
  - apply IH. rewrite Qred_correct, Hprev, Hx. reflexivity.
Qed.

Lemma reduced_ewm_mean_same span xs xs' :
  same_values xs xs' ->
  same_values (Indicators.ewm_mean span xs) (reduced_ewm_mean span xs').
Proof.
  intros Hs. unfold Indicators.ewm_mean, reduced_ewm_mean.
  destruct Hs as [|x x' xs xs' Hx Hxs]; constructor; [exact Hx|].
  apply reduced_ewm_from_same; assumption.
Qed.

Lemma reduced_minus_same a a' b b' :
  same_values a a' -> same_values b b' ->
  same_values (zip_with Qminus a b) (reduced_minus a' b').
Proof.
  unfold same_values, reduced_minus. intros Ha. revert b b'.
  induction Ha as [|x x' a a' Hx _ IH]; intros b b' Hb; [constructor|].
  destruct Hb as [|y y' b b' Hy Hb]; simpl; constructor.
  - rewrite Qred_correct, Hx, Hy. reflexivity.
  - apply IH. exact Hb.
Qed.

Lemma same_values_refl a : same_values a a.
Proof. unfold same_values. induction a; constructor; [reflexivity | assumption]. Qed.

(** The three series of [calculate_macd] with the periods of the
    strategy, and their reduced forms. *)
Lemma reduced_macd_same data :
  exists macd signal histogram,
    Indicators.calculate_macd data 12 26 9 = inr (macd, signal, histogram) /\
    same_values macd (reduced_macd data 12 26 9).1.1 /\
    same_values signal (reduced_macd data 12 26 9).1.2 /\
    same_values histogram (reduced_macd data 12 26 9).2.
Proof.
  rewrite calculate_macd_ok by lia.
  pose proof (reduced_minus_same _ _ _ _
                (reduced_ewm_mean_same 12 _ _ (same_values_refl data))
                (reduced_ewm_mean_same 26 _ _ (same_values_refl data)))
    as Hmacd.
  pose proof (reduced_ewm_mean_same 9 _ _ Hmacd) as Hsignal.
  pose proof (reduced_minus_same _ _ _ _ Hmacd Hsignal) as Hhist.
  eexists _, _, _. split; [reflexivity|]. simpl. auto.
Qed.

Lemma add_columns_same bars rsi macd macd' signal signal' hist hist' :
  same_values macd macd' -> same_values signal signal' ->
  same_values hist hist' ->
  Forall2 same_row
    (Momentum.add_columns bars rsi macd signal hist)
    (Momentum.add_columns bars rsi macd' signal' hist').
Proof.
  unfold same_values. intros Hm Hs Hh.
  apply Forall2_same_length_lookup. split.
  - unfold Momentum.add_columns. rewrite !length_zip_with.
    apply Forall2_length in Hm, Hs, Hh. lia.
  - intros i r r' Hr Hr'. unfold Momentum.add_columns in Hr, Hr'.
    apply lookup_zip_with_Some in Hr as (b & c & -> & _ & Hc).
    apply lookup_zip_with_Some in Hc as (c1 & h & -> & Hc1 & _).
    apply lookup_zip_with_Some in Hc1 as (c2 & s & -> & Hc2 & Hsi).
    apply lookup_zip_with_Some in Hc2 as (v & m & -> & Hv & Hmi).
    apply lookup_zip_with_Some in Hr' as (b' & c' & -> & _ & Hc').
    apply lookup_zip_with_Some in Hc' as (c1' & h' & -> & Hc1' & _).
    apply lookup_zip_with_Some in Hc1' as (c2' & s' & -> & Hc2' & Hsi').
    apply lookup_zip_with_Some in Hc2' as (v' & m' & -> & Hv' & Hmi').
    unfold same_row. simpl. split; [congruence|]. split.
    + exact (Forall2_lookup_lr _ _ _ _ _ _ Hm Hmi Hmi').
    + exact (Forall2_lookup_lr _ _ _ _ _ _ Hs Hsi Hsi').
Qed.

Lemma dropna_same df df' :
  Forall2 same_row df df' ->
  Forall2 same_row (Momentum.dropna df) (Momentum.dropna df').
Proof.
  unfold Momentum.dropna.
  induction 1 as [|r r' df df' Hr _ IH]; [constructor|].
  rewrite !filter_cons. destruct Hr as (Hrsi & Hrest).
  rewrite <- Hrsi.
  destruct (decide (is_nan (Momentum.col_rsi r) = false)); [|exact IH].
  constructor; [split; assumption | exact IH].
Qed.

Lemma conditions_same self latest latest' previous previous' :
  same_row latest latest' -> same_row previous previous' ->
  Momentum.buy_condition self latest previous
  = Momentum.buy_condition self latest' previous' /\
  Momentum.sell_condition self latest previous
  = Momentum.sell_condition self latest' previous'.
Proof.
  intros (Hr & Hm & Hs) (_ & Hpm & Hps).
  unfold Momentum.buy_condition, Momentum.sell_condition.
  rewrite Hr.
  rewrite (Qleb_comp _ _ Hm _ _ Hs), (Qleb_comp _ _ Hpm _ _ Hps).
  rewrite (Qleb_comp _ _ Hs _ _ Hm), (Qleb_comp _ _ Hps _ _ Hpm).
  split; reflexivity.
Qed.

(** [check_signals] reads the RSI, and the MACD and signal values as
    numbers. *)
Lemma check_signals_same self sym df df' :
  Forall2 same_row df df' ->
  Momentum.check_signals self sym df = Momentum.check_signals self sym df'.
Proof.
  intros Hsame. unfold Momentum.check_signals.
  rewrite <- (Forall2_length _ _ _ Hsame).
  destruct (length df <? 2)%nat; [reflexivity|].
  rewrite !last_lookup. rewrite <- (Forall2_length _ _ _ Hsame).
  pose proof (proj1 (Forall2_lookup _ _ _) Hsame (pred (length df)))
    as Hlast.
  pose proof (proj1 (Forall2_lookup _ _ _) Hsame (length df - 2)%nat)
    as Hprev.
  destruct Hlast as [latest latest' Hlatest|]; [|reflexivity].
  destruct Hprev as [previous previous' Hprevious|]; [|reflexivity].
  destruct (conditions_same self _ _ _ _ Hlatest Hprevious) as [-> ->].
  reflexivity.
Qed.

(** On at least 50 bars, the decision for a symbol can be read off the
    reduced MACD series. *)
Lemma signal_for_reduced self sym bars :
  (50 <= length bars)%nat ->
  Momentum.signal_for self sym bars
  = Momentum.check_signals self sym
      (Momentum.dropna
         (Momentum.add_columns bars
            (Indicators.calculate_rsi (map close bars)
               (Momentum.rsi_period self))
            (reduced_macd (map close bars) 12 26 9).1.1
            (reduced_macd (map close bars) 12 26 9).1.2
            (reduced_macd (map close bars) 12 26 9).2)).
Proof.
  intros Hlen. unfold Momentum.signal_for, Momentum._add_indicators.
  assert (Hlong : (length bars <? 50)%nat = false)
    by (apply Nat.ltb_ge; exact Hlen).
  rewrite Hlong.
  destruct (reduced_macd_same (map close bars))
    as (macd & signal & hist & -> & Hm & Hs & Hh).
  apply check_signals_same, dropna_same, add_columns_same; assumption.
Qed.

Lemma scan_first self market_data sym rest entry sg :
  market_data !! sym = Some entry ->
  Momentum.signal_for self sym (ohlcv entry) = Some sg ->
  Momentum.scan self market_data (sym :: rest) = Some sg.
Proof. intros Hentry Hsg. simpl. rewrite Hentry, Hsg. reflexivity. Qed.

(** A fall that slows down: on the fiftieth bar the RSI is zero and the
    MACD crosses above its signal line, and the strategy buys. *)
Lemma falling_market_buy :
  Momentum.generate_signal example_momentum falling_snapshot
  = Some (mkSignal "buy" "BTC/USDT" 0.1).
Proof.
  unfold Momentum.generate_signal.
  apply (scan_first example_momentum falling_snapshot "BTC/USDT" []
           (mkEntry (mkTicker 528 528 528 1) (bars_of falling_closes))).
  - apply lookup_singleton_eq.
  - rewrite signal_for_reduced by (vm_compute; lia).
    vm_compute. reflexivity.
Qed.

Lemma momentum_signal_shape_witness :
  Momentum.generate_signal example_momentum falling_snapshot
  = Some (mkSignal "buy" "BTC/USDT" 0.1) /\
  0 < Momentum.rsi_oversold example_momentum.
Proof.
  split; [exact falling_market_buy|].
  destruct (momentum_signal_shape example_momentum falling_snapshot
              (mkSignal "buy" "BTC/USDT" 0.1) falling_market_buy)
    as (_ & _ & _ & _ & Hbuy & _).
  apply Hbuy. reflexivity.
Defined.

(** ** Against the trend, and nothing on a flat market *)

(** On a strictly rising series every RSI value is NaN or 100, on a
    strictly falling one NaN or zero. *)
Lemma rsi_monotone_values data period i v :
  Indicators.calculate_rsi data period !! i = Some v ->
  (strictly_rising data -> v = NaN \/ v = Fin 100) /\
  (strictly_falling data -> v = NaN \/ exists r, v = Fin r /\ r == 0).
Proof.
  unfold Indicators.calculate_rsi. rewrite gain_of_rises, loss_of_falls.
  intros Hv. rewrite list_lookup_fmap, lookup_zip_with in Hv.
  destruct (Indicators.rolling_mean period (array (rises data)) !! i)
    as [g|] eqn:Hg; [|discriminate].
  destruct (Indicators.rolling_mean period (array (falls data)) !! i)
    as [l|] eqn:Hl; [|discriminate].
  simpl in Hv. injection Hv as <-.
  split.
  - intros Hup.
    destruct (rolling_mean_nonneg _ _ _ _ (rises_nonneg data) Hg)
      as [-> | (qg & -> & Hqg)]; [left; reflexivity|].
    destruct (rolling_mean_zero _ _ _ _ (falls_rising data Hup) Hl)
      as [-> | (ql & -> & Hql)]; [left; reflexivity|].
    apply Qeq_alt in Hql. simpl fdiv. rewrite Hql. unfold signed_inf.
    destruct (qg ?= 0) eqn:Hcmp.
    + left. reflexivity.
    + apply Qlt_alt in Hcmp. lra.
    + right. reflexivity.
  - intros Hdown.
    destruct (rolling_mean_zero _ _ _ _ (rises_falling data Hdown) Hg)
      as [-> | (qg & -> & Hqg)]; [left; reflexivity|].
    destruct (rolling_mean_nonneg _ _ _ _ (falls_nonneg data) Hl)
      as [-> | (ql & -> & Hql)]; [left; reflexivity|].
    simpl fdiv. destruct (ql ?= 0) eqn:Hcmp.
    + apply Qeq_alt in Hqg. unfold signed_inf. rewrite Hqg.
      left. reflexivity.
    + apply Qlt_alt in Hcmp. lra.
    + apply Qgt_alt in Hcmp. right.
      assert (Hrs : qg / ql == 0) by (rewrite Hqg; unfold Qdiv; ring).
      unfold Indicators.rsi_of_rs. simpl fadd.
      rewrite fdiv_finite by (intros Hbad; lra).
      eexists. split; [reflexivity|]. rewrite Hrs. reflexivity.
Qed.

(** X26.  The strategy trades against the trend: with an oversold
    threshold of at most 100 and an overbought threshold of at least 0 (as
    the defaults 30 and 70), it never returns a buy for a symbol whose
    closes in the snapshot rise strictly, nor a sell for one whose closes
    fall strictly. *)
Theorem momentum_trades_against_the_trend
    (self : Momentum.MomentumStrategy)
    (market_data : gmap string SnapshotEntry) (sg : Signal)
    (entry : SnapshotEntry) :
  Momentum.rsi_oversold self <= 100 ->
  0 <= Momentum.rsi_overbought self ->
  Momentum.generate_signal self market_data = Some sg ->
  market_data !! symbol sg = Some entry ->
  (action sg = "buy" -> ~ strictly_rising (map close (ohlcv entry))) /\
  (action sg = "sell" -> ~ strictly_falling (map close (ohlcv entry))).
Proof.
  intros Hlow Hhigh Hscan Hquoted. unfold Momentum.generate_signal in Hscan.
  apply scan_origin in Hscan as (sym & entry' & _ & Hentry & Hsg).
  apply signal_for_cases in Hsg
    as (_ & df & latest & previous & Hdf & _ & Hlast & _ & Hcase).
  apply last_Some_elem_of in Hlast.
  destruct (add_indicators_row self _ df latest Hdf Hlast)
    as (i & Hrsi & Hnan).
  destruct (rsi_monotone_values _ _ _ _ Hrsi) as [Hup Hdown].
  assert (Hsame : entry' = entry).
  { destruct Hcase as [[_ ->] | [_ ->]]; simpl in Hquoted; congruence. }
  subst entry'.
  destruct Hcase as [[Hbuy ->] | [Hsell ->]]; simpl;
    (split; [|discriminate]) || (split; [discriminate|]); intros _ Htrend.
  - destruct (Hup Htrend) as [Hv | Hv]; rewrite Hv in Hnan; [discriminate|].
    unfold Momentum.buy_condition in Hbuy.
    apply andb_prop in Hbuy as [Hbuy _]. apply andb_prop in Hbuy as [Hbuy _].
    rewrite Hv in Hbuy. apply flt_finite in Hbuy. lra.
  - destruct (Hdown Htrend) as [Hv | (r & Hv & Hr)];
      rewrite Hv in Hnan; [discriminate|].
    unfold Momentum.sell_condition in Hsell.
    apply andb_prop in Hsell as [Hsell _]. apply andb_prop in Hsell as [Hsell _].
    rewrite Hv in Hsell. apply flt_finite in Hsell. lra.
Qed.

Lemma momentum_trades_against_the_trend_witness :
  Momentum.rsi_oversold example_momentum <= 100 /\
  0 <= Momentum.rsi_overbought example_momentum /\
  Momentum.generate_signal example_momentum falling_snapshot
  = Some (mkSignal "buy" "BTC/USDT" 0.1) /\
  ~ strictly_rising (map close (bars_of falling_closes)).
Proof.
  assert (Hlow : Momentum.rsi_oversold example_momentum <= 100)
    by (simpl; lra).
  assert (Hhigh : 0 <= Momentum.rsi_overbought example_momentum)
    by (simpl; lra).
  split; [exact Hlow|]. split; [exact Hhigh|].
  split; [exact falling_market_buy|].
  destruct (momentum_trades_against_the_trend example_momentum
              falling_snapshot (mkSignal "buy" "BTC/USDT" 0.1)
              (mkEntry (mkTicker 528 528 528 1) (bars_of falling_closes))
              Hlow Hhigh falling_market_buy eq_refl) as [Hbuy _].
  apply Hbuy. reflexivity.
Defined.

(** A series without a change has an RSI that is NaN throughout. *)
Lemma rsi_flat_values data period i v :
  flat data ->
  Indicators.calculate_rsi data period !! i = Some v -> v = NaN.
Proof.
  intros Hflat.
  unfold Indicators.calculate_rsi. rewrite gain_of_rises, loss_of_falls.
  intros Hv. rewrite list_lookup_fmap, lookup_zip_with in Hv.
  destruct (Indicators.rolling_mean period (array (rises data)) !! i)
    as [g|] eqn:Hg; [|discriminate].
  destruct (Indicators.rolling_mean period (array (falls data)) !! i)
    as [l|] eqn:Hl; [|discriminate].
  simpl in Hv. injection Hv as <-.
  destruct (rolling_mean_zero _ _ _ _ (rises_flat data Hflat) Hg)
    as [-> | (qg & -> & Hqg)]; [reflexivity|].
  destruct (rolling_mean_zero _ _ _ _ (falls_flat data Hflat) Hl)
    as [-> | (ql & -> & Hql)]; [reflexivity|].
  apply Qeq_alt in Hqg, Hql. simpl. rewrite Hql. unfold signed_inf.
  rewrite Hqg. reflexivity.
Qed.

Lemma signal_for_flat self sym bars :
  flat (map close bars) -> Momentum.signal_for self sym bars = None.
Proof.
  intros Hflat.
  destruct (Momentum.signal_for self sym bars) as [sg|] eqn:Hsg;
    [|reflexivity].
  apply signal_for_cases in Hsg
    as (_ & df & latest & previous & Hdf & _ & Hlast & _).
  apply last_Some_elem_of in Hlast.
  destruct (add_indicators_row self _ df latest Hdf Hlast)
    as (i & Hrsi & Hnan).
  rewrite (rsi_flat_values _ _ _ _ Hflat Hrsi) in Hnan. discriminate.
Qed.

(** X27.  On a snapshot in which every configured symbol closes flat,
    [generate_signal] returns no signal, whatever the number of bars and
    the parameters: the RSI is NaN on every row, [dropna] leaves no row,
    and the symbol is skipped. *)
Theorem momentum_is_silent_on_flat_prices
    (self : Momentum.MomentumStrategy)
    (market_data : gmap string SnapshotEntry) :
  (forall sym entry,
     sym ∈ Momentum.symbols self -> market_data !! sym = Some entry ->
     flat (map close (ohlcv entry))) ->
  Momentum.generate_signal self market_data = None.
Proof.
  intros Hflat. unfold Momentum.generate_signal. apply scan_none.
  intros sym entry Hin Hentry. apply signal_for_flat.
  exact (Hflat sym entry Hin Hentry).
Qed.

Lemma flat_replicate c n : flat (replicate n c).
Proof.
  intros i x y Hx Hy.
  apply lookup_replicate in Hx as [-> _].
  apply lookup_replicate in Hy as [-> _]. reflexivity.
Qed.

Lemma momentum_is_silent_on_flat_prices_witness :
  (forall sym entry,
     sym ∈ Momentum.symbols example_momentum ->
     flat_snapshot !! sym = Some entry ->
     flat (map close (ohlcv entry))) /\
  Momentum.generate_signal example_momentum flat_snapshot = None.
Proof.
  assert (H : forall sym entry,
             sym ∈ Momentum.symbols example_momentum ->
             flat_snapshot !! sym = Some entry ->
             flat (map close (ohlcv entry))).
  { intros sym entry _ Hentry. unfold flat_snapshot in Hentry.
    apply lookup_singleton_Some in Hentry as [_ <-].
    apply (flat_replicate 100 50). }
  split; [exact H|].
  apply (momentum_is_silent_on_flat_prices example_momentum flat_snapshot H).
Defined.

(** ** The strategy in a backtest *)

Section ReplayQuiet.

Context {St : Type}.
Variable generate_signal :
  St -> gmap string SnapshotEntry -> St * option Signal.
Variable historical_data : list (string * list Bar).
Hypothesis quiet :
  forall st now,
    (generate_signal st (_prepare_market_snapshot historical_data now)).2
    = None.

(** With nothing held and no signal on the snapshots of the dataset,
    every tick records the cash. *)
Lemma replay_quiet (rows : list Bar) :
  forall bt st,
    positions bt = ∅ ->
    exists st' bt',
      replay generate_signal historical_data rows bt st = Done st' bt' /\
      capital bt' = capital bt /\
      positions bt' = ∅ /\
      trades bt' = trades bt /\
      initial_capital bt' = initial_capital bt /\
      equity_curve bt'
      = equity_curve bt ++ replicate (length rows) (capital bt).
Proof.
  induction rows as [|row rows IH]; intros bt st Hpos.
  - exists st, bt. simpl. rewrite app_nil_r. auto 10.
  - simpl.
    pose proof (quiet st (timestamp row)) as Hnone.
    destruct (generate_signal st _) as [st1 signal]. simpl in Hnone.
    subst signal.
    match goal with
    | |- context [replay _ _ rows ?b st1] =>
        destruct (IH b st1)
          as (st' & bt' & Hrun & Hcap & Hpos' & Htr & Hic & Heq)
    end; [exact Hpos|].
    exists st', bt'. split; [exact Hrun|].
    simpl in Hcap, Htr, Hic, Heq.
    rewrite Hcap, Htr, Hic, Heq.
    unfold _calculate_portfolio_value. simpl. rewrite Hpos, map_fold_empty.
    rewrite <- app_assoc. auto 10.
Qed.

End ReplayQuiet.

Lemma up_to_length ts df : (length (up_to ts df) <= length df)%nat.
Proof. unfold up_to. apply length_filter. Qed.

Lemma flat_all_equal l :
  flat l ->
  forall i j x y, l !! i = Some x -> l !! j = Some y -> x == y.
Proof.
  intros Hflat.
  assert (Hfwd : forall d i x y,
             l !! i = Some x -> l !! (i + d)%nat = Some y -> x == y).
  { induction d as [|d IH]; intros i x y Hx Hy.
    - rewrite Nat.add_0_r in Hy. rewrite Hx in Hy. injection Hy as <-.
      reflexivity.
    - destruct (l !! (i + d)%nat) as [z|] eqn:Hz.
      2:{ apply lookup_ge_None in Hz. apply lookup_lt_Some in Hy. lia. }
      rewrite (IH i x z Hx Hz).
      apply (Hflat (i + d)%nat z y Hz).
      replace (S (i + d)) with (i + S d)%nat by lia. exact Hy. }
  intros i j x y Hx Hy.
  destruct (Nat.le_ge_cases i j) as [Hle | Hle].
  - apply (Hfwd (j - i)%nat i x y Hx).
    replace (i + (j - i))%nat with j by lia. exact Hy.
  - symmetry. apply (Hfwd (i - j)%nat j y x Hy).
    replace (j + (i - j))%nat with i by lia. exact Hx.
Qed.

(** The rows of a frame up to an instant close flat when the frame
    does. *)
Lemma flat_up_to ts df :
  flat (map close df) -> flat (map close (up_to ts df)).
Proof.
  intros Hflat i x y Hx Hy.
  assert (Hmem : forall v, v ∈ map close (up_to ts df) -> v ∈ map close df).
  { intros v Hv. apply list_elem_of_fmap in Hv as (b & -> & Hb).
    apply list_elem_of_filter in Hb as [_ Hb].
    apply list_elem_of_fmap. exists b. auto. }
  apply list_elem_of_lookup_2, Hmem, list_elem_of_lookup in Hx as [i' Hx].
  apply list_elem_of_lookup_2, Hmem, list_elem_of_lookup in Hy as [j' Hy].
  exact (flat_all_equal _ Hflat i' j' x y Hx Hy).
Qed.

(** X28.  A backtest of the momentum strategy on a dataset in which each
    symbol has fewer than 50 bars, or closes flat, returns and trades
    nothing: the equity curve stays at the initial capital, the trade log
    is empty and the cash is untouched. *)
Theorem momentum_backtest_needs_history
    (np_std : list num -> num) (np_sqrt : num -> num)
    (bt : Backtester) (self : Momentum.MomentumStrategy)
    (primary_symbol : string) (df : list Bar)
    (others : list (string * list Bar))
    (start_date end_date : option Z) :
  Forall (fun item => (length item.2 < 50)%nat \/ flat (map close item.2))
    ((primary_symbol, df) :: others) ->
  exists res bt',
    run np_std np_sqrt Momentum.strategy bt self
      ((primary_symbol, df) :: others) start_date end_date = Done res bt' /\
    r_equity_curve res
    = replicate (S (length (clock df start_date end_date)))
        (initial_capital bt) /\
    r_trades res = [] /\
    r_num_trades res = 0%nat /\
    r_final_value res = Fin (initial_capital bt) /\
    capital bt' = initial_capital bt /\
    positions bt' = ∅.
Proof.
  intros Hshort. set (rows := clock df start_date end_date).
  assert (Hquiet : forall (st : Momentum.MomentumStrategy) now,
             (Momentum.strategy st
                (_prepare_market_snapshot ((primary_symbol, df) :: others)
                   now)).2
             = None).
  { intros st now. unfold Momentum.strategy, Momentum.generate_signal. simpl.
    apply scan_none. intros sym entry _ Hentry.
    apply snapshot_entry_origin in Hentry
      as (frame & latest & Hin & _ & _ & ->).
    rewrite Forall_forall in Hshort. specialize (Hshort _ Hin).
    simpl in Hshort. simpl ohlcv. destruct Hshort as [Hshort | Hflat].
    - unfold Momentum.signal_for.
      pose proof (up_to_length now frame) as Hle.
      replace (length (up_to now frame) <? 50)%nat with true; [reflexivity|].
      symmetry. apply Nat.ltb_lt. lia.
    - apply signal_for_flat, flat_up_to. exact Hflat. }
  unfold run. fold rows.
  destruct (replay_quiet Momentum.strategy ((primary_symbol, df) :: others)
              Hquiet rows (reset bt) self eq_refl)
    as (st' & bt' & Hrun & Hcap & Hpos & Htr & Hic & Heq).
  rewrite Hrun. simpl in Hcap, Htr, Hic, Heq.
  change (equity_curve bt'
          = replicate (S (length rows)) (initial_capital bt)) in Heq.
  destruct (calculate_metrics_returns np_std np_sqrt bt')
    as (res & Hres & _ & Hcurve & _ & Htrades & Hnum & _).
  { rewrite Heq. discriminate. }
  exists res, bt'. split; [exact Hres|].
  rewrite Hcurve, Htrades, Hnum, Htr, Heq.
  do 3 (split; [solve [auto]|]).
  split; [|auto].
  unfold _calculate_metrics in Hres. rewrite Heq in Hres.
  assert (Hlast : last (array (replicate (S (length rows))
                                 (initial_capital bt)))
                  = Some (Fin (initial_capital bt))).
  { unfold array. rewrite fmap_replicate.
    rewrite replicate_S_end, last_snoc. reflexivity. }
  rewrite Hlast in Hres.
  destruct (amin _); [|discriminate].
  injection Hres as <-. reflexivity.
Qed.

Lemma momentum_backtest_needs_history_witness :
  Forall (fun item : string * list Bar =>
            (length item.2 < 50)%nat \/ flat (map close item.2))
    example_data /\
  exists res bt',
    run (fun _ => NaN) (fun _ => NaN) Momentum.strategy
      (new 100000 0.001 0.0005) example_momentum example_data None None
    = Done res bt' /\
    r_equity_curve res = [100000; 100000; 100000; 100000].
Proof.
  assert (H : Forall (fun item : string * list Bar =>
                        (length item.2 < 50)%nat \/ flat (map close item.2))
                example_data).
  { repeat constructor; left; simpl; lia. }
  split; [exact H|].
  destruct (momentum_backtest_needs_history (fun _ => NaN) (fun _ => NaN)
              (new 100000 0.001 0.0005) example_momentum "BTC/USDT"
              [mkBar 1 10 12 9 11 100; mkBar 2 11 13 10 12 110;
               mkBar 3 12 14 11 13 120]
              [("ETH/USDT", [mkBar 3 5 6 4 5 50])] None None H)
    as (res & bt' & Hrun & Hcurve & _).
  exists res, bt'. split; [exact Hrun | exact Hcurve].
Defined.

(** * Properties of the average true range *)

Lemma shift_array_lookup close i :
  (S i < length close)%nat ->
  shift (array close) !! S i = Fin <$> close !! i.
Proof.
  intros Hi. unfold shift. destruct close as [|c0 close]; [simpl in Hi; lia|].
  change (array (c0 :: close)) with (Fin c0 :: array close).
  cbv iota.
  change (init (Fin c0 :: array close) !! i = Fin <$> (c0 :: close) !! i).
  unfold init.
  rewrite lookup_take_lt
    by (simpl length in *; rewrite array_length; lia).
  apply (array_lookup (c0 :: close) i).
Qed.

Lemma shift_length (s : list num) : length (shift s) = length s.
Proof.
  unfold shift, init. destruct s as [|x s]; [reflexivity|].
  simpl length. rewrite length_take. simpl length. lia.
Qed.

Lemma nanmax_finite a b :
  nanmax (Fin a) (Fin b) = Fin (qmax a b).
Proof. unfold nanmax, qmax. simpl. destruct (Qle_bool a b); reflexivity. Qed.

Lemma series_sub_lookup a b i :
  (i < Nat.max (length a) (length b))%nat ->
  series_sub a b !! i
  = Some (fsub (default NaN (a !! i)) (default NaN (b !! i))).
Proof.
  intros Hi. unfold series_sub. rewrite list_lookup_fmap.
  rewrite lookup_seq_lt by exact Hi. reflexivity.
Qed.

Lemma series_sub_length a b :
  length (series_sub a b) = Nat.max (length a) (length b).
Proof. unfold series_sub. rewrite length_map, length_seq. reflexivity. Qed.

(** On three columns of one frame the series that [calculate_atr]
    averages is the true range. *)
Lemma true_range_array high low close :
  length low = length high -> length close = length high ->
  row_max (series_sub (array high) (array low))
    (map fabs (series_sub (array high) (shift (array close))))
    (map fabs (series_sub (array low) (shift (array close))))
  = array (true_range high low close).
Proof.
  intros Hlow Hclose.
  assert (Hlen : forall a b : list Q,
             length a = length high -> length b = length high ->
             Nat.max (length (array a)) (length (shift (array b)))
             = length high).
  { intros a b Ha Hb. rewrite shift_length, !array_length. lia. }
  apply list_eq. intros i.
  unfold row_max. rewrite !length_map, !series_sub_length.
  rewrite (Hlen high close eq_refl Hclose), (Hlen low close Hlow Hclose).
  rewrite !array_length, Hlow.
  replace (Nat.max (Nat.max (length high) (length high))
             (Nat.max (length high) (length high)))
    with (length high) by lia.
  rewrite list_lookup_fmap, array_lookup.
  unfold true_range. rewrite list_lookup_imap.
  destruct (high !! i) as [h|] eqn:Hh.
  2:{ apply lookup_ge_None in Hh.
      rewrite lookup_seq_ge by exact Hh. reflexivity. }
  assert (Hi : (i < length high)%nat) by (apply lookup_lt_Some in Hh; exact Hh).
  rewrite lookup_seq_lt by exact Hi. simpl. f_equal.
  destruct (low !! i) as [l|] eqn:Hl.
  2:{ apply lookup_ge_None in Hl. lia. }
  rewrite !list_lookup_fmap.
  rewrite !series_sub_lookup
    by (rewrite ?shift_length, !array_length; lia).
  rewrite !array_lookup, Hh, Hl. simpl.
  destruct i as [|k].
  - destruct close as [|c0 close]; [simpl in *; lia|]. reflexivity.
  - rewrite (shift_array_lookup close k) by lia.
    destruct (close !! k) as [c|] eqn:Hc.
    2:{ apply lookup_ge_None in Hc. lia. }
    simpl. rewrite !nanmax_finite. reflexivity.
Qed.

Lemma calculate_atr_sma high low close period :
  length low = length high -> length close = length high ->
  calculate_atr high low close period
  = calculate_sma (true_range high low close) period.
Proof.
  intros Hlow Hclose. unfold calculate_atr, calculate_sma.
  rewrite (true_range_array high low close Hlow Hclose). reflexivity.
Qed.

Lemma true_range_length high low close :
  length (true_range high low close) = length high.
Proof. unfold true_range. apply length_imap. Qed.

Lemma true_range_lookup high low close i tr :
  length low = length high -> length close = length high ->
  true_range high low close !! i = Some tr ->
  exists h l,
    high !! i = Some h /\ low !! i = Some l /\
    match i with
    | O => tr = h - l
    | S k => exists c, close !! k = Some c /\
                       tr = qmax (qmax (h - l) (Qabs (h - c))) (Qabs (l - c))
    end.
Proof.
  intros Hlow Hclose. unfold true_range. rewrite list_lookup_imap.
  destruct (high !! i) as [h|] eqn:Hh; [|discriminate].
  assert (Hi : (i < length high)%nat) by (apply lookup_lt_Some in Hh; exact Hh).
  destruct (low !! i) as [l|] eqn:Hl.
  2:{ apply lookup_ge_None in Hl. lia. }
  simpl. intros [= <-]. exists h, l. do 2 (split; [reflexivity|]).
  destruct i as [|k]; [reflexivity|].
  destruct (close !! k) as [c|] eqn:Hc.
  2:{ apply lookup_ge_None in Hc. lia. }
  exists c. split; reflexivity.
Qed.

Lemma qmax_bounds a b : a <= qmax a b /\ b <= qmax a b.
Proof.
  unfold qmax. destruct (Qle_bool a b) eqn:Hle.
  - apply Qle_bool_iff in Hle. split; lra.
  - apply Qle_bool_false in Hle. split; lra.
Qed.

Lemma qmax_left a b : b <= a -> qmax a b == a.
Proof.
  intros Hba. unfold qmax. destruct (Qle_bool a b) eqn:Hle; [|reflexivity].
  apply Qle_bool_iff in Hle. lra.
Qed.

(** A window of a series, by positions. *)
Lemma trailing_lookup w i (l : list Q) j x :
  trailing w i l !! j = Some x ->
  l !! (i + 1 - w + j)%nat = Some x /\ (i + 1 - w + j <= i)%nat.
Proof.
  unfold trailing. rewrite lookup_drop. intros Hx.
  apply lookup_take_Some in Hx as [Hx Hlt]. split; [exact Hx | lia].
Qed.

(** X29.  On three columns of one frame, [calculate_atr] returns a series
    as long as the frame; it is NaN while fewer than [period] bars have
    been seen, and from then on it is the mean of the true ranges of the
    last [period] bars, a number that is at least any lower bound of the
    ranges [high - low] of those bars: it is not negative when no bar has
    its high below its low. *)
Theorem atr_warm_up_and_floor (high low close : list Q) (period i : nat) :
  length low = length high -> length close = length high ->
  (i < length high)%nat ->
  length (calculate_atr high low close period) = length high /\
  ((i + 1 < period)%nat ->
   calculate_atr high low close period !! i = Some NaN) /\
  ((1 <= period <= i + 1)%nat ->
   exists q,
     calculate_atr high low close period !! i = Some (Fin q) /\
     q == Qsum (trailing period i (true_range high low close))
          / inject_Z (Z.of_nat period) /\
     forall w,
       (forall j h l,
          (i + 1 - period <= j <= i)%nat ->
          high !! j = Some h -> low !! j = Some l -> w <= h - l) ->
       w <= q).
Proof.
  intros Hlow Hclose Hi.
  rewrite (calculate_atr_sma high low close period Hlow Hclose).
  unfold calculate_sma.
  assert (Hi' : (i < length (true_range high low close))%nat)
    by (rewrite true_range_length; exact Hi).
  split; [rewrite rolling_mean_length, array_length; apply true_range_length|].
  rewrite (rolling_mean_array period i _ Hi').
  split.
  - intros Hwarm. apply Nat.ltb_lt in Hwarm. rewrite Hwarm. reflexivity.
  - intros [Hp Hfull].
    assert (Hw : (i + 1 <? period)%nat = false) by (apply Nat.ltb_ge; lia).
    rewrite Hw.
    pose proof (inject_nat_pos period Hp) as Hpos.
    rewrite fdiv_finite by lra.
    eexists. split; [reflexivity|]. split; [reflexivity|].
    intros w Hfloor.
    assert (Hlen : length (trailing period i (true_range high low close))
                   = period).
    { rewrite (trailing_length period i _ Hi'). lia. }
    assert (Hall : Forall (fun x => w <= x)
                     (trailing period i (true_range high low close))).
    { apply Forall_lookup. intros j tr Htr.
      apply trailing_lookup in Htr as [Htr Hj].
      apply (true_range_lookup high low close _ tr Hlow Hclose) in Htr
        as (h & l & Hh & Hl & Hcase).
      assert (Hrange : w <= h - l).
      { apply (Hfloor (i + 1 - period + j)%nat h l); [lia | exact Hh | exact Hl]. }
      destruct (i + 1 - period + j)%nat as [|k]; [subst tr; exact Hrange|].
      destruct Hcase as (c & _ & ->).
      pose proof (qmax_bounds (h - l) (Qabs (h - c))) as [H1 _].
      pose proof (qmax_bounds (qmax (h - l) (Qabs (h - c))) (Qabs (l - c)))
        as [H2 _].
      lra. }
    assert (Hlow_sum : forall l : list Q,
               Forall (fun x => w <= x) l ->
               inject_Z (Z.of_nat (length l)) * w <= Qsum l).
    { induction 1 as [|x l Hx _ IH].
      - unfold Qsum. simpl. change (inject_Z (Z.of_nat 0)) with 0. lra.
      - rewrite Qsum_cons, inject_length_cons, Qmult_plus_distr_l. lra. }
    specialize (Hlow_sum _ Hall). rewrite Hlen in Hlow_sum.
    apply Qle_shift_div_l; [exact Hpos | lra].
Qed.

Lemma atr_warm_up_and_floor_witness :
  length [9; 10; 11] = length [12; 13; 14] /\
  length [11; 12; 13] = length [12; 13; 14] /\
  (2 < length [12; 13; 14])%nat /\
  calculate_atr [12; 13; 14] [9; 10; 11] [11; 12; 13] 3 !! 1%nat = Some NaN /\
  exists q,
    calculate_atr [12; 13; 14] [9; 10; 11] [11; 12; 13] 2 !! 2%nat
    = Some (Fin q) /\ 3 <= q.
Proof.
  assert (H1 : length [9; 10; 11] = length [12; 13; 14]) by reflexivity.
  assert (H2 : length [11; 12; 13] = length [12; 13; 14]) by reflexivity.
  assert (H3 : (2 < length [12; 13; 14])%nat) by (simpl; lia).
  assert (H4 : (1 < length [12; 13; 14])%nat) by (simpl; lia).
  split; [exact H1|]. split; [exact H2|]. split; [exact H3|]. split.
  - apply (atr_warm_up_and_floor [12; 13; 14] [9; 10; 11] [11; 12; 13] 3 1
             H1 H2 H4). lia.
  - destruct (atr_warm_up_and_floor [12; 13; 14] [9; 10; 11] [11; 12; 13] 2 2
                H1 H2 H3) as (_ & _ & Hfull).
    destruct Hfull as (q & Hq & _ & Hfloor); [lia|].
    exists q. split; [exact Hq|]. apply Hfloor.
    intros [|[|[|j]]] h l Hj Hh Hl; simpl in Hh, Hl; try discriminate;
      injection Hh as <-; injection Hl as <-; lra.
Defined.

Lemma Qsum_same a b : same_values a b -> Qsum a == Qsum b.
Proof.
  induction 1 as [|x y a b Hxy _ IH]; [reflexivity|].
  rewrite !Qsum_cons, Hxy, IH. reflexivity.
Qed.

Lemma trailing_same w i a b :
  same_values a b -> same_values (trailing w i a) (trailing w i b).
Proof.
  intros Hab. unfold trailing, same_values.
  apply Forall2_drop, Forall2_take. exact Hab.
Qed.

(** Without gaps the true range of a bar is its range. *)
Lemma true_range_gapless high low close :
  length low = length high -> length close = length high ->
  gapless high low close ->
  same_values (true_range high low close) (zip_with Qminus high low).
Proof.
  intros Hlow Hclose Hgap. unfold same_values.
  apply Forall2_same_length_lookup. split.
  - rewrite true_range_length, length_zip_with. lia.
  - intros i tr r Htr Hr.
    apply (true_range_lookup high low close _ tr Hlow Hclose) in Htr
      as (h & l & Hh & Hl & Hcase).
    apply lookup_zip_with_Some in Hr as (h' & l' & -> & Hh' & Hl').
    rewrite Hh in Hh'. rewrite Hl in Hl'.
    injection Hh' as <-. injection Hl' as <-.
    destruct i as [|k]; [subst tr; reflexivity|].
    destruct Hcase as (c & Hc & ->).
    destruct (Hgap k h l c Hh Hl Hc) as [Hlc Hch].
    assert (Hup : Qabs (h - c) == h - c) by (apply Qabs_pos; lra).
    assert (Hdown : Qabs (l - c) == - (l - c)) by (apply Qabs_neg; lra).
    rewrite (qmax_left _ (Qabs (l - c)));
      rewrite (qmax_left (h - l) (Qabs (h - c))); lra.
Qed.

(** X30.  When no bar gaps away from the previous close, the average
    true range is the simple moving average of the bar ranges
    [high - low]: the two are NaN at the same positions and equal as
    numbers elsewhere. *)
Theorem atr_without_gaps (high low close : list Q) (period i : nat) :
  length low = length high -> length close = length high ->
  gapless high low close ->
  (i < length high)%nat ->
  (1 <= period)%nat ->
  ((i + 1 < period)%nat /\
   calculate_atr high low close period !! i = Some NaN /\
   calculate_sma (zip_with Qminus high low) period !! i = Some NaN) \/
  (exists q q',
     calculate_atr high low close period !! i = Some (Fin q) /\
     calculate_sma (zip_with Qminus high low) period !! i = Some (Fin q') /\
     q == q').
Proof.
  intros Hlow Hclose Hgap Hi Hp.
  rewrite (calculate_atr_sma high low close period Hlow Hclose).
  unfold calculate_sma.
  rewrite (rolling_mean_array period i (true_range high low close))
    by (rewrite true_range_length; exact Hi).
  rewrite (rolling_mean_array period i (zip_with Qminus high low))
    by (rewrite length_zip_with; lia).
  destruct (i + 1 <? period)%nat eqn:Hw.
  - left. apply Nat.ltb_lt in Hw. auto.
  - right. pose proof (inject_nat_pos period Hp) as Hpos.
    rewrite !fdiv_finite by lra.
    eexists _, _. split; [reflexivity|]. split; [reflexivity|].
    rewrite (Qsum_same _ _
               (trailing_same period i _ _
                  (true_range_gapless high low close Hlow Hclose Hgap))).
    reflexivity.
Qed.

Lemma atr_without_gaps_witness :
  gapless [12; 13; 14] [9; 10; 11] [11; 12; 13] /\
  exists q q',
    calculate_atr [12; 13; 14] [9; 10; 11] [11; 12; 13] 2 !! 2%nat
    = Some (Fin q) /\
    calculate_sma (zip_with Qminus [12; 13; 14] [9; 10; 11]) 2 !! 2%nat
    = Some (Fin q') /\
    q == q'.
Proof.
  assert (Hgap : gapless [12; 13; 14] [9; 10; 11] [11; 12; 13]).
  { intros [|[|k]] h l c Hh Hl Hc; simpl in Hh, Hl, Hc; try discriminate;
      injection Hh as <-; injection Hl as <-; injection Hc as <-;
      split; discriminate. }
  split; [exact Hgap|].
  destruct (atr_without_gaps [12; 13; 14] [9; 10; 11] [11; 12; 13] 2 2
              eq_refl eq_refl Hgap ltac:(simpl; lia) ltac:(lia))
    as [(Hwarm & _) | Hfull]; [lia | exact Hfull].
Defined.
